(** * biopics-mcp: the request client and tool dispatcher of src/index.ts

    A shallow embedding of the MCP adapter in [src/src/index.ts]:
    - the JSON the handlers send ([json], request bodies) and the
      JavaScript values [res.json()] returns ([jsval]), with
      [JSON.stringify] (ECMA-262 SerializeJSONProperty / QuoteJSONString)
      and [JSON.parse];
    - [URLSearchParams] (set / toString, application/x-www-form-urlencoded);
    - the request client [api] (URL, headers, [fetch] result handling);
    - the eight tool handlers with their [try] / [catch] wrapping, in a small
      exception monad;
    - the tool registry ([server.tool] calls).

    Modelling choices.  JavaScript strings are modelled as their UTF-8 byte
    sequences ([string] of [ascii] bytes), a surrogate code unit that is
    not half of a pair as its three-byte generalized UTF-8 form.  The
    tools' numeric arguments ([page], [limit], [scene_id]) are integers
    ([Z]), and so are the numbers of the request bodies ([json]).  The
    numbers of response bodies are IEEE-754 doubles ([spec_float]), read
    with correct rounding and written by [Number::toString].  The network
    is a parameter: a function from the request [fetch] sends to its
    outcome. *)

From Stdlib Require Import String Ascii ZArith List Lia Bool Permutation.
From Stdlib Require Import Floats.SpecFloat.
From Stdlib Require Import DecimalPos DecimalZ.
Import ListNotations.
Set Warnings "-register-all".
Open Scope Z_scope.
Open Scope string_scope.

(* ================================================================= *)
(** ** Characters *)

Definition c_quote : ascii := "034".
Definition c_bslash : ascii := "092".
Definition c_nl : ascii := "010".

Definition chr (c : ascii) : string := String c EmptyString.

Definition is_digit (c : ascii) : bool :=
  (48 <=? nat_of_ascii c)%nat && (nat_of_ascii c <=? 57)%nat.

(** Lower-case hexadecimal digit of [n < 16]. *)
Definition hex_lower (n : nat) : ascii :=
  if (n <? 10)%nat then ascii_of_nat (48 + n) else ascii_of_nat (87 + n).

(** Upper-case hexadecimal digit of [n < 16]. *)
Definition hex_upper (n : nat) : ascii :=
  if (n <? 10)%nat then ascii_of_nat (48 + n) else ascii_of_nat (55 + n).

Fixpoint concat_map_str (f : ascii -> string) (s : string) : string :=
  match s with
  | EmptyString => EmptyString
  | String c r => f c ++ concat_map_str f r
  end.

Fixpoint join (sep : string) (parts : list string) : string :=
  match parts with
  | [] => EmptyString
  | [p] => p
  | p :: ps => p ++ sep ++ join sep ps
  end.

(* ================================================================= *)
(** ** JSON values *)

(** The JSON the handlers send: request bodies built from the tools'
    arguments, whose numbers are integers.  Objects are association lists
    in property order.  Response bodies are [jsval] values, below. *)
Inductive json : Type :=
| JNull
| JBool (b : bool)
| JNum (n : Z)
| JStr (s : string)
| JArr (xs : list json)
| JObj (ps : list (string * json)).

(** Decimal digits of a [Decimal.uint]. *)
Fixpoint uint_str (u : Decimal.uint) : string :=
  match u with
  | Decimal.Nil => EmptyString
  | Decimal.D0 d => String "0" (uint_str d)
  | Decimal.D1 d => String "1" (uint_str d)
  | Decimal.D2 d => String "2" (uint_str d)
  | Decimal.D3 d => String "3" (uint_str d)
  | Decimal.D4 d => String "4" (uint_str d)
  | Decimal.D5 d => String "5" (uint_str d)
  | Decimal.D6 d => String "6" (uint_str d)
  | Decimal.D7 d => String "7" (uint_str d)
  | Decimal.D8 d => String "8" (uint_str d)
  | Decimal.D9 d => String "9" (uint_str d)
  end.

(** [Number::toString] on an integer-valued number; also [String(n)] and
    the [+] / template-literal conversions. *)
Definition num_to_string (z : Z) : string :=
  match Z.to_int z with
  | Decimal.Pos u => uint_str u
  | Decimal.Neg u => "-" ++ uint_str u
  end.

(** QuoteJSONString, one code unit. *)
Definition quote_char (c : ascii) : string :=
  let n := nat_of_ascii c in
  if (n =? 8)%nat then String c_bslash "b"
  else if (n =? 9)%nat then String c_bslash "t"
  else if (n =? 10)%nat then String c_bslash "n"
  else if (n =? 12)%nat then String c_bslash "f"
  else if (n =? 13)%nat then String c_bslash "r"
  else if Ascii.eqb c c_quote then String c_bslash (chr c_quote)
  else if Ascii.eqb c c_bslash then String c_bslash (chr c_bslash)
  else if (n <? 32)%nat then
    String c_bslash (String "u" (String "0" (String "0"
      (String (hex_lower (n / 16)) (chr (hex_lower (n mod 16)))))))
  else chr c.

Definition quote (s : string) : string :=
  String c_quote (concat_map_str quote_char s ++ chr c_quote).

(** SerializeJSONProperty with the [gap] of [JSON.stringify]'s third
    argument and the current [indent]. *)
Fixpoint ser (gap indent : string) (v : json) : string :=
  match v with
  | JNull => "null"
  | JBool true => "true"
  | JBool false => "false"
  | JNum z => num_to_string z
  | JStr s => quote s
  | JArr xs =>
      match xs with
      | [] => "[]"
      | _ =>
          let indent' := indent ++ gap in
          let parts := map (ser gap indent') xs in
          if String.eqb gap "" then "[" ++ join "," parts ++ "]"
          else "[" ++ String c_nl indent' ++ join ("," ++ String c_nl indent') parts
               ++ String c_nl indent ++ "]"
      end
  | JObj ps =>
      match ps with
      | [] => "{}"
      | _ =>
          let indent' := indent ++ gap in
          let colon := if String.eqb gap "" then ":" else ": " in
          let parts := map (fun kv => quote (fst kv) ++ colon ++ ser gap indent' (snd kv)) ps in
          if String.eqb gap "" then "{" ++ join "," parts ++ "}"
          else "{" ++ String c_nl indent' ++ join ("," ++ String c_nl indent') parts
               ++ String c_nl indent ++ "}"
      end
  end.

(** [JSON.stringify(v)] and [JSON.stringify(v, null, 2)]. *)
Definition stringify (v : json) : string := ser "" "" v.

Example stringify_body_ex :
  stringify (JObj [("type", JStr "quote"); ("scene_id", JNum 3)])
  = "{" ++ String c_quote "type" ++ chr c_quote ++ ":" ++ String c_quote "quote"
    ++ chr c_quote ++ "," ++ String c_quote "scene_id" ++ chr c_quote ++ ":3}".
Proof. reflexivity. Qed.

(* ================================================================= *)
(** ** [JSON.parse] *)

Definition is_ws (c : ascii) : bool :=
  let n := nat_of_ascii c in
  (n =? 9)%nat || (n =? 10)%nat || (n =? 13)%nat || (n =? 32)%nat.

Fixpoint skip_ws (s : string) : string :=
  match s with
  | String c r => if is_ws c then skip_ws r else s
  | EmptyString => EmptyString
  end.

(** Value of a hexadecimal digit (either case). *)
Definition hex_val (c : ascii) : option nat :=
  let n := nat_of_ascii c in
  if (48 <=? n)%nat && (n <=? 57)%nat then Some (n - 48)%nat
  else if (65 <=? n)%nat && (n <=? 70)%nat then Some (n - 55)%nat
  else if (97 <=? n)%nat && (n <=? 102)%nat then Some (n - 87)%nat
  else None.

Definition hex4 (a b c d : ascii) : option nat :=
  match hex_val a, hex_val b, hex_val c, hex_val d with
  | Some x, Some y, Some z, Some w => Some (((x * 16 + y) * 16 + z) * 16 + w)%nat
  | _, _, _, _ => None
  end.

(** UTF-8 bytes of a [\uXXXX] code unit; surrogate halves (pairs) are
    outside the byte-string model. *)
Definition utf8_of_unit (u : nat) : option string :=
  if (u <? 128)%nat then Some (chr (ascii_of_nat u))
  else if (u <? 2048)%nat then
    Some (String (ascii_of_nat (192 + u / 64)) (chr (ascii_of_nat (128 + u mod 64))))
  else if (55296 <=? u)%nat && (u <? 57344)%nat then None
  else Some (String (ascii_of_nat (224 + u / 4096))
          (String (ascii_of_nat (128 + (u / 64) mod 64)) (chr (ascii_of_nat (128 + u mod 64))))).

Definition cons_fst (pre : string) (o : option (string * string)) : option (string * string) :=
  match o with
  | Some (t, rest) => Some (pre ++ t, rest)
  | None => None
  end.

(** The characters of a JSON string literal after its opening quote, up to
    and including the closing quote. *)
Fixpoint pstr (s : string) : option (string * string) :=
  match s with
  | EmptyString => None
  | String c r =>
      if Ascii.eqb c c_quote then Some (EmptyString, r)
      else if Ascii.eqb c c_bslash then
        match r with
        | EmptyString => None
        | String e r' =>
            let n := nat_of_ascii e in
            if Ascii.eqb e c_quote then cons_fst (chr c_quote) (pstr r')
            else if Ascii.eqb e c_bslash then cons_fst (chr c_bslash) (pstr r')
            else if (n =? 47)%nat then cons_fst "/" (pstr r')
            else if (n =? 98)%nat then cons_fst (chr "008") (pstr r')
            else if (n =? 102)%nat then cons_fst (chr "012") (pstr r')
            else if (n =? 110)%nat then cons_fst (chr "010") (pstr r')
            else if (n =? 114)%nat then cons_fst (chr "013") (pstr r')
            else if (n =? 116)%nat then cons_fst (chr "009") (pstr r')
            else if (n =? 117)%nat then
              match r' with
              | String h1 (String h2 (String h3 (String h4 r''))) =>
                  match hex4 h1 h2 h3 h4 with
                  | Some u =>
                      match utf8_of_unit u with
                      | Some bytes => cons_fst bytes (pstr r'')
                      | None => None
                      end
                  | None => None
                  end
              | _ => None
              end
            else None
        end
      else if (nat_of_ascii c <? 32)%nat then None
      else cons_fst (chr c) (pstr r)
  end.

Definition digit_cons (c : ascii) (u : Decimal.uint) : Decimal.uint :=
  match (nat_of_ascii c - 48)%nat with
  | 0%nat => Decimal.D0 u | 1%nat => Decimal.D1 u | 2%nat => Decimal.D2 u
  | 3%nat => Decimal.D3 u | 4%nat => Decimal.D4 u | 5%nat => Decimal.D5 u
  | 6%nat => Decimal.D6 u | 7%nat => Decimal.D7 u | 8%nat => Decimal.D8 u
  | _ => Decimal.D9 u
  end.

(** The longest run of decimal digits. *)
Fixpoint pdigits (s : string) : Decimal.uint * string :=
  match s with
  | String c r =>
      if is_digit c then let (u, rest) := pdigits r in (digit_cons c u, rest)
      else (Decimal.Nil, s)
  | EmptyString => (Decimal.Nil, EmptyString)
  end.

(** The integer part of a JSON number: [-? (0 | [1-9][0-9]* )]. *)
Definition pnum (s : string) : option (json * string) :=
  let '(neg, s1) :=
    match s with
    | String c r => if Ascii.eqb c "-" then (true, r) else (false, s)
    | EmptyString => (false, s)
    end in
  let '(u, rest) := pdigits s1 in
  match u with
  | Decimal.Nil => None
  | Decimal.D0 Decimal.Nil => Some (JNum 0, rest)
  | Decimal.D0 _ => None
  | _ => Some (JNum (if neg then - Z.of_uint u else Z.of_uint u), rest)
  end.

Definition strip_prefix (p s : string) : option string :=
  if String.prefix p s then Some (substring (String.length p) (String.length s - String.length p) s)
  else None.

(** Property assignment on a plain object ([o[k] = v], CreateDataProperty,
    the copy step of an object spread): an existing key keeps its
    position and takes the new value; a new key goes last.  Also used for
    the objects [JSON.parse] builds. *)
Fixpoint obj_set {A : Type} (ps : list (string * A)) (k : string) (v : A) : list (string * A) :=
  match ps with
  | [] => [(k, v)]
  | (k', v') :: ps' => if String.eqb k k' then (k, v) :: ps' else (k', v') :: obj_set ps' k v
  end.

(** The JSON grammar, with [fuel] bounding the nesting. *)
Fixpoint pval (fuel : nat) (s : string) : option (json * string) :=
  match fuel with
  | O => None
  | S n =>
      match skip_ws s with
      | EmptyString => None
      | String c r =>
          if Ascii.eqb c "n" then option_map (fun r' => (JNull, r')) (strip_prefix "ull" r)
          else if Ascii.eqb c "t" then option_map (fun r' => (JBool true, r')) (strip_prefix "rue" r)
          else if Ascii.eqb c "f" then option_map (fun r' => (JBool false, r')) (strip_prefix "alse" r)
          else if Ascii.eqb c c_quote then
            match pstr r with Some (t, r') => Some (JStr t, r') | None => None end
          else if Ascii.eqb c "[" then
            match skip_ws r with
            | String "]" r' => Some (JArr [], r')
            | r1 => match pelems n r1 [] with Some (xs, r') => Some (JArr xs, r') | None => None end
            end
          else if Ascii.eqb c "{" then
            match skip_ws r with
            | String "}" r' => Some (JObj [], r')
            | r1 => match pmembers n r1 [] with Some (ps, r') => Some (JObj ps, r') | None => None end
            end
          else if Ascii.eqb c "-" || is_digit c then pnum (String c r)
          else None
      end
  end
with pelems (fuel : nat) (s : string) (acc : list json) : option (list json * string) :=
  match fuel with
  | O => None
  | S n =>
      match pval n s with
      | None => None
      | Some (v, r) =>
          match skip_ws r with
          | String c r' =>
              if Ascii.eqb c "," then pelems n r' (acc ++ [v])%list
              else if Ascii.eqb c "]" then Some ((acc ++ [v])%list, r')
              else None
          | EmptyString => None
          end
      end
  end
with pmembers (fuel : nat) (s : string) (acc : list (string * json))
    : option (list (string * json) * string) :=
  match fuel with
  | O => None
  | S n =>
      match skip_ws s with
      | String c r =>
          if Ascii.eqb c c_quote then
            match pstr r with
            | None => None
            | Some (k, r1) =>
                match skip_ws r1 with
                | String ":" r2 =>
                    match pval n r2 with
                    | None => None
                    | Some (v, r3) =>
                        match skip_ws r3 with
                        | String c' r4 =>
                            if Ascii.eqb c' "," then pmembers n r4 (obj_set acc k v)
                            else if Ascii.eqb c' "}" then Some (obj_set acc k v, r4)
                            else None
                        | EmptyString => None
                        end
                    end
                | _ => None
                end
            end
          else None
      | EmptyString => None
      end
  end.

(** [JSON.parse(text)] on the texts of [json] values (integer numbers, no
    [\u] escape of a surrogate; other texts give [None]), the reader of
    the request bodies; the fuel covers every nesting a text of this
    length can have.  [None] is a [SyntaxError].  Response bodies are read
    by [json_parse], below. *)
Definition parse (text : string) : option json :=
  match pval (S (String.length text)) text with
  | Some (v, rest) => match skip_ws rest with EmptyString => Some v | _ => None end
  | None => None
  end.

Example parse_ex1 :
  parse " [1, -20, [null, true], {}] " = Some (JArr [JNum 1; JNum (-20); JArr [JNull; JBool true]; JObj []]).
Proof. reflexivity. Qed.

Example parse_ex2 : parse "[01]" = None /\ parse "1.5" = None /\ parse "[1,]" = None.
Proof. repeat split; reflexivity. Qed.

Example parse_ex3 :
  parse ("{" ++ quote "a" ++ ":1," ++ quote "b" ++ ":2," ++ quote "a" ++ ":3}")
  = Some (JObj [("a", JNum 3); ("b", JNum 2)]).
Proof. reflexivity. Qed.

Example parse_ex4 : parse (quote (String "001" (String c_quote "x"))) = Some (JStr (String "001" (String c_quote "x"))).
Proof. reflexivity. Qed.

(* ================================================================= *)
(** ** The values of [res.json()] *)

(** JavaScript values as [JSON.parse] builds them: numbers are IEEE-754
    binary64 doubles (53-bit significands, exponents up to 1024), strings
    are byte strings (see [wtf8_canon]), objects list their properties in
    the order of their own keys. *)
Inductive jsval : Type :=
| VNull
| VBool (b : bool)
| VNum (x : spec_float)
| VStr (s : string)
| VArr (xs : list jsval)
| VObj (ps : list (string * jsval)).

(* ----------------------------------------------------------------- *)
(** *** Rounding to a double *)

Section Doubles.
Local Open Scope Z_scope.

(** [2 ^ t <= p / q], for [p, q > 0] and any integer [t]. *)
Definition pow2_le_ratio (t p q : Z) : bool :=
  q * 2 ^ Z.max 0 t <=? p * 2 ^ Z.max 0 (- t).

(** [floor (log2 (p / q))] for [p, q > 0]. *)
Definition flog2 (p q : Z) : Z :=
  let t := Z.log2 p - Z.log2 q in
  if pow2_le_ratio t p q then t else t - 1.

(** The double nearest to [p / q] ([p, q > 0]), ties to an even
    significand, with sign [neg]: [p / q = n * 2 ^ e + rest] with [e] the
    exponent of the binade of [p / q] (at least the subnormal exponent
    -1074), [n] rounded on [rest]; a carry to [2 ^ 53] moves to the next
    binade, and an exponent beyond the largest finite one (971) is an
    infinity. *)
Definition round_ratio (neg : bool) (p q : Z) : spec_float :=
  let e := Z.max (flog2 p q - 52) (-1074) in
  let num := p * 2 ^ Z.max 0 (- e) in
  let den := q * 2 ^ Z.max 0 e in
  let n := num / den in
  let r := num mod den in
  let n' := if 2 * r <? den then n
            else if den <? 2 * r then n + 1
            else if Z.even n then n else n + 1 in
  let '(m, e') := if n' =? 2 ^ 53 then (2 ^ 52, e + 1) else (n', e) in
  if m =? 0 then S754_zero neg
  else if 971 <? e' then S754_infinity neg
  else S754_finite neg (Z.to_pos m) e'.

(** The double of a decimal numeral with sign [neg], digits of value [M]
    and exponent [X] (the number [M * 10 ^ X]), correctly rounded: the
    Number value of its mathematical value (an integer part [0] keeps the
    sign, [-0] is negative zero). *)
Definition decimal_to_double (neg : bool) (M X : Z) : spec_float :=
  if M =? 0 then S754_zero neg
  else if 0 <=? X then round_ratio neg (M * 10 ^ X) 1
  else round_ratio neg M (10 ^ (- X)).

(* ----------------------------------------------------------------- *)
(** *** [Number::toString] (ECMA-262 6.1.6.1.20, radix 10) *)

Definition digit_char (d : Z) : ascii := ascii_of_nat (48 + Z.to_nat d).

(** The [k] decimal digits of [s mod 10 ^ k], most significant first. *)
Fixpoint dec_str (k : nat) (s : Z) : string :=
  match k with
  | O => EmptyString
  | S k' => dec_str k' (s / 10) ++ chr (digit_char (s mod 10))
  end.

Fixpoint dlen_fuel (fuel : nat) (s : Z) : nat :=
  match fuel with
  | O => 1%nat
  | S f => if s <? 10 then 1%nat else S (dlen_fuel f (s / 10))
  end.

(** The number of decimal digits of [s >= 0] (1 for 0). *)
Definition dlen (s : Z) : nat := dlen_fuel (S (Z.to_nat (Z.log2 s))) s.

Fixpoint zeros (n : nat) : string :=
  match n with O => EmptyString | S n' => String "0" (zeros n') end.

(** The exact decimal [S * 10 ^ X] of [m * 2 ^ e]. *)
Definition exact_decimal (m : positive) (e : Z) : Z * Z :=
  if 0 <=? e then (Zpos m * 2 ^ e, 0) else (Zpos m * 5 ^ (- e), e).

Definition float_eqb (x y : spec_float) : bool :=
  match x, y with
  | S754_zero a, S754_zero b => Bool.eqb a b
  | S754_infinity a, S754_infinity b => Bool.eqb a b
  | S754_nan, S754_nan => true
  | S754_finite a m e, S754_finite b m' e' => Bool.eqb a b && Pos.eqb m m' && Z.eqb e e'
  | _, _ => false
  end.

(** [floor (sd * 10 ^ t)] and [ceil (sd * 10 ^ t)]. *)
Definition scaled_floor (sd t : Z) : Z := if 0 <=? t then sd * 10 ^ t else sd / 10 ^ (- t).
Definition scaled_ceil (sd t : Z) : Z := if 0 <=? t then sd * 10 ^ t else - (- sd / 10 ^ (- t)).

(** Step 5 for [k] digits, for [x = sd * 10 ^ X > 0] with
    [10 ^ (nx - 1) <= x < 10 ^ nx]: the pairs [(s, n)] with
    [10 ^ (k - 1) <= s < 10 ^ k] and [F(s * 10 ^ (n - k)) = x].  A decimal
    that rounds to [x] lies within a factor 2 of [x], so [n] is [nx - 1],
    [nx] or [nx + 1]; for each [n] the values of [s] that qualify form an
    interval around [x / 10 ^ (n - k)], so the one closest to [x] is its
    floor or its ceiling. *)
Definition candidates (x : spec_float) (sd X nx k : Z) : list (Z * Z) :=
  filter (fun sn => let '(s, n) := sn in
                    (10 ^ (k - 1) <=? s) && (s <? 10 ^ k)
                    && float_eqb (decimal_to_double false s (n - k)) x)
    (flat_map (fun n => [(scaled_floor sd (X - (n - k)), n); (scaled_ceil sd (X - (n - k)), n)])
       [nx - 1; nx; nx + 1]).

(** [|s * 10 ^ j - sd * 10 ^ X|] in units of [10 ^ b] ([b <= j], [b <= X]). *)
Definition dist (sd X b s j : Z) : Z := Z.abs (s * 10 ^ (j - b) - sd * 10 ^ (X - b)).

(** The candidate whose value is closest to [x]; on a tie the one with an
    even [s] (the choice of ECMA-262's note 2, which engines follow). *)
Definition choose (sd X nx k : Z) (cs : list (Z * Z)) : option (Z * Z) :=
  let b := Z.min X (nx - 1 - k) in
  let better c1 c2 :=
    let d1 := dist sd X b (fst c1) (snd c1 - k) in
    let d2 := dist sd X b (fst c2) (snd c2 - k) in
    (d1 <? d2) || ((d1 =? d2) && Z.even (fst c1) && negb (Z.even (fst c2))) in
  fold_left (fun acc c => match acc with
                          | None => Some c
                          | Some c0 => if better c c0 then Some c else Some c0
                          end) cs None.

(** The least [k] (from [k] on, [fuel] tries) with a candidate. *)
Fixpoint shortest_from (x : spec_float) (sd X nx : Z) (fuel : nat) (k : Z) : option (Z * Z * Z) :=
  match fuel with
  | O => None
  | S f =>
      match choose sd X nx k (candidates x sd X nx k) with
      | Some (s, n) => Some (s, k, n)
      | None => shortest_from x sd X nx f (k + 1)
      end
  end.

(** [(s, k, n)] of step 5 for the positive double [m * 2 ^ e]; the exact
    decimal (with [dlen sd] digits) always qualifies, so the search ends
    by [k = dlen sd]. *)
Definition shortest (m : positive) (e : Z) : Z * Z * Z :=
  let '(sd, X) := exact_decimal m e in
  let D := dlen sd in
  let nx := Z.of_nat D + X in
  match shortest_from (S754_finite false m e) sd X nx D 1 with
  | Some r => r
  | None => (sd, Z.of_nat D, nx)
  end.

(** The exponent part of steps 9 and 10: the sign of [e], then the
    digits of [|e|]. *)
Definition exp_str (e : Z) : string :=
  (if 0 <=? e then "+" else "-") ++ dec_str (dlen (Z.abs e)) (Z.abs e).

(** Steps 6 to 10. *)
Definition format_dec (s k n : Z) : string :=
  if (k <=? n) && (n <=? 21) then dec_str (Z.to_nat k) s ++ zeros (Z.to_nat (n - k))
  else if (0 <? n) && (n <=? 21) then
    dec_str (Z.to_nat n) (s / 10 ^ (k - n)) ++ "." ++ dec_str (Z.to_nat (k - n)) (s mod 10 ^ (k - n))
  else if (-6 <? n) && (n <=? 0) then "0." ++ zeros (Z.to_nat (- n)) ++ dec_str (Z.to_nat k) s
  else if k =? 1 then dec_str 1 s ++ "e" ++ exp_str (n - 1)
  else dec_str 1 (s / 10 ^ (k - 1)) ++ "." ++ dec_str (Z.to_nat (k - 1)) (s mod 10 ^ (k - 1))
       ++ "e" ++ exp_str (n - 1).

Definition number_to_string (x : spec_float) : string :=
  match x with
  | S754_nan => "NaN"
  | S754_zero _ => "0"
  | S754_infinity neg => if neg then "-Infinity" else "Infinity"
  | S754_finite neg m e =>
      (if neg then "-" else "") ++ (let '(s, k, n) := shortest m e in format_dec s k n)
  end.

(** SerializeJSONProperty on a Number: finite numbers by [ToString],
    [NaN] and the infinities as [null]. *)
Definition json_number (x : spec_float) : string :=
  match x with
  | S754_finite _ _ _ | S754_zero _ => number_to_string x
  | _ => "null"
  end.

End Doubles.

(* ----------------------------------------------------------------- *)
(** *** Strings with surrogates *)

(** JavaScript strings are sequences of UTF-16 code units.  A string is
    modelled by the UTF-8 bytes of its code points, where a surrogate
    code unit that is not half of a pair is written as the three bytes
    [ED a b] of its generalized UTF-8 form (a in A0..AF: leading, B0..BF:
    trailing).  A leading and a trailing surrogate next to each other are
    one code point, written with four bytes: [wtf8_canon] puts a string
    built piecewise into this form. *)
Definition cont_byte (b : ascii) : bool :=
  (128 <=? nat_of_ascii b)%nat && (nat_of_ascii b <=? 191)%nat.
Definition lead_sur (a : ascii) : bool :=
  (160 <=? nat_of_ascii a)%nat && (nat_of_ascii a <=? 175)%nat.
Definition trail_sur (a : ascii) : bool :=
  (176 <=? nat_of_ascii a)%nat && (nat_of_ascii a <=? 191)%nat.
Definition is_ED (c : ascii) : bool := (nat_of_ascii c =? 237)%nat.

(** The byte of a number below 256. *)
Definition byte (z : Z) : ascii := ascii_of_nat (Z.to_nat z).

Definition zbyte (c : ascii) : Z := Z.of_nat (nat_of_ascii c).

(** The surrogate code unit written [ED a b]. *)
Definition sur_unit (a b : ascii) : Z := (53248 + (zbyte a - 128) * 64 + (zbyte b - 128))%Z.

(** The four UTF-8 bytes of the code point of the pair [ED a b ED c d]. *)
Definition pair_bytes (a b c d : ascii) : string :=
  let cp := (65536 + (sur_unit a b - 55296) * 1024 + (sur_unit c d - 56320))%Z in
  String (byte (240 + cp / 262144))
    (String (byte (128 + (cp / 4096) mod 64))
       (String (byte (128 + (cp / 64) mod 64)) (chr (byte (128 + cp mod 64))))).

Fixpoint wtf8_canon (s : string) : string :=
  match s with
  | String x (String a (String b (String y (String c (String d r)))) as t) =>
      if is_ED x && lead_sur a && cont_byte b && is_ED y && trail_sur c && cont_byte d
      then pair_bytes a b c d ++ wtf8_canon r
      else String x (wtf8_canon t)
  | String x t => String x (wtf8_canon t)
  | EmptyString => EmptyString
  end.

(** The bytes of a [\uXXXX] code unit (surrogates included). *)
Definition wtf8_of_unit (n : nat) : string :=
  let u := Z.of_nat n in
  if (u <? 128)%Z then chr (byte u)
  else if (u <? 2048)%Z then String (byte (192 + u / 64)) (chr (byte (128 + u mod 64)))
  else String (byte (224 + u / 4096)) (String (byte (128 + (u / 64) mod 64)) (chr (byte (128 + u mod 64)))).

(** [UnicodeEscape]: [\u] and four lower-case hexadecimal digits. *)
Definition unit_escape (u : Z) : string :=
  String c_bslash (String "u" (String (hex_lower (Z.to_nat (u / 4096)))
    (String (hex_lower (Z.to_nat ((u / 256) mod 16))) (String (hex_lower (Z.to_nat ((u / 16) mod 16)))
      (chr (hex_lower (Z.to_nat (u mod 16)))))))).

(** QuoteJSONString (well-formed [JSON.stringify]): a lone surrogate is
    written as its [\u] escape, every other code point as [quote_char]
    treats its bytes. *)
Fixpoint quote_js_chars (s : string) : string :=
  match s with
  | String x (String a (String b r) as t) =>
      if is_ED x && (lead_sur a || trail_sur a) && cont_byte b
      then unit_escape (sur_unit a b) ++ quote_js_chars r
      else quote_char x ++ quote_js_chars t
  | String x t => quote_char x ++ quote_js_chars t
  | EmptyString => EmptyString
  end.

Definition quote_js (s : string) : string := String c_quote (quote_js_chars s ++ chr c_quote).

(** A JSON string literal after its opening quote, up to and including
    the closing quote; the code units are not yet paired. *)
Fixpoint pstr_js (s : string) : option (string * string) :=
  match s with
  | EmptyString => None
  | String c r =>
      if Ascii.eqb c c_quote then Some (EmptyString, r)
      else if Ascii.eqb c c_bslash then
        match r with
        | EmptyString => None
        | String e r' =>
            let n := nat_of_ascii e in
            if Ascii.eqb e c_quote then cons_fst (chr c_quote) (pstr_js r')
            else if Ascii.eqb e c_bslash then cons_fst (chr c_bslash) (pstr_js r')
            else if (n =? 47)%nat then cons_fst "/" (pstr_js r')
            else if (n =? 98)%nat then cons_fst (chr "008") (pstr_js r')
            else if (n =? 102)%nat then cons_fst (chr "012") (pstr_js r')
            else if (n =? 110)%nat then cons_fst (chr "010") (pstr_js r')
            else if (n =? 114)%nat then cons_fst (chr "013") (pstr_js r')
            else if (n =? 116)%nat then cons_fst (chr "009") (pstr_js r')
            else if (n =? 117)%nat then
              match r' with
              | String h1 (String h2 (String h3 (String h4 r''))) =>
                  match hex4 h1 h2 h3 h4 with
                  | Some u => cons_fst (wtf8_of_unit u) (pstr_js r'')
                  | None => None
                  end
              | _ => None
              end
            else None
        end
      else if (nat_of_ascii c <? 32)%nat then None
      else cons_fst (chr c) (pstr_js r)
  end.

(** A JSON string literal as a JavaScript string. *)
Definition pstring (s : string) : option (string * string) :=
  match pstr_js s with
  | Some (t, r) => Some (wtf8_canon t, r)
  | None => None
  end.

(* ----------------------------------------------------------------- *)
(** *** Numbers in JSON text *)

(** The longest run of decimal digits, and what follows. *)
Fixpoint span_digits (s : string) : string * string :=
  match s with
  | String c r =>
      if is_digit c then let (d, rest) := span_digits r in (String c d, rest)
      else (EmptyString, s)
  | EmptyString => (EmptyString, EmptyString)
  end.

Fixpoint digits_value_acc (acc : Z) (s : string) : Z :=
  match s with
  | EmptyString => acc
  | String c r => digits_value_acc (10 * acc + (Z.of_nat (nat_of_ascii c) - 48)) r
  end.

Definition digits_value (s : string) : Z := digits_value_acc 0 s.

(** An integer part of two digits or more that starts with [0]. *)
Definition leading_zero (d : string) : bool :=
  match d with String "0" (String _ _) => true | _ => false end.

Definition lex_sign (s : string) : bool * string :=
  match s with
  | String c r => if Ascii.eqb c "-" then (true, r) else (false, s)
  | EmptyString => (false, s)
  end.

(** [("." digits+)?] *)
Definition lex_frac (s : string) : option (string * string) :=
  match s with
  | String c r =>
      if Ascii.eqb c "." then
        let (d, r') := span_digits r in
        if String.eqb d "" then None else Some (d, r')
      else Some (EmptyString, s)
  | EmptyString => Some (EmptyString, s)
  end.

(** [([eE] [+-]? digits+)?], as the exponent's value. *)
Definition lex_exp (s : string) : option (Z * string) :=
  match s with
  | String c r =>
      if Ascii.eqb c "e" || Ascii.eqb c "E" then
        let '(eneg, r1) :=
          match r with
          | String c' r' =>
              if Ascii.eqb c' "+" then (false, r') else if Ascii.eqb c' "-" then (true, r') else (false, r)
          | EmptyString => (false, r)
          end in
        let (d, r2) := span_digits r1 in
        if String.eqb d "" then None
        else Some (if eneg then - digits_value d else digits_value d, r2)
      else Some (0, s)
  | EmptyString => Some (0, s)
  end.

(** A JSON number [-? (0 | [1-9] digits* ) frac? exp?] and its double.
    (A [0] followed by more digits is never valid JSON text.) *)
Definition pnumber (s : string) : option (spec_float * string) :=
  let '(neg, s1) := lex_sign s in
  let (di, s2) := span_digits s1 in
  if String.eqb di "" || leading_zero di then None
  else
    match lex_frac s2 with
    | None => None
    | Some (df, s3) =>
        match lex_exp s3 with
        | None => None
        | Some (ex, s4) =>
            Some (decimal_to_double neg (digits_value (di ++ df)) (ex - Z.of_nat (String.length df)), s4)
        end
    end.

(* ----------------------------------------------------------------- *)
(** *** Property order *)

Fixpoint all_digits (s : string) : bool :=
  match s with EmptyString => true | String c r => is_digit c && all_digits r end.

(** An array index: the canonical numeric string of an integer in
    [0, 2 ^ 32 - 2]. *)
Definition array_index (k : string) : option Z :=
  match k with
  | String c r =>
      if all_digits k && (negb (Ascii.eqb c "0") || String.eqb r "")
         && (digits_value k <=? 4294967294)%Z
      then Some (digits_value k) else None
  | EmptyString => None
  end.

(** A new array-index key [k = i] goes after the smaller indices. *)
Fixpoint insert_index {A : Type} (ps : list (string * A)) (k : string) (i : Z) (v : A)
    : list (string * A) :=
  match ps with
  | [] => [(k, v)]
  | (k', v') :: ps' =>
      match array_index k' with
      | Some i' => if (i <? i')%Z then (k, v) :: ps else (k', v') :: insert_index ps' k i v
      | None => (k, v) :: ps
      end
  end.

(** CreateDataProperty on an ordinary object, listed in the order of its
    own keys (OrdinaryOwnPropertyKeys): array indices ascending, then the
    other keys in creation order.  An existing key keeps its place. *)
Definition create_data_property {A : Type} (ps : list (string * A)) (k : string) (v : A)
    : list (string * A) :=
  if existsb (fun kv => String.eqb (fst kv) k) ps then obj_set ps k v
  else match array_index k with
       | Some i => insert_index ps k i v
       | None => (ps ++ [(k, v)])%list
       end.

(* ----------------------------------------------------------------- *)
(** *** [JSON.stringify] and [JSON.parse] on these values *)

Fixpoint ser_js (gap indent : string) (v : jsval) : string :=
  match v with
  | VNull => "null"
  | VBool true => "true"
  | VBool false => "false"
  | VNum x => json_number x
  | VStr s => quote_js s
  | VArr xs =>
      match xs with
      | [] => "[]"
      | _ =>
          let indent' := indent ++ gap in
          let parts := map (ser_js gap indent') xs in
          if String.eqb gap "" then "[" ++ join "," parts ++ "]"
          else "[" ++ String c_nl indent' ++ join ("," ++ String c_nl indent') parts
               ++ String c_nl indent ++ "]"
      end
  | VObj ps =>
      match ps with
      | [] => "{}"
      | _ =>
          let indent' := indent ++ gap in
          let colon := if String.eqb gap "" then ":" else ": " in
          let parts := map (fun kv => quote_js (fst kv) ++ colon ++ ser_js gap indent' (snd kv)) ps in
          if String.eqb gap "" then "{" ++ join "," parts ++ "}"
          else "{" ++ String c_nl indent' ++ join ("," ++ String c_nl indent') parts
               ++ String c_nl indent ++ "}"
      end
  end.

(** [JSON.stringify(data, null, 2)]. *)
Definition stringify_js (v : jsval) : string := ser_js "  " "" v.

Fixpoint pval_js (fuel : nat) (s : string) : option (jsval * string) :=
  match fuel with
  | O => None
  | S n =>
      match skip_ws s with
      | EmptyString => None
      | String c r =>
          if Ascii.eqb c "n" then option_map (fun r' => (VNull, r')) (strip_prefix "ull" r)
          else if Ascii.eqb c "t" then option_map (fun r' => (VBool true, r')) (strip_prefix "rue" r)
          else if Ascii.eqb c "f" then option_map (fun r' => (VBool false, r')) (strip_prefix "alse" r)
          else if Ascii.eqb c c_quote then
            match pstring r with Some (t, r') => Some (VStr t, r') | None => None end
          else if Ascii.eqb c "[" then
            match skip_ws r with
            | String "]" r' => Some (VArr [], r')
            | r1 => match pelems_js n r1 [] with Some (xs, r') => Some (VArr xs, r') | None => None end
            end
          else if Ascii.eqb c "{" then
            match skip_ws r with
            | String "}" r' => Some (VObj [], r')
            | r1 => match pmembers_js n r1 [] with Some (ps, r') => Some (VObj ps, r') | None => None end
            end
          else if Ascii.eqb c "-" || is_digit c then
            match pnumber (String c r) with Some (x, r') => Some (VNum x, r') | None => None end
          else None
      end
  end
with pelems_js (fuel : nat) (s : string) (acc : list jsval) : option (list jsval * string) :=
  match fuel with
  | O => None
  | S n =>
      match pval_js n s with
      | None => None
      | Some (v, r) =>
          match skip_ws r with
          | String c r' =>
              if Ascii.eqb c "," then pelems_js n r' (acc ++ [v])%list
              else if Ascii.eqb c "]" then Some ((acc ++ [v])%list, r')
              else None
          | EmptyString => None
          end
      end
  end
with pmembers_js (fuel : nat) (s : string) (acc : list (string * jsval))
    : option (list (string * jsval) * string) :=
  match fuel with
  | O => None
  | S n =>
      match skip_ws s with
      | String c r =>
          if Ascii.eqb c c_quote then
            match pstring r with
            | None => None
            | Some (k, r1) =>
                match skip_ws r1 with
                | String ":" r2 =>
                    match pval_js n r2 with
                    | None => None
                    | Some (v, r3) =>
                        match skip_ws r3 with
                        | String c' r4 =>
                            if Ascii.eqb c' "," then pmembers_js n r4 (create_data_property acc k v)
                            else if Ascii.eqb c' "}" then Some (create_data_property acc k v, r4)
                            else None
                        | EmptyString => None
                        end
                    end
                | _ => None
                end
            end
          else None
      | EmptyString => None
      end
  end.

(** [JSON.parse(text)], [None] being a [SyntaxError]. *)
Definition json_parse (text : string) : option jsval :=
  match pval_js (S (String.length text)) text with
  | Some (v, rest) => match skip_ws rest with EmptyString => Some v | _ => None end
  | None => None
  end.

(* ================================================================= *)
(** ** URL strings *)

Fixpoint has_char (c : ascii) (s : string) : bool :=
  match s with
  | EmptyString => false
  | String x r => Ascii.eqb x c || has_char c r
  end.

Fixpoint count_char (c : ascii) (s : string) : nat :=
  match s with
  | EmptyString => 0
  | String x r => (if Ascii.eqb x c then 1 else 0) + count_char c r
  end.

(** The part before the first [c], and what follows it if [c] occurs. *)
Fixpoint split_first (c : ascii) (s : string) : string * option string :=
  match s with
  | EmptyString => (EmptyString, None)
  | String x r =>
      if Ascii.eqb x c then (EmptyString, Some r)
      else let (pre, post) := split_first c r in (String x pre, post)
  end.

Fixpoint split_all (c : ascii) (s : string) : list string :=
  match s with
  | EmptyString => [EmptyString]
  | String x r =>
      if Ascii.eqb x c then EmptyString :: split_all c r
      else match split_all c r with
           | h :: t => String x h :: t
           | [] => [chr x]
           end
  end.

(** The query of a URL: after the first [?], up to a [#] fragment. *)
Definition url_query (url : string) : option string :=
  match snd (split_first "?" url) with
  | Some q => Some (fst (split_first "#" q))
  | None => None
  end.

(** The names of the query's parameters, in order (the query split on
    [&], empty pieces dropped, each name up to its [=]). *)
Definition query_keys (url : string) : list string :=
  match url_query url with
  | Some q =>
      map (fun part => fst (split_first "=" part))
        (filter (fun part => negb (String.eqb part "")) (split_all "&" q))
  | None => []
  end.

Definition has_query_param (url k : string) : bool :=
  existsb (String.eqb k) (query_keys url).

(* ================================================================= *)
(** ** [URLSearchParams] *)

(** The application/x-www-form-urlencoded byte serializer. *)
Definition form_byte (c : ascii) : string :=
  let n := nat_of_ascii c in
  if (n =? 32)%nat then "+"
  else if (n =? 42)%nat || (n =? 45)%nat || (n =? 46)%nat || (n =? 95)%nat
          || ((48 <=? n)%nat && (n <=? 57)%nat) || ((65 <=? n)%nat && (n <=? 90)%nat)
          || ((97 <=? n)%nat && (n <=? 122)%nat)
  then chr c
  else String "%" (String (hex_upper (n / 16)) (chr (hex_upper (n mod 16)))).

Definition form_encode (s : string) : string := concat_map_str form_byte s.

(** A [URLSearchParams] object: its list of name-value pairs. *)
Definition search_params := list (string * string).

(** [params.set(name, value)]: the first pair named [name] takes [value]
    and the others are removed; with no such pair, one is appended. *)
Fixpoint sp_set (ps : search_params) (name value : string) : search_params :=
  match ps with
  | [] => [(name, value)]
  | (k, v) :: ps' =>
      if String.eqb k name
      then (k, value) :: filter (fun kv => negb (String.eqb (fst kv) name)) ps'
      else (k, v) :: sp_set ps' name value
  end.

(** [params.toString()]. *)
Definition sp_to_string (ps : search_params) : string :=
  join "&" (map (fun kv => form_encode (fst kv) ++ "=" ++ form_encode (snd kv)) ps).

(* ================================================================= *)
(** ** Configuration *)

(** The identity context, read once at startup. *)
Record config := {
  AGENT_NAME : string;
  MODEL_NAME : string;
  USER_TOKEN : string
}.

(** JavaScript truthiness of a string. *)
Definition truthy (s : string) : bool := negb (String.eqb s "").

(** [process.env.X || default]. *)
Definition env_or (v : option string) (default : string) : string :=
  match v with
  | Some s => if truthy s then s else default
  | None => default
  end.

(** The three settings from [BIOPICS_AGENT], [BIOPICS_MODEL] and
    [BIOPICS_USER_TOKEN]. *)
Definition config_of_env (agent model token : option string) : config := {|
  AGENT_NAME := env_or agent "mcp-agent";
  MODEL_NAME := env_or model "";
  USER_TOKEN := env_or token ""
|}.

Definition API_BASE : string := "https://api.biopics.ai".

(* ================================================================= *)
(** ** Thrown values and the exception monad *)

(** What a [throw] (or a rejected promise) carries: an [Error] object
    ([TypeError] from [fetch], [SyntaxError] from [res.json()], the
    [Error] of [api]), or any other value with its [String(...)] form. *)
Inductive thrown : Type :=
| ErrorObj (name message : string)
| OtherValue (repr : string).

(** An awaited computation: a value, or a throw. *)
Inductive result (A : Type) : Type :=
| Ok (a : A)
| Throw (e : thrown).
Arguments Ok {A} a.
Arguments Throw {A} e.

Definition ret {A} (a : A) : result A := Ok a.

Definition bind {A B} (m : result A) (f : A -> result B) : result B :=
  match m with
  | Ok a => f a
  | Throw e => Throw e
  end.

Notation "x <- m ;; k" := (bind m (fun x => k)) (at level 61, m at next level, right associativity).

(** [try { body } catch (err) { return handler(err); }]. *)
Definition try_catch {A} (body : result A) (handler : thrown -> A) : result A :=
  match body with
  | Ok a => Ok a
  | Throw e => Ok (handler e)
  end.

(* ================================================================= *)
(** ** The request client [api] *)

(** The [RequestInit] the handlers pass ([method], [body], [headers]). *)
Record request_init := {
  init_method : option string;
  init_body : option string;
  init_headers : list (string * string)
}.

(** The request [fetch] sends. *)
Record request := {
  req_url : string;
  req_method : string;
  req_headers : list (string * string);
  req_body : option string
}.

(** What the network does with a request: a transport failure (the
    message of [fetch]'s [TypeError]) or a response with its status and
    body text, as [res.json()] and [res.text()] read it (the body bytes
    decoded as UTF-8, a leading byte order mark dropped; the decoding is
    not modelled). *)
Inductive fetch_outcome : Type :=
| NetworkError (message : string)
| Response (status : Z) (body : string).

Definition network := request -> fetch_outcome.

(** [res.ok]. *)
Definition res_ok (status : Z) : bool := (200 <=? status)%Z && (status <=? 299)%Z.

(** The [SyntaxError] of [res.json()] on a body that is not JSON (the
    engine's wording is not modelled). *)
Definition json_syntax_error (body : string) : thrown :=
  ErrorObj "SyntaxError" ("Unexpected token in JSON: " ++ body).

(** Lines 44-46. *)
Definition api_url (cfg : config) (path : string) : string :=
  let sep := if has_char "?" path then "&" else "?" in
  let agentSuffix := if truthy (USER_TOKEN cfg) then "" else sep ++ "agent=" ++ AGENT_NAME cfg in
  API_BASE ++ path ++ agentSuffix.

(** Lines 48-53. *)
Definition default_headers (cfg : config) : list (string * string) :=
  let h := [("Content-Type", "application/json"); ("X-Agent-Name", AGENT_NAME cfg)] in
  let h := if truthy (MODEL_NAME cfg) then obj_set h "X-Model" (MODEL_NAME cfg) else h in
  if truthy (USER_TOKEN cfg) then obj_set h "Authorization" ("Bearer " ++ USER_TOKEN cfg) else h.

(** [{ ...a, ...b }] on string records. *)
Definition spread (a b : list (string * string)) : list (string * string) :=
  fold_left (fun acc kv => obj_set acc (fst kv) (snd kv)) b a.

(** Lines 55-61: the request handed to [fetch]. *)
Definition api_request (cfg : config) (path : string) (options : option request_init) : request := {|
  req_url := api_url cfg path;
  req_method := match options with Some o => match init_method o with Some m => m | None => "GET" end | None => "GET" end;
  req_headers := spread (default_headers cfg)
                   (match options with Some o => init_headers o | None => [] end);
  req_body := match options with Some o => init_body o | None => None end
|}.

(** Lines 63-68: the outcome of the call. *)
Definition api_response (outcome : fetch_outcome) : result jsval :=
  match outcome with
  | NetworkError msg => Throw (ErrorObj "TypeError" msg)
  | Response status body =>
      if res_ok status then
        match json_parse body with
        | Some v => Ok v
        | None => Throw (json_syntax_error body)
        end
      else Throw (ErrorObj "Error" ("API " ++ num_to_string status ++ ": " ++ body))
  end.

(** [api(path, options)]. *)
Definition api (net : network) (cfg : config) (path : string) (options : option request_init)
    : result jsval :=
  api_response (net (api_request cfg path options)).

(* ================================================================= *)
(** ** Response envelopes *)

Record content_item := {
  ci_type : string;
  ci_text : string
}.

Record envelope := {
  content : list content_item;
  isError : option bool
}.

(** Lines 30-32. *)
Definition toolResult (data : jsval) : envelope := {|
  content := [{| ci_type := "text"; ci_text := stringify_js data |}];
  isError := None
|}.

(** Lines 34-37. *)
Definition toolError (err : thrown) : envelope :=
  let msg := match err with ErrorObj _ m => m | OtherValue r => r end in
  {| content := [{| ci_type := "text"; ci_text := "Error: " ++ msg |}];
     isError := Some true |}.

(* ================================================================= *)
(** ** The tools *)

(** The enums of [find_needs] and [my_contributions]. *)
Inductive priority := High | Medium | Low.

Definition priority_str (p : priority) : string :=
  match p with High => "high" | Medium => "medium" | Low => "low" end.

Inductive contribution_status := Pending | Approved | Rejected | Integrated | NeedsRevision.

Definition status_str (s : contribution_status) : string :=
  match s with
  | Pending => "pending" | Approved => "approved" | Rejected => "rejected"
  | Integrated => "integrated" | NeedsRevision => "needs-revision"
  end.

(** A tool invocation whose arguments the tool's zod schema accepted: a
    required argument is present with its type, an optional one is
    [None] when the caller left it out. *)
Inductive tool_call : Type :=
| get_assignment (slug : string)
| submit_contribution (slug type content : string) (source_url : option string)
    (scene_id : option Z) (liberty_note : option string)
| review_person (slug : string)
| browse_people (q tag : option string) (page limit : option Z)
| find_needs (priority : option priority) (tag : option string) (limit : option Z)
| my_contributions (status : option contribution_status) (type : option string)
| leaderboard (limit : option Z)
| check_confidence (slug : string).

(** Truthiness of an optional argument ([undefined], [""] and [0] are
    falsy). *)
Definition str_given (o : option string) : bool :=
  match o with Some s => truthy s | None => false end.

Definition num_given (o : option Z) : bool :=
  match o with Some n => negb (n =? 0)%Z | None => false end.

(** [if (x) params.set(name, f(x))]. *)
Definition set_str (ps : search_params) (name : string) (o : option string) : search_params :=
  match o with Some s => if truthy s then sp_set ps name s else ps | None => ps end.

Definition set_num (ps : search_params) (name : string) (o : option Z) : search_params :=
  match o with Some n => if (n =? 0)%Z then ps else sp_set ps name (num_to_string n) | None => ps end.

(** [`${base}${qs ? "?" + qs : ""}`] with [qs = params.toString()]. *)
Definition with_query (base : string) (ps : search_params) : string :=
  let qs := sp_to_string ps in
  base ++ (if truthy qs then "?" ++ qs else "").

(** The [URLSearchParams] of lines 168-172, 195-198 and 220-222. *)
Definition browse_params (q tag : option string) (page limit : option Z) : search_params :=
  set_num (set_num (set_str (set_str [] "q" q) "tag" tag) "page" page) "limit" limit.

Definition needs_params (priority : option priority) (tag : option string) (limit : option Z)
    : search_params :=
  set_num (set_str (set_str [] "priority" (option_map priority_str priority)) "tag" tag)
    "limit" limit.

Definition contributions_params (status : option contribution_status) (type : option string)
    : search_params :=
  set_str (set_str [] "status" (option_map status_str status)) "type" type.

(** Lines 121-124: the body object of [submit_contribution]. *)
Definition contribution_body (type content : string) (source_url : option string)
    (scene_id : option Z) (liberty_note : option string) : list (string * json) :=
  let body := [("type", JStr type); ("content", JStr content)] in
  let body := match source_url with
              | Some u => if truthy u then obj_set body "source_url" (JStr u) else body
              | None => body end in
  let body := match scene_id with
              | Some n => if (n =? 0)%Z then body else obj_set body "scene_id" (JNum n)
              | None => body end in
  match liberty_note with
  | Some l => if truthy l then obj_set body "liberty_note" (JStr l) else body
  | None => body
  end.

(** The path each handler hands to [api]. *)
Definition tool_path (call : tool_call) : string :=
  match call with
  | get_assignment slug => "/assignment/" ++ slug
  | submit_contribution slug _ _ _ _ _ => "/contribute/" ++ slug
  | review_person slug => "/review/" ++ slug
  | browse_people q tag page limit => with_query "/people" (browse_params q tag page limit)
  | find_needs p tag limit => with_query "/needs" (needs_params p tag limit)
  | my_contributions st ty => with_query "/contributions" (contributions_params st ty)
  | leaderboard limit =>
      "/leaderboard" ++ (match limit with
                         | Some n => if (n =? 0)%Z then "" else "?limit=" ++ num_to_string n
                         | None => "" end)
  | check_confidence slug => "/confidence/" ++ slug
  end.

(** The [RequestInit] each handler hands to [api]. *)
Definition tool_options (call : tool_call) : option request_init :=
  match call with
  | submit_contribution _ type content source_url scene_id liberty_note =>
      Some {| init_method := Some "POST";
              init_body := Some (stringify (JObj (contribution_body type content source_url
                                                    scene_id liberty_note)));
              init_headers := [] |}
  | _ => None
  end.

(** Every handler: [try { return toolResult(await api(path, options)); }
    catch (err) { return toolError(err); }]. *)
Definition handle (net : network) (cfg : config) (call : tool_call) : result envelope :=
  try_catch
    (data <- api net cfg (tool_path call) (tool_options call) ;; ret (toolResult data))
    toolError.

(** The request the handler's [fetch] sends. *)
Definition tool_request (cfg : config) (call : tool_call) : request :=
  api_request cfg (tool_path call) (tool_options call).

Definition tool_name (call : tool_call) : string :=
  match call with
  | get_assignment _ => "get_assignment"
  | submit_contribution _ _ _ _ _ _ => "submit_contribution"
  | review_person _ => "review_person"
  | browse_people _ _ _ _ => "browse_people"
  | find_needs _ _ _ => "find_needs"
  | my_contributions _ _ => "my_contributions"
  | leaderboard _ => "leaderboard"
  | check_confidence _ => "check_confidence"
  end.

Example browse_ex :
  tool_path (browse_people None (Some "Music") None None) = "/people?tag=Music"
  /\ tool_path (browse_people None None None None) = "/people"
  /\ tool_path (browse_people (Some "a b&c") None (Some 2) None) = "/people?q=a+b%26c&page=2".
Proof. repeat split; reflexivity. Qed.

Example url_ex :
  api_url (config_of_env None None None) (tool_path (leaderboard (Some 5)))
  = "https://api.biopics.ai/leaderboard?limit=5&agent=mcp-agent".
Proof. reflexivity. Qed.

(* ================================================================= *)
(** ** The registry: the [server.tool] calls of lines 83-266 *)

(** zod parameter types: [z.string()], [z.number()], [z.enum([...])]. *)
Inductive param_type := PString | PNumber | PEnum (values : list string).

Record param := {
  p_name : string;
  p_type : param_type;
  p_optional : bool;            (* [.optional()] *)
  p_description : option string (* [.describe(...)] *)
}.

Record tool_desc := {
  t_name : string;
  t_description : string;
  t_params : list param
}.

Definition mk_param (n : string) (t : param_type) (opt : bool) (d : option string) : param :=
  {| p_name := n; p_type := t; p_optional := opt; p_description := d |}.

Definition registry : list tool_desc := [
  {| t_name := "get_assignment";
     t_description := "Get your next assignment for a person's biographical documentary. Returns the current production phase, phase-specific instructions, a scene that needs work, and a template to fill. IMPORTANT: Also returns unverified facts that need source URLs — verify these by submitting a fact-check with a source_url. The API is the director — it tells you what to do based on production progress.";
     t_params := [
        mk_param "slug" PString false (Some "Person slug (e.g. 'abraham-lincoln', 'elonmusk', 'fridakahlo')")] |};
  {| t_name := "submit_contribution";
     t_description := "Submit a contribution to a person's biographical documentary. The type must match the current production phase. Phase 3 dramatization types require a liberty_note. For IMAGE contributions: search the web for real photographs, submit type 'image' with source_url pointing to the photo URL, and content describing what the photo shows (year, context, appearance). We need lots of reference photos from different eras.";
     t_params := [
        mk_param "slug" PString false (Some "Person slug");
        mk_param "type" PString false (Some "Contribution type. Phase 1: research, quote, work, timeline, fact-check, biography, source, image, video. Phase 2: scene, story, scene-pitch, dialogue, dramatic-beat, character-note, pacing-suggestion, act-structure. Phase 3: dramatization, composite-character, invented-dialogue, creative-liberty, dramatic-irony. Phase 4: storyboard-prompt, camera-direction, lighting-setup, color-palette, wardrobe-note, set-description, visual-reference, shot-list. Phase 5: ambient-sound, score-mood, music-cue, sound-effect, narration-cue, sonic-palette, silence-note. Phase 6: transition, pacing-note, continuity-fix, title-card, cut-order, credits.");
        mk_param "content" PString false (Some "The contribution content");
        mk_param "source_url" PString true (Some "Verification URL (recommended for research types)");
        mk_param "scene_id" PNumber true (Some "Scene ID when contributing to a specific scene");
        mk_param "liberty_note" PString true (Some "Required for phase 3 dramatization types. Explains what was changed from verified facts and why.")] |};
  {| t_name := "review_person";
     t_description := "Get a full phase-aware review of a person's biographical documentary. Returns all existing data (quotes, works, timelines, chapters), the current production phase with progress scores, phase-specific review instructions, and scenes needing work.";
     t_params := [
        mk_param "slug" PString false (Some "Person slug")] |};
  {| t_name := "browse_people";
     t_description := "Browse or search the 1,141 biographical entries. Filter by category tag or search by name.";
     t_params := [
        mk_param "q" PString true (Some "Search by name");
        mk_param "tag" PString true (Some "Filter by category: Sport, Music, Film, History, Science, Art, Business, Literature");
        mk_param "page" PNumber true (Some "Page number (default 1)");
        mk_param "limit" PNumber true (Some "Results per page (default 50, max 100)")] |};
  {| t_name := "find_needs";
     t_description := "Find content gaps across all people. Returns people sorted by completeness score (lowest first) with their specific needs. Use this to find the most impactful work to do.";
     t_params := [
        mk_param "priority" (PEnum ["high"; "medium"; "low"]) true (Some "high = score <30, medium = 30-60, low = 60-80");
        mk_param "tag" PString true (Some "Filter by category");
        mk_param "limit" PNumber true (Some "Results per page (default 50)")] |};
  {| t_name := "my_contributions";
     t_description := "List your submitted contributions and their statuses (pending, approved, rejected, integrated).";
     t_params := [
        mk_param "status" (PEnum ["pending"; "approved"; "rejected"; "integrated"; "needs-revision"]) true None;
        mk_param "type" PString true (Some "Filter by contribution type")] |};
  {| t_name := "leaderboard";
     t_description := "View the top contributors ranked by approved contributions.";
     t_params := [
        mk_param "limit" PNumber true (Some "Number of results (default 20, max 50)")] |};
  {| t_name := "check_confidence";
     t_description := "Check the confidence/convergence stats for a person. Shows which facts have been independently verified by multiple agents, which have verified source URLs, and which are still unverified.";
     t_params := [
        mk_param "slug" PString false (Some "Person slug")] |}
].

(* ================================================================= *)
(** ** Auxiliary definitions for the statements *)

(** [sub] occurs in [s]. *)
Definition contains (s sub : string) : Prop := exists pre post, s = pre ++ sub ++ post.

(** The first value stored under [k] in a record's list of properties. *)
Fixpoint lookup {A : Type} (k : string) (ps : list (string * A)) : option A :=
  match ps with
  | [] => None
  | (k', v) :: ps' => if String.eqb k k' then Some v else lookup k ps'
  end.

(** The caller-supplied headers of a [RequestInit]. *)
Definition caller_headers (options : option request_init) : list (string * string) :=
  match options with Some o => init_headers o | None => [] end.

(** The [ci_text] of an envelope's content. *)
Definition envelope_texts (env : envelope) : list string := map ci_text (content env).

(* ================================================================= *)
(** ** Lemmas on the model *)

Lemma append_assoc_str : forall a b c : string, (a ++ b) ++ c = a ++ (b ++ c).
Proof. induction a; intros; simpl; [reflexivity | now rewrite IHa]. Qed.

Lemma append_empty_r_str : forall a : string, a ++ "" = a.
Proof. induction a; simpl; [reflexivity | now rewrite IHa]. Qed.

Lemma lookup_obj_set {A : Type} (ps : list (string * A)) (k k' : string) (v : A) :
  lookup k (obj_set ps k' v) = if String.eqb k k' then Some v else lookup k ps.
Proof.
  induction ps as [| [k0 v0] ps IH]; simpl.
  - reflexivity.
  - destruct (String.eqb k' k0) eqn:E.
    + apply String.eqb_eq in E; subst k0. simpl. destruct (String.eqb k k'); reflexivity.
    + simpl. rewrite IH. destruct (String.eqb k k') eqn:E1, (String.eqb k k0) eqn:E2; auto.
      apply String.eqb_eq in E1; apply String.eqb_eq in E2; subst.
      rewrite String.eqb_refl in E. discriminate.
Qed.

Lemma lookup_spread (a b : list (string * string)) (k : string) :
  lookup k (spread a b) = match lookup k (rev b) with Some v => Some v | None => lookup k a end.
Proof.
  unfold spread. revert a. induction b as [| [k0 v0] b IH]; intros a; simpl.
  - reflexivity.
  - rewrite IH, lookup_obj_set.
    assert (Hl : forall l : list (string * string),
               lookup k (l ++ [(k0, v0)])%list
               = match lookup k l with Some v => Some v
                 | None => if String.eqb k k0 then Some v0 else None end).
    { induction l as [| [k1 v1] l IHl]; simpl; [reflexivity |].
      destruct (String.eqb k k1); auto. }
    rewrite Hl. destruct (lookup k (rev b)); auto.
    destruct (String.eqb k k0); auto.
Qed.

(** Characters that delimit a URL's query or its parameters. *)
Definition query_safe (s : string) : bool :=
  negb (has_char "&" s || has_char "#" s || has_char "=" s || has_char "?" s).

Lemma has_char_app (c : ascii) (a b : string) :
  has_char c (a ++ b) = has_char c a || has_char c b.
Proof. induction a; simpl; [reflexivity | rewrite IHa; apply orb_assoc]. Qed.

Lemma count_char_app (c : ascii) (a b : string) :
  count_char c (a ++ b) = (count_char c a + count_char c b)%nat.
Proof. induction a; simpl; [reflexivity | rewrite IHa; lia]. Qed.

Lemma count_char_zero (c : ascii) (s : string) : has_char c s = false -> count_char c s = 0%nat.
Proof.
  induction s as [| x r IH]; simpl; [reflexivity |].
  intros H. apply orb_false_iff in H as [H1 H2]. rewrite H1, IH; auto.
Qed.

Lemma count_char_pos (c : ascii) (s : string) : has_char c s = true -> (1 <= count_char c s)%nat.
Proof.
  induction s as [| x r IH]; simpl; [discriminate |].
  intros H. apply orb_true_iff in H as [H | H]; [rewrite H; lia | specialize (IH H); lia].
Qed.

Lemma query_safe_app (a b : string) :
  query_safe a = true -> query_safe b = true -> query_safe (a ++ b) = true.
Proof.
  unfold query_safe. rewrite !has_char_app.
  destruct (has_char "&" a), (has_char "#" a), (has_char "=" a), (has_char "?" a),
           (has_char "&" b), (has_char "#" b), (has_char "=" b), (has_char "?" b);
    simpl; auto.
Qed.

Lemma query_safe_has (s : string) : query_safe s = true ->
  has_char "&" s = false /\ has_char "#" s = false /\ has_char "=" s = false /\ has_char "?" s = false.
Proof.
  unfold query_safe.
  destruct (has_char "&" s), (has_char "#" s), (has_char "=" s), (has_char "?" s); simpl;
    intuition discriminate.
Qed.

Lemma form_byte_safe (c : ascii) : query_safe (form_byte c) = true.
Proof. destruct c as [[] [] [] [] [] [] [] []]; reflexivity. Qed.

Lemma form_encode_safe (s : string) : query_safe (form_encode s) = true.
Proof.
  induction s as [| c r IH]; [reflexivity |].
  apply query_safe_app; [apply form_byte_safe | exact IH].
Qed.

Lemma uint_str_safe (u : Decimal.uint) : query_safe (uint_str u) = true.
Proof. induction u; simpl; try reflexivity; exact IHu. Qed.

Lemma num_to_string_safe (z : Z) : query_safe (num_to_string z) = true.
Proof.
  unfold num_to_string. destruct (Z.to_int z); [apply uint_str_safe |].
  apply (query_safe_app "-"); [reflexivity | apply uint_str_safe].
Qed.

Lemma split_first_absent (c : ascii) (s : string) :
  has_char c s = false -> split_first c s = (s, None).
Proof.
  induction s as [| x r IH]; simpl; [reflexivity |].
  intros H. apply orb_false_iff in H as [H1 H2]. rewrite H1, IH; auto.
Qed.

Lemma split_first_at (c : ascii) (a b : string) :
  has_char c a = false -> split_first c (a ++ String c b) = (a, Some b).
Proof.
  induction a as [| x r IH]; simpl.
  - intros _. now rewrite Ascii.eqb_refl.
  - intros H. apply orb_false_iff in H as [H1 H2]. rewrite H1, IH; auto.
Qed.

Lemma split_all_absent (c : ascii) (s : string) :
  has_char c s = false -> split_all c s = [s].
Proof.
  induction s as [| x r IH]; simpl; [reflexivity |].
  intros H. apply orb_false_iff in H as [H1 H2]. rewrite H1, IH; auto.
Qed.

Lemma split_all_nonnil (c : ascii) (s : string) : split_all c s <> [].
Proof.
  destruct s as [| x r]; simpl; [discriminate |].
  destruct (Ascii.eqb x c); [discriminate |]. destruct (split_all c r); discriminate.
Qed.

Lemma split_all_at (c : ascii) (a b : string) :
  has_char c a = false -> split_all c (a ++ String c b) = a :: split_all c b.
Proof.
  induction a as [| x r IH]; simpl.
  - intros _. now rewrite Ascii.eqb_refl.
  - intros H. apply orb_false_iff in H as [H1 H2]. rewrite H1, (IH H2). reflexivity.
Qed.

Lemma split_all_join (c : ascii) (parts : list string) :
  parts <> [] -> Forall (fun p => has_char c p = false) parts ->
  split_all c (join (chr c) parts) = parts.
Proof.
  induction parts as [| p ps IH]; intros Hne Hf; [congruence |].
  inversion Hf as [| ? ? Hp Hps]; subst.
  destruct ps as [| p2 ps].
  - simpl. now apply split_all_absent.
  - change (join (chr c) (p :: p2 :: ps)) with (p ++ String c (join (chr c) (p2 :: ps))).
    rewrite (split_all_at c p _ Hp), IH; auto. discriminate.
Qed.

Lemma has_char_join (c : ascii) (sep : string) (parts : list string) :
  has_char c sep = false -> Forall (fun p => has_char c p = false) parts ->
  has_char c (join sep parts) = false.
Proof.
  intros Hs. induction parts as [| p ps IH]; intros Hf; [reflexivity |].
  inversion Hf as [| ? ? Hp Hps]; subst.
  destruct ps as [| p2 ps]; [exact Hp |].
  change (join sep (p :: p2 :: ps)) with (p ++ sep ++ join sep (p2 :: ps)).
  rewrite !has_char_app, Hp, Hs, IH; auto.
Qed.

Lemma count_char_join (c : ascii) (sep : string) (parts : list string) :
  has_char c sep = false -> Forall (fun p => has_char c p = false) parts ->
  count_char c (join sep parts) = 0%nat.
Proof. intros Hs Hf. apply count_char_zero, has_char_join; auto. Qed.

(** The pieces [name=value] of [params.toString()]. *)
Definition sp_parts (ps : search_params) : list string :=
  map (fun kv => form_encode (fst kv) ++ "=" ++ form_encode (snd kv)) ps.

Lemma sp_parts_safe (c : ascii) (ps : search_params) :
  c = "&"%char \/ c = "#"%char \/ c = "?"%char ->
  Forall (fun p => has_char c p = false) (sp_parts ps).
Proof.
  intros Hc. apply Forall_forall. intros p Hp. unfold sp_parts in Hp.
  apply in_map_iff in Hp as [[k v] [<- _]]. simpl.
  pose proof (query_safe_has _ (form_encode_safe k)) as Hk.
  pose proof (query_safe_has _ (form_encode_safe v)) as Hv.
  rewrite !has_char_app. destruct Hc as [-> | [-> | ->]]; simpl; intuition;
    repeat match goal with H : _ = false |- _ => rewrite H end; reflexivity.
Qed.

Lemma sp_to_string_truthy (ps : search_params) : truthy (sp_to_string ps) = (negb (length ps =? 0))%nat.
Proof.
  unfold sp_to_string. destruct ps as [| [k v] ps]; [reflexivity |].
  simpl map. destruct (map _ ps); destruct (form_encode k); reflexivity.
Qed.

(** The query keys of a path built as [`${base}${qs ? "?" + qs : ""}`]
    are the (encoded) names of the parameters. *)
Lemma query_keys_with_query (base : string) (ps : search_params) :
  has_char "?" base = false ->
  query_keys (with_query base ps) = map (fun kv => form_encode (fst kv)) ps.
Proof.
  intros Hb. unfold with_query. rewrite sp_to_string_truthy.
  destruct ps as [| kv ps'] eqn:Eps.
  - simpl. unfold query_keys, url_query. rewrite append_empty_r_str, split_first_absent; auto.
  - rewrite <- Eps. replace (negb (length ps =? 0)%nat) with true by (subst; reflexivity).
    unfold query_keys, url_query.
    change ("?" ++ sp_to_string ps) with (String "?" (sp_to_string ps)).
    rewrite (split_first_at "?" base _ Hb). cbn [snd].
    assert (Hjoin : sp_to_string ps = join (chr "&") (sp_parts ps)) by reflexivity.
    rewrite Hjoin, split_first_absent
      by (apply has_char_join; [reflexivity | apply sp_parts_safe; auto]).
    cbn [fst].
    rewrite split_all_join by first [subst; discriminate | apply sp_parts_safe; auto].
    unfold sp_parts.
    assert (Hf : forall l : search_params,
               filter (fun part => negb (String.eqb part ""))
                 (map (fun kv => form_encode (fst kv) ++ "=" ++ form_encode (snd kv)) l)
               = map (fun kv => form_encode (fst kv) ++ "=" ++ form_encode (snd kv)) l).
    { induction l as [| [k v] l IH]; [reflexivity |]. cbn [map filter]. rewrite IH.
      cbn [fst snd]. destruct (form_encode k); reflexivity. }
    rewrite Hf, map_map. apply map_ext. intros [k v]. simpl.
    pose proof (query_safe_has _ (form_encode_safe k)) as (_ & _ & Hk & _).
    rewrite (split_first_at "=" _ _ Hk). reflexivity.
Qed.

Lemma form_encode_app (a b : string) : form_encode (a ++ b) = form_encode a ++ form_encode b.
Proof.
  induction a as [| c r IH]; [reflexivity |].
  unfold form_encode in *. simpl. rewrite IH, append_assoc_str. reflexivity.
Qed.

Lemma form_encode_num (z : Z) : form_encode (num_to_string z) = num_to_string z.
Proof.
  assert (Hu : forall u, form_encode (uint_str u) = uint_str u)
    by (induction u; simpl; try reflexivity; unfold form_encode in *; simpl; now rewrite IHu).
  unfold num_to_string. destruct (Z.to_int z); [apply Hu |].
  rewrite form_encode_app, Hu. reflexivity.
Qed.

Lemma split_first_app_absent (c : ascii) (a b : string) :
  has_char c a = false ->
  split_first c (a ++ b) = (a ++ fst (split_first c b), snd (split_first c b)).
Proof.
  induction a as [| x r IH]; simpl.
  - intros _. destruct (split_first c b); reflexivity.
  - intros H. apply orb_false_iff in H as [H1 H2]. rewrite H1, (IH H2). reflexivity.
Qed.

Lemma query_keys_prefix (a p : string) :
  has_char "?" a = false -> query_keys (a ++ p) = query_keys p.
Proof.
  intros Ha. unfold query_keys, url_query. rewrite split_first_app_absent by exact Ha.
  reflexivity.
Qed.

(** [key] when [given], nothing otherwise. *)
Definition opt_key (key : string) (given : bool) : list string := if given then [key] else [].

Lemma leaderboard_path (limit : option Z) :
  tool_path (leaderboard limit) = with_query "/leaderboard" (set_num [] "limit" limit).
Proof.
  destruct limit as [n |]; [| reflexivity]. simpl.
  destruct (n =? 0)%Z; [reflexivity |].
  unfold with_query, sp_to_string. simpl. rewrite form_encode_num. reflexivity.
Qed.

Lemma browse_keys (q tag : option string) (page limit : option Z) :
  query_keys (tool_path (browse_people q tag page limit))
  = (opt_key "q" (str_given q) ++ opt_key "tag" (str_given tag)
     ++ opt_key "page" (num_given page) ++ opt_key "limit" (num_given limit))%list.
Proof.
  simpl. rewrite query_keys_with_query by reflexivity.
  unfold browse_params, set_num, set_str, str_given, num_given.
  destruct q as [x |]; [destruct (truthy x) |]; destruct tag as [t |]; try destruct (truthy t);
    destruct page as [n |]; try destruct (n =? 0)%Z; destruct limit as [m |];
    try destruct (m =? 0)%Z; reflexivity.
Qed.

Lemma needs_keys (pr : option priority) (tag : option string) (limit : option Z) :
  query_keys (tool_path (find_needs pr tag limit))
  = (opt_key "priority" (if pr then true else false) ++ opt_key "tag" (str_given tag)
     ++ opt_key "limit" (num_given limit))%list.
Proof.
  simpl. rewrite query_keys_with_query by reflexivity.
  unfold needs_params, set_num, set_str, str_given, num_given.
  destruct pr as [[] |]; destruct tag as [t |]; try destruct (truthy t);
    destruct limit as [m |]; try destruct (m =? 0)%Z; reflexivity.
Qed.

Lemma contributions_keys (st : option contribution_status) (ty : option string) :
  query_keys (tool_path (my_contributions st ty))
  = (opt_key "status" (if st then true else false) ++ opt_key "type" (str_given ty))%list.
Proof.
  simpl. rewrite query_keys_with_query by reflexivity.
  unfold contributions_params, set_str, str_given.
  destruct st as [[] |]; destruct ty as [t |]; try destruct (truthy t); reflexivity.
Qed.

Lemma leaderboard_keys (limit : option Z) :
  query_keys (tool_path (leaderboard limit)) = opt_key "limit" (num_given limit).
Proof.
  rewrite leaderboard_path, query_keys_with_query by reflexivity.
  unfold set_num, num_given. destruct limit as [m |]; try destruct (m =? 0)%Z; reflexivity.
Qed.

(** The tools whose path carries a query built by the handler. *)
Definition is_query_tool (call : tool_call) : bool :=
  match call with
  | browse_people _ _ _ _ | find_needs _ _ _ | my_contributions _ _ | leaderboard _ => true
  | _ => false
  end.

(** A query tool's path is a fixed [?]-free base with a query made by
    [URLSearchParams]. *)
Lemma query_tool_path (call : tool_call) :
  is_query_tool call = true ->
  exists base ps, has_char "?" base = false /\ tool_path call = with_query base ps.
Proof.
  destruct call; simpl; try discriminate; intros _.
  - eexists _, _. split; [| reflexivity]. reflexivity.
  - eexists _, _. split; [| reflexivity]. reflexivity.
  - eexists _, _. split; [| reflexivity]. reflexivity.
  - eexists _, _. split; [| apply leaderboard_path]. reflexivity.
Qed.

Lemma count_with_query (base : string) (ps : search_params) :
  has_char "?" base = false ->
  count_char "?" (with_query base ps) = (if (length ps =? 0)%nat then 0 else 1)%nat.
Proof.
  intros Hb. unfold with_query. rewrite sp_to_string_truthy, count_char_app, count_char_zero by exact Hb.
  destruct (length ps =? 0)%nat; [reflexivity |].
  transitivity (1 + count_char "?" (join (chr "&") (sp_parts ps)))%nat; [reflexivity |].
  rewrite count_char_join; [reflexivity | reflexivity | apply sp_parts_safe; auto].
Qed.

(* ----------------------------------------------------------------- *)
(** *** [JSON.parse] after [JSON.stringify]: lexical level *)

Definition all_ws (s : string) : bool :=
  (fix go s := match s with EmptyString => true | String c r => is_ws c && go r end) s.

Lemma skip_ws_all_ws (w s : string) : all_ws w = true -> skip_ws (w ++ s) = skip_ws s.
Proof.
  induction w as [| c r IH]; simpl; [reflexivity |].
  intros H. apply andb_true_iff in H as [H1 H2]. rewrite H1. apply IH, H2.
Qed.

Lemma all_ws_app (a b : string) : all_ws a = true -> all_ws b = true -> all_ws (a ++ b) = true.
Proof.
  induction a as [| c r IH]; simpl; [auto |].
  intros H Hb. apply andb_true_iff in H as [H1 H2]. rewrite H1, IH; auto.
Qed.

Lemma skip_ws_head (c : ascii) (r : string) : is_ws c = false -> skip_ws (String c r) = String c r.
Proof. simpl. intros ->. reflexivity. Qed.

Lemma length_app_str (a b : string) : String.length (a ++ b) = (String.length a + String.length b)%nat.
Proof. induction a; simpl; [reflexivity | now rewrite IHa]. Qed.

Lemma substring_all (s : string) : substring 0 (String.length s) s = s.
Proof. induction s; simpl; [reflexivity | now rewrite IHs]. Qed.

Lemma prefix_app (p s : string) : String.prefix p (p ++ s) = true.
Proof.
  induction p as [| c r IH]; simpl; [destruct s; reflexivity |].
  destruct (ascii_dec c c) as [_ | n]; [exact IH | now contradiction n].
Qed.

Lemma strip_prefix_app (p s : string) : strip_prefix p (p ++ s) = Some s.
Proof.
  unfold strip_prefix. rewrite prefix_app, length_app_str. f_equal.
  replace (String.length p + String.length s - String.length p)%nat with (String.length s) by lia.
  induction p as [| c r IH]; simpl; [apply substring_all | exact IH].
Qed.

(** One escaped code unit reads back as itself. *)
Lemma pstr_quote_char (c : ascii) (rest : string) :
  pstr (quote_char c ++ rest) = cons_fst (chr c) (pstr rest).
Proof. destruct c as [[] [] [] [] [] [] [] []]; reflexivity. Qed.

Lemma pstr_quote (s rest : string) :
  pstr (concat_map_str quote_char s ++ String c_quote rest) = Some (s, rest).
Proof.
  induction s as [| c r IH]; [reflexivity |].
  simpl. rewrite append_assoc_str, pstr_quote_char, IH. reflexivity.
Qed.

(** A remainder that cannot extend a number. *)
Definition no_digit_head (s : string) : bool :=
  match s with String c _ => negb (is_digit c) | EmptyString => true end.

Lemma pdigits_uint (u : Decimal.uint) (rest : string) :
  no_digit_head rest = true -> pdigits (uint_str u ++ rest) = (u, rest).
Proof.
  intros Hr. induction u; simpl; try (rewrite IHu; reflexivity).
  destruct rest as [| c r]; [reflexivity |]. simpl in Hr |- *.
  destruct (is_digit c); [discriminate | reflexivity].
Qed.

Lemma nzhead_not_D0 (d x : Decimal.uint) : Decimal.nzhead d <> Decimal.D0 x.
Proof. induction d; simpl; congruence. Qed.

Lemma to_uint_not_D0 (p : positive) (x : Decimal.uint) : Pos.to_uint p <> Decimal.D0 x.
Proof.
  intros E.
  assert (Hn : Pos.to_uint p = Decimal.unorm (Pos.to_uint p)).
  { rewrite <- DecimalPos.Unsigned.to_of, DecimalPos.Unsigned.of_to. reflexivity. }
  rewrite E in Hn. unfold Decimal.unorm in Hn. simpl in Hn.
  destruct (Decimal.nzhead x) eqn:Ex.
  - apply (DecimalPos.Unsigned.to_uint_nonzero p). rewrite E. exact Hn.
  - apply (nzhead_not_D0 x x). congruence.
  - congruence. - congruence. - congruence. - congruence. - congruence.
  - congruence. - congruence. - congruence. - congruence.
Qed.

Lemma pnum_nonneg (c : ascii) (t : string) :
  Ascii.eqb c "-" = false ->
  pnum (String c t)
  = let '(u, rest) := pdigits (String c t) in
    match u with
    | Decimal.Nil => None
    | Decimal.D0 Decimal.Nil => Some (JNum 0, rest)
    | Decimal.D0 _ => None
    | _ => Some (JNum (Z.of_uint u), rest)
    end.
Proof. intros H. unfold pnum. cbv beta iota. rewrite H. reflexivity. Qed.

Lemma pnum_neg (t : string) :
  pnum (String "-" t)
  = let '(u, rest) := pdigits t in
    match u with
    | Decimal.Nil => None
    | Decimal.D0 Decimal.Nil => Some (JNum 0, rest)
    | Decimal.D0 _ => None
    | _ => Some (JNum (- Z.of_uint u), rest)
    end.
Proof. reflexivity. Qed.

Lemma uint_head (u : Decimal.uint) :
  u <> Decimal.Nil -> exists c t, uint_str u = String c t /\ Ascii.eqb c "-" = false /\ is_digit c = true.
Proof. destruct u; simpl; intros H; try congruence; eexists _, _; repeat split. Qed.

(** Reading back [Number::toString] of an integer. *)
Lemma pnum_num_to_string (z : Z) (rest : string) :
  no_digit_head rest = true -> pnum (num_to_string z ++ rest) = Some (JNum z, rest).
Proof.
  intros Hr. unfold num_to_string.
  destruct z as [| p | p]; simpl Z.to_int; cbv iota.
  - change (uint_str Decimal.zero ++ rest) with (String "0" rest).
    rewrite pnum_nonneg by reflexivity.
    change (String "0" rest) with (uint_str Decimal.zero ++ rest).
    rewrite (pdigits_uint _ rest Hr). reflexivity.
  - assert (Hv : Z.of_uint (Pos.to_uint p) = Zpos p)
      by (unfold Z.of_uint; rewrite DecimalPos.Unsigned.of_to; reflexivity).
    pose proof (to_uint_not_D0 p) as HD0. pose proof (DecimalPos.Unsigned.to_uint_nonnil p) as Hnil.
    destruct (uint_head _ Hnil) as (c & t & Hut & Hc & _).
    rewrite Hut. change (String c t ++ rest) with (String c (t ++ rest)).
    rewrite pnum_nonneg by exact Hc.
    change (String c (t ++ rest)) with (String c t ++ rest).
    rewrite <- Hut, (pdigits_uint _ rest Hr).
    destruct (Pos.to_uint p) eqn:E; try congruence; try (exfalso; eapply HD0; reflexivity);
      rewrite <- Hv; reflexivity.
  - assert (Hv : Z.of_uint (Pos.to_uint p) = Zpos p)
      by (unfold Z.of_uint; rewrite DecimalPos.Unsigned.of_to; reflexivity).
    pose proof (to_uint_not_D0 p) as HD0. pose proof (DecimalPos.Unsigned.to_uint_nonnil p) as Hnil.
    change (("-" ++ uint_str (Pos.to_uint p)) ++ rest) with (String "-" (uint_str (Pos.to_uint p) ++ rest)).
    rewrite pnum_neg, (pdigits_uint _ rest Hr).
    destruct (Pos.to_uint p) eqn:E; try congruence; try (exfalso; eapply HD0; reflexivity);
      change (Zneg p) with (- Zpos p)%Z; rewrite <- Hv; reflexivity.
Qed.

(* ----------------------------------------------------------------- *)
(** *** [JSON.parse] after [JSON.stringify]: structure *)

Fixpoint nodup_keys (l : list string) : bool :=
  match l with
  | [] => true
  | k :: l' => negb (existsb (String.eqb k) l') && nodup_keys l'
  end.

(** A value [JSON.parse] can produce: no object has a repeated key. *)
Fixpoint wf_json (v : json) : bool :=
  match v with
  | JArr xs => forallb wf_json xs
  | JObj ps => nodup_keys (map fst ps) && forallb (fun kv => wf_json (snd kv)) ps
  | _ => true
  end.

(** The fuel [pval] needs for a value. *)
Fixpoint jsize (v : json) : nat :=
  match v with
  | JArr xs => S (fold_right (fun x acc => S (jsize x + acc)) 0%nat xs)
  | JObj ps => S (fold_right (fun kv acc => S (jsize (snd kv) + acc)) 0%nat ps)
  | _ => 1%nat
  end.

(** Induction on [json] through its lists. *)
Definition json_ind' (P : json -> Prop)
  (Hnull : P JNull) (Hbool : forall b, P (JBool b)) (Hnum : forall z, P (JNum z))
  (Hstr : forall s, P (JStr s))
  (Harr : forall xs, Forall P xs -> P (JArr xs))
  (Hobj : forall ps, Forall (fun kv => P (snd kv)) ps -> P (JObj ps)) : forall v, P v :=
  fix go v :=
    match v with
    | JNull => Hnull
    | JBool b => Hbool b
    | JNum z => Hnum z
    | JStr s => Hstr s
    | JArr xs => Harr xs ((fix gol (l : list json) : Forall P l :=
                             match l with
                             | [] => Forall_nil _
                             | x :: l' => Forall_cons _ (go x) (gol l')
                             end) xs)
    | JObj ps => Hobj ps ((fix gop (l : list (string * json)) : Forall (fun kv => P (snd kv)) l :=
                             match l with
                             | [] => Forall_nil _
                             | kv :: l' => Forall_cons _ (go (snd kv)) (gop l')
                             end) ps)
    end.

Lemma skip_ws_idem (s : string) : skip_ws (skip_ws s) = skip_ws s.
Proof.
  induction s as [| c r IH]; simpl; [reflexivity |].
  destruct (is_ws c) eqn:E; [exact IH | simpl; now rewrite E].
Qed.

Lemma pval_S (n : nat) (s : string) : pval (S n) s = pval (S n) (skip_ws s).
Proof. simpl. now rewrite skip_ws_idem. Qed.

Lemma pmembers_S (n : nat) (s : string) acc : pmembers (S n) s acc = pmembers (S n) (skip_ws s) acc.
Proof. simpl. now rewrite skip_ws_idem. Qed.

Lemma pelems_S (n : nat) (s : string) acc :
  pelems (S n) s acc
  = match pval n s with
    | None => None
    | Some (v, r) =>
        match skip_ws r with
        | String c r' =>
            if Ascii.eqb c "," then pelems n r' (acc ++ [v])%list
            else if Ascii.eqb c "]" then Some ((acc ++ [v])%list, r')
            else None
        | EmptyString => None
        end
    end.
Proof. reflexivity. Qed.

Lemma pval_ws (n : nat) (w s : string) : all_ws w = true -> pval n (w ++ s) = pval n s.
Proof.
  intros Hw. destruct n as [| n]; [reflexivity |].
  rewrite pval_S, (pval_S n s), skip_ws_all_ws by exact Hw. reflexivity.
Qed.

Lemma pelems_ws (n : nat) (w s : string) acc : all_ws w = true -> pelems n (w ++ s) acc = pelems n s acc.
Proof.
  intros Hw. destruct n as [| n]; [reflexivity |].
  rewrite !pelems_S, pval_ws by exact Hw. reflexivity.
Qed.

Lemma pmembers_ws (n : nat) (w s : string) acc :
  all_ws w = true -> pmembers n (w ++ s) acc = pmembers n s acc.
Proof.
  intros Hw. destruct n as [| n]; [reflexivity |].
  rewrite pmembers_S, (pmembers_S n s), skip_ws_all_ws by exact Hw. reflexivity.
Qed.

Lemma ws_not_digit (c : ascii) : is_ws c = true -> is_digit c = false.
Proof. destruct c as [[] [] [] [] [] [] [] []]; cbv; intros H; first [reflexivity | discriminate H]. Qed.

Lemma no_digit_head_ws (w : string) (c : ascii) (t : string) :
  all_ws w = true -> is_digit c = false -> no_digit_head (w ++ String c t) = true.
Proof.
  destruct w as [| x w]; simpl; intros Hw Hc; [now rewrite Hc |].
  apply andb_true_iff in Hw as [Hx _]. now rewrite ws_not_digit.
Qed.

Lemma quote_app (k x : string) :
  quote k ++ x = String c_quote (concat_map_str quote_char k ++ String c_quote x).
Proof. unfold quote. simpl. now rewrite append_assoc_str. Qed.

Lemma ser_arr_shape (gap ind : string) (x : json) (xs : list json) :
  all_ws gap = true -> all_ws ind = true ->
  exists w1 w2 w3, all_ws w1 = true /\ all_ws w2 = true /\ all_ws w3 = true
    /\ ser gap ind (JArr (x :: xs))
       = "[" ++ w1 ++ join ("," ++ w2) (map (ser gap (ind ++ gap)) (x :: xs)) ++ w3 ++ "]".
Proof.
  intros Hg Hi. destruct gap as [| g gs].
  - exists "", "", "". repeat split.
  - assert (Hig : all_ws (ind ++ String g gs) = true) by (apply all_ws_app; auto).
    exists (String c_nl (ind ++ String g gs)), (String c_nl (ind ++ String g gs)), (String c_nl ind).
    repeat split; first [exact Hig | exact Hi].
Qed.

Lemma ser_obj_shape (gap ind : string) (kv : string * json) (ps : list (string * json)) :
  all_ws gap = true -> all_ws ind = true ->
  exists w1 w2 w3 wc, all_ws w1 = true /\ all_ws w2 = true /\ all_ws w3 = true /\ all_ws wc = true
    /\ ser gap ind (JObj (kv :: ps))
       = "{" ++ w1 ++ join ("," ++ w2)
                  (map (fun kv => quote (fst kv) ++ ":" ++ wc ++ ser gap (ind ++ gap) (snd kv)) (kv :: ps))
         ++ w3 ++ "}".
Proof.
  intros Hg Hi. destruct gap as [| g gs].
  - exists "", "", "", "". repeat split.
  - assert (Hig : all_ws (ind ++ String g gs) = true) by (apply all_ws_app; auto).
    exists (String c_nl (ind ++ String g gs)), (String c_nl (ind ++ String g gs)), (String c_nl ind), " ".
    repeat split; first [exact Hig | exact Hi].
Qed.

Lemma pval_skip (n : nat) (s : string) : pval n (skip_ws s) = pval n s.
Proof. destruct n as [| n]; [reflexivity |]. now rewrite (pval_S n s). Qed.

Lemma pelems_skip (n : nat) (s : string) acc : pelems n (skip_ws s) acc = pelems n s acc.
Proof. destruct n as [| n]; [reflexivity |]. now rewrite !pelems_S, pval_skip. Qed.

Lemma pmembers_skip (n : nat) (s : string) acc : pmembers n (skip_ws s) acc = pmembers n s acc.
Proof. destruct n as [| n]; [reflexivity |]. now rewrite (pmembers_S n s), pmembers_S, skip_ws_idem. Qed.

Lemma pval_arr (n : nat) (r : string) :
  (forall r', skip_ws r <> String "]" r') ->
  pval (S n) (String "[" r)
  = match pelems n (skip_ws r) [] with Some (xs, r') => Some (JArr xs, r') | None => None end.
Proof.
  intros H. simpl pval. destruct (skip_ws r) as [| c r1]; [reflexivity |].
  destruct c as [[] [] [] [] [] [] [] []]; try reflexivity. exfalso. eapply H. reflexivity.
Qed.

Lemma pval_obj (n : nat) (r : string) :
  (forall r', skip_ws r <> String "}" r') ->
  pval (S n) (String "{" r)
  = match pmembers n (skip_ws r) [] with Some (ps, r') => Some (JObj ps, r') | None => None end.
Proof.
  intros H. simpl pval. destruct (skip_ws r) as [| c r1]; [reflexivity |].
  destruct c as [[] [] [] [] [] [] [] []]; try reflexivity. exfalso. eapply H. reflexivity.
Qed.

Lemma pval_not_close (k : nat) (s : string) (v : json) (r : string) :
  pval (S k) s = Some (v, r) -> forall r', skip_ws s <> String "]" r'.
Proof. intros H r' E. rewrite pval_S, E in H. discriminate H. Qed.

Lemma pval_quote (n : nat) (r : string) :
  pval (S n) (String c_quote r) = match pstr r with Some (t, r') => Some (JStr t, r') | None => None end.
Proof. reflexivity. Qed.

Lemma pmembers_quote (n : nat) (r : string) acc :
  pmembers (S n) (String c_quote r) acc
  = match pstr r with
    | None => None
    | Some (k, r1) =>
        match skip_ws r1 with
        | String ":" r2 =>
            match pval n r2 with
            | None => None
            | Some (v, r3) =>
                match skip_ws r3 with
                | String c' r4 =>
                    if Ascii.eqb c' "," then pmembers n r4 (obj_set acc k v)
                    else if Ascii.eqb c' "}" then Some (obj_set acc k v, r4)
                    else None
                | EmptyString => None
                end
            end
        | _ => None
        end
    end.
Proof. reflexivity. Qed.

Lemma pval_pnum (n : nat) (c : ascii) (r : string) :
  c = "-"%char \/ is_digit c = true -> pval (S n) (String c r) = pnum (String c r).
Proof.
  intros [-> | H]; [reflexivity |].
  destruct c as [[] [] [] [] [] [] [] []]; first [discriminate H | reflexivity].
Qed.

Lemma num_to_string_head (z : Z) :
  exists c t, num_to_string z = String c t /\ (c = "-"%char \/ is_digit c = true).
Proof.
  unfold num_to_string. destruct z as [| p | p]; simpl Z.to_int; cbv iota.
  - eexists _, _. split; [reflexivity | right; reflexivity].
  - destruct (uint_head _ (DecimalPos.Unsigned.to_uint_nonnil p)) as (c & t & E & _ & Hd).
    exists c, t. split; [exact E | right; exact Hd].
  - eexists _, _. split; [reflexivity | left; reflexivity].
Qed.

Lemma pval_num (n : nat) (z : Z) (rest : string) :
  no_digit_head rest = true -> pval (S n) (num_to_string z ++ rest) = Some (JNum z, rest).
Proof.
  intros Hr. destruct (num_to_string_head z) as (c & t & E & Hc).
  rewrite E. change (String c t ++ rest) with (String c (t ++ rest)).
  rewrite pval_pnum by exact Hc. change (String c (t ++ rest)) with (String c t ++ rest).
  rewrite <- E. apply pnum_num_to_string, Hr.
Qed.

(** What the round trip proves for one value. *)
Definition rt_prop (v : json) : Prop :=
  forall gap ind n rest, all_ws gap = true -> all_ws ind = true -> wf_json v = true ->
    (jsize v <= n)%nat -> no_digit_head rest = true ->
    pval n (ser gap ind v ++ rest) = Some (v, rest).

Lemma pelems_step_comma (n : nat) (s : string) (v : json) (r0 r1 : string) acc :
  pval n s = Some (v, r0) -> skip_ws r0 = String "," r1 ->
  pelems (S n) s acc = pelems n r1 (acc ++ [v])%list.
Proof. intros H1 H2. rewrite pelems_S, H1, H2. reflexivity. Qed.

Lemma pelems_step_close (n : nat) (s : string) (v : json) (r0 r1 : string) acc :
  pval n s = Some (v, r0) -> skip_ws r0 = String "]" r1 ->
  pelems (S n) s acc = Some ((acc ++ [v])%list, r1).
Proof. intros H1 H2. rewrite pelems_S, H1, H2. reflexivity. Qed.

Lemma pmembers_step_comma (n : nat) (r : string) (k : string) (v : json) (r1 r2 r3 r4 : string) acc :
  pstr r = Some (k, r1) -> skip_ws r1 = String ":" r2 -> pval n r2 = Some (v, r3) ->
  skip_ws r3 = String "," r4 ->
  pmembers (S n) (String c_quote r) acc = pmembers n r4 (obj_set acc k v).
Proof. intros H1 H2 H3 H4. rewrite pmembers_quote, H1, H2, H3, H4. reflexivity. Qed.

Lemma pmembers_step_close (n : nat) (r : string) (k : string) (v : json) (r1 r2 r3 r4 : string) acc :
  pstr r = Some (k, r1) -> skip_ws r1 = String ":" r2 -> pval n r2 = Some (v, r3) ->
  skip_ws r3 = String "}" r4 ->
  pmembers (S n) (String c_quote r) acc = Some (obj_set acc k v, r4).
Proof. intros H1 H2 H3 H4. rewrite pmembers_quote, H1, H2, H3, H4. reflexivity. Qed.

Lemma pelems_ser (gap ind w2 w3 : string) (xs : list json) :
  all_ws gap = true -> all_ws ind = true -> all_ws w2 = true -> all_ws w3 = true ->
  Forall rt_prop xs -> xs <> [] -> forallb wf_json xs = true ->
  forall n acc rest, (fold_right (fun x acc => S (jsize x + acc)) 0%nat xs <= n)%nat ->
    no_digit_head rest = true ->
    pelems n (join ("," ++ w2) (map (ser gap ind) xs) ++ w3 ++ "]" ++ rest) acc
    = Some ((acc ++ xs)%list, rest).
Proof.
  intros Hg Hi H2 H3 HF. induction HF as [| x xs Hx HF IH]; intros Hne Hwf n acc rest Hn Hr;
    [congruence |].
  cbn [forallb] in Hwf. apply andb_true_iff in Hwf as [Hwx Hwxs].
  destruct n as [| n]; [cbn [fold_right] in Hn; lia |]. cbn [fold_right] in Hn.
  destruct xs as [| y ys].
  - cbn [map join].
    erewrite pelems_step_close;
      [reflexivity
      | apply (Hx gap ind n (w3 ++ "]" ++ rest));
        first [assumption | lia | apply no_digit_head_ws; [assumption | reflexivity]]
      | rewrite skip_ws_all_ws by exact H3; reflexivity].
  - change (join ("," ++ w2) (map (ser gap ind) (x :: y :: ys)))
      with (ser gap ind x ++ ("," ++ w2) ++ join ("," ++ w2) (map (ser gap ind) (y :: ys))).
    rewrite !append_assoc_str.
    erewrite pelems_step_comma;
      [| apply (Hx gap ind n); first [assumption | lia | reflexivity] | reflexivity].
    rewrite pelems_ws by exact H2.
    rewrite IH by first [assumption | congruence | cbn [fold_right] in Hn |- *; lia].
    rewrite <- app_assoc. reflexivity.
Qed.

Lemma nodup_keys_app (l1 : list string) (k : string) (l2 : list string) :
  nodup_keys (l1 ++ k :: l2) = true -> existsb (String.eqb k) l1 = false.
Proof.
  induction l1 as [| x l1 IH]; [reflexivity |]. cbn [app nodup_keys existsb].
  intros H. apply andb_true_iff in H as [H1 H2]. rewrite (IH H2), orb_false_r.
  apply negb_true_iff in H1. rewrite existsb_app in H1. cbn [existsb] in H1.
  apply orb_false_iff in H1 as [_ H1]. apply orb_false_iff in H1 as [H1 _].
  now rewrite String.eqb_sym.
Qed.

Lemma obj_set_new {A : Type} (acc : list (string * A)) (k : string) (v : A) :
  existsb (String.eqb k) (map fst acc) = false -> obj_set acc k v = (acc ++ [(k, v)])%list.
Proof.
  induction acc as [| [k' v'] acc IH]; [reflexivity |]. cbn [map existsb fst obj_set].
  intros H. apply orb_false_iff in H as [H1 H2]. rewrite H1, (IH H2). reflexivity.
Qed.

Lemma pmembers_ser (gap ind wc w2 w3 : string) (ps : list (string * json)) :
  all_ws gap = true -> all_ws ind = true -> all_ws wc = true -> all_ws w2 = true -> all_ws w3 = true ->
  Forall (fun kv => rt_prop (snd kv)) ps -> ps <> [] -> forallb (fun kv => wf_json (snd kv)) ps = true ->
  forall n acc rest, nodup_keys (map fst (acc ++ ps)) = true ->
    (fold_right (fun kv acc => S (jsize (snd kv) + acc)) 0%nat ps <= n)%nat ->
    no_digit_head rest = true ->
    pmembers n (join ("," ++ w2) (map (fun kv => quote (fst kv) ++ ":" ++ wc ++ ser gap ind (snd kv)) ps)
                ++ w3 ++ "}" ++ rest) acc
    = Some ((acc ++ ps)%list, rest).
Proof.
  intros Hg Hi Hc H2 H3 HF. induction HF as [| [k v] ps Hx HF IH]; intros Hne Hwf n acc rest Hnd Hn Hr;
    [congruence |].
  cbn [forallb snd] in Hwf. apply andb_true_iff in Hwf as [Hwx Hwps].
  cbn [snd] in Hx.
  destruct n as [| n]; [cbn [fold_right] in Hn; lia |]. cbn [fold_right snd] in Hn.
  assert (Hnew : obj_set acc k v = (acc ++ [(k, v)])%list).
  { apply obj_set_new. rewrite map_app in Hnd. exact (nodup_keys_app _ _ _ Hnd). }
  destruct ps as [| kv2 ps].
  - cbn [map join fst snd]. rewrite !append_assoc_str, quote_app.
    erewrite pmembers_step_close;
      [rewrite Hnew; reflexivity
      | apply pstr_quote
      | reflexivity
      | rewrite pval_ws by exact Hc; apply (Hx gap ind n (w3 ++ "}" ++ rest));
        first [assumption | lia | apply no_digit_head_ws; [assumption | reflexivity]]
      | rewrite skip_ws_all_ws by exact H3; reflexivity].
  - set (f := fun kv : string * json => quote (fst kv) ++ ":" ++ wc ++ ser gap ind (snd kv)).
    change (join ("," ++ w2) (map f ((k, v) :: kv2 :: ps)))
      with (f (k, v) ++ ("," ++ w2) ++ join ("," ++ w2) (map f (kv2 :: ps))).
    unfold f at 1. cbn [fst snd].
    rewrite !append_assoc_str, quote_app.
    erewrite pmembers_step_comma;
      [| apply pstr_quote
       | reflexivity
       | rewrite pval_ws by exact Hc; apply (Hx gap ind n); first [assumption | lia | reflexivity]
       | reflexivity].
    rewrite pmembers_ws by exact H2. rewrite Hnew.
    rewrite IH by first [assumption | congruence | rewrite <- app_assoc; exact Hnd
                        | cbn [fold_right] in Hn |- *; lia].
    rewrite <- app_assoc. reflexivity.
Qed.

Lemma join_head (w2 p : string) (ps : list string) (tail : string) :
  no_digit_head tail = true ->
  exists t, join ("," ++ w2) (p :: ps) ++ tail = p ++ t /\ no_digit_head t = true.
Proof.
  intros Ht. destruct ps as [| q ps].
  - exists tail. split; [reflexivity | exact Ht].
  - exists (("," ++ w2) ++ join ("," ++ w2) (q :: ps) ++ tail). split; [| reflexivity].
    change (join ("," ++ w2) (p :: q :: ps)) with (p ++ ("," ++ w2) ++ join ("," ++ w2) (q :: ps)).
    now rewrite !append_assoc_str.
Qed.

Lemma ser_roundtrip (v : json) : rt_prop v.
Proof.
  induction v using json_ind'; intros gap ind n rest Hg Hi Hw Hn Hr;
    (destruct n as [| n]; [cbn [jsize] in Hn; lia |]).
  - transitivity (option_map (fun r' => (JNull, r')) (strip_prefix "ull" ("ull" ++ rest)));
      [reflexivity | now rewrite strip_prefix_app].
  - destruct b.
    + transitivity (option_map (fun r' => (JBool true, r')) (strip_prefix "rue" ("rue" ++ rest)));
        [reflexivity | now rewrite strip_prefix_app].
    + transitivity (option_map (fun r' => (JBool false, r')) (strip_prefix "alse" ("alse" ++ rest)));
        [reflexivity | now rewrite strip_prefix_app].
  - apply pval_num, Hr.
  - change (ser gap ind (JStr s) ++ rest) with (quote s ++ rest).
    now rewrite quote_app, pval_quote, pstr_quote.
  - destruct xs as [| x xs]; [reflexivity |].
    destruct (ser_arr_shape gap ind x xs Hg Hi) as (w1 & w2 & w3 & H1 & H2 & H3 & E).
    assert (Hgi : all_ws (ind ++ gap) = true) by (apply all_ws_app; assumption).
    cbn [wf_json] in Hw. cbn [jsize fold_right] in Hn.
    rewrite E, !append_assoc_str. change ("[" ++ ?X) with (String "[" X).
    rewrite pval_arr.
    + rewrite pelems_skip, pelems_ws by exact H1.
      rewrite (pelems_ser gap (ind ++ gap) w2 w3 (x :: xs))
        by first [assumption | congruence | cbn [fold_right]; lia].
      reflexivity.
    + rewrite skip_ws_all_ws by exact H1.
      destruct (join_head w2 (ser gap (ind ++ gap) x) (map (ser gap (ind ++ gap)) xs) (w3 ++ "]" ++ rest))
        as (t & Et & Ht); [apply no_digit_head_ws; [exact H3 | reflexivity] |].
      cbn [map]. rewrite Et.
      inversion H as [| ? ? Hx _]; subst.
      cbn [forallb] in Hw. apply andb_true_iff in Hw as [Hwx _].
      destruct n as [| k]; [lia |].
      eapply (pval_not_close k). apply (Hx gap (ind ++ gap)); first [assumption | lia].
  - destruct ps as [| kv ps]; [reflexivity |].
    destruct (ser_obj_shape gap ind kv ps Hg Hi) as (w1 & w2 & w3 & wc & H1 & H2 & H3 & Hc & E).
    assert (Hgi : all_ws (ind ++ gap) = true) by (apply all_ws_app; assumption).
    cbn [wf_json] in Hw. apply andb_true_iff in Hw as [Hnd Hwps].
    cbn [jsize fold_right] in Hn.
    rewrite E, !append_assoc_str. change ("{" ++ ?X) with (String "{" X).
    rewrite pval_obj.
    + rewrite pmembers_skip, pmembers_ws by exact H1.
      rewrite (pmembers_ser gap (ind ++ gap) wc w2 w3 (kv :: ps))
        by first [assumption | congruence | cbn [fold_right]; lia].
      reflexivity.
    + rewrite skip_ws_all_ws by exact H1.
      destruct (join_head w2 (quote (fst kv) ++ ":" ++ wc ++ ser gap (ind ++ gap) (snd kv))
                  (map (fun kv => quote (fst kv) ++ ":" ++ wc ++ ser gap (ind ++ gap) (snd kv)) ps)
                  (w3 ++ "}" ++ rest))
        as (t & Et & _); [apply no_digit_head_ws; [exact H3 | reflexivity] |].
      cbn [map]. rewrite Et, append_assoc_str, quote_app.
      intros r' E'. discriminate E'.
Qed.

Lemma join_len_bound {A : Type} (sep : string) (f : A -> string) (g : A -> nat) (l : list A) :
  (1 <= String.length sep)%nat -> l <> [] -> Forall (fun a => (g a <= String.length (f a))%nat) l ->
  (fold_right (fun a acc => S (g a + acc)) 0%nat l <= S (String.length (join sep (map f l))))%nat.
Proof.
  intros Hs Hne HF. induction HF as [| a l Ha HF IH]; [congruence |].
  destruct l as [| b l].
  - cbn [fold_right map join]. lia.
  - change (join sep (map f (a :: b :: l))) with (f a ++ sep ++ join sep (map f (b :: l))).
    rewrite !length_app_str. cbn [fold_right] in IH |- *.
    specialize (IH ltac:(congruence)). lia.
Qed.

Lemma jsize_ser (v : json) :
  forall gap ind, all_ws gap = true -> all_ws ind = true -> (jsize v <= String.length (ser gap ind v))%nat.
Proof.
  induction v using json_ind'; intros gap ind Hg Hi.
  - cbn. lia.
  - destruct b; cbn; lia.
  - destruct (num_to_string_head z) as (c & t & E & _). cbn [ser jsize]. rewrite E. cbn. lia.
  - cbn [ser jsize]. unfold quote. cbn. lia.
  - destruct xs as [| x xs]; [cbn; lia |].
    destruct (ser_arr_shape gap ind x xs Hg Hi) as (w1 & w2 & w3 & H1 & H2 & H3 & E).
    rewrite E, !length_app_str. cbn [jsize].
    assert (Hb : (fold_right (fun x acc => S (jsize x + acc)) 0%nat (x :: xs)
                  <= S (String.length (join ("," ++ w2) (map (ser gap (ind ++ gap)) (x :: xs)))))%nat).
    { apply join_len_bound; [cbn; lia | congruence |].
      assert (Hgi : all_ws (ind ++ gap) = true) by (apply all_ws_app; assumption).
      clear E. induction H as [| y ys Hy _ IHys]; constructor; [apply Hy; assumption | exact IHys]. }
    cbn [String.length] in *. lia.
  - destruct ps as [| kv ps]; [cbn; lia |].
    destruct (ser_obj_shape gap ind kv ps Hg Hi) as (w1 & w2 & w3 & wc & H1 & H2 & H3 & Hc & E).
    rewrite E, !length_app_str. cbn [jsize].
    assert (Hb : (fold_right (fun kv acc => S (jsize (snd kv) + acc)) 0%nat (kv :: ps)
                  <= S (String.length (join ("," ++ w2)
                        (map (fun kv => quote (fst kv) ++ ":" ++ wc ++ ser gap (ind ++ gap) (snd kv))
                             (kv :: ps)))))%nat).
    { apply (join_len_bound _ _ (fun kv => jsize (snd kv))); [cbn; lia | congruence |].
      assert (Hgi : all_ws (ind ++ gap) = true) by (apply all_ws_app; assumption).
      clear E. induction H as [| y ys Hy _ IHys]; constructor; [| exact IHys].
      rewrite !length_app_str. specialize (Hy gap (ind ++ gap) Hg Hgi). lia. }
    cbn [String.length] in *. lia.
Qed.

(* ================================================================= *)
(** ** Lemmas: the values of [res.json()] *)

Section DoubleLemmas.
Local Open Scope Z_scope.

Lemma pow2_le_ratio_iff (t p q c : Z) : 0 <= c -> 0 <= t + c ->
  pow2_le_ratio t p q = true <-> q * 2 ^ (t + c) <= p * 2 ^ c.
Proof.
  intros Hc Htc. unfold pow2_le_ratio. rewrite Z.leb_le.
  set (d := c - Z.max 0 (- t)).
  assert (Hd : 0 <= d) by (unfold d; lia).
  replace (t + c) with (Z.max 0 t + d) by (unfold d; lia).
  replace (p * 2 ^ c) with (p * 2 ^ (Z.max 0 (- t) + d)) by (f_equal; f_equal; unfold d; lia).
  rewrite !Z.pow_add_r by lia. rewrite !Z.mul_assoc.
  assert (0 < 2 ^ d) by (apply Z.pow_pos_nonneg; lia).
  split; intros H1.
  - apply Z.mul_le_mono_nonneg_r; lia.
  - apply Z.mul_le_mono_pos_r in H1; lia.
Qed.

Lemma pow2_le_ratio_mono (t1 t2 p q : Z) : 0 < p -> 0 < q -> t1 <= t2 ->
  pow2_le_ratio t2 p q = true -> pow2_le_ratio t1 p q = true.
Proof.
  intros Hp Hq Ht H.
  set (c := Z.abs t1 + Z.abs t2).
  rewrite (pow2_le_ratio_iff t2 p q c) in H by (unfold c; lia).
  apply (pow2_le_ratio_iff t1 p q c); [unfold c; lia | unfold c; lia |].
  eapply Z.le_trans; [| exact H].
  apply Z.mul_le_mono_nonneg_l; [lia |]. apply Z.pow_le_mono_r; lia.
Qed.

Lemma flog2_spec (p q : Z) : 0 < p -> 0 < q ->
  pow2_le_ratio (flog2 p q) p q = true /\ pow2_le_ratio (flog2 p q + 1) p q = false.
Proof.
  intros Hp Hq.
  destruct (Z.log2_spec p Hp) as [Hp1 Hp2]. destruct (Z.log2_spec q Hq) as [Hq1 Hq2].
  assert (Ha := Z.log2_nonneg p). assert (Hb := Z.log2_nonneg q).
  set (a := Z.log2 p) in *. set (b := Z.log2 q) in *.
  assert (E1 : 2 ^ Z.succ a = 2 ^ a * 2) by (rewrite Z.pow_succ_r; lia).
  assert (E2 : 2 ^ Z.succ b = 2 ^ b * 2) by (rewrite Z.pow_succ_r; lia).
  assert (Pa : 0 < 2 ^ a) by (apply Z.pow_pos_nonneg; lia).
  assert (Pb : 0 < 2 ^ b) by (apply Z.pow_pos_nonneg; lia).
  unfold flog2. cbv zeta. fold a b.
  destruct (pow2_le_ratio (a - b) p q) eqn:E.
  - split; [exact E |].
    destruct (pow2_le_ratio (a - b + 1) p q) eqn:E'; [| reflexivity].
    rewrite (pow2_le_ratio_iff _ _ _ (b + 1)) in E' by lia.
    replace (a - b + 1 + (b + 1)) with (a + 2) in E' by lia.
    rewrite !Z.pow_add_r in E' by lia. change (2 ^ 2) with 4 in E'. change (2 ^ 1) with 2 in E'.
    nia.
  - split.
    + apply (pow2_le_ratio_iff _ _ _ (b + 1)); [lia | lia |].
      replace (a - b - 1 + (b + 1)) with a by lia.
      rewrite Z.pow_add_r by lia. change (2 ^ 1) with 2. nia.
    + now replace (a - b - 1 + 1) with (a - b) by lia.
Qed.

Lemma flog2_unique (p q t : Z) : 0 < p -> 0 < q ->
  pow2_le_ratio t p q = true -> pow2_le_ratio (t + 1) p q = false -> flog2 p q = t.
Proof.
  intros Hp Hq H1 H2. destruct (flog2_spec p q Hp Hq) as [F1 F2].
  destruct (Z.lt_trichotomy (flog2 p q) t) as [Hlt | [Heq | Hgt]]; [| exact Heq |].
  - exfalso. rewrite (pow2_le_ratio_mono (flog2 p q + 1) t p q) in F2 by (auto; lia). discriminate.
  - exfalso. rewrite (pow2_le_ratio_mono (t + 1) (flog2 p q) p q) in H2 by (auto; lia). discriminate.
Qed.

Lemma digits2_pos_log2 (m : positive) : Zpos (digits2_pos m) = Z.log2 (Zpos m) + 1.
Proof.
  induction m as [m IH | m IH |]; [| | reflexivity]; cbn [digits2_pos];
    rewrite Pos2Z.inj_succ, IH.
  - change (Zpos m~1) with (2 * Zpos m + 1). rewrite Z.log2_succ_double by lia. lia.
  - change (Zpos m~0) with (2 * Zpos m). rewrite Z.log2_double by lia. lia.
Qed.

(** What [bounded] says about a significand and an exponent. *)
Lemma bounded_iff (m : positive) (e : Z) :
  bounded 53 1024 m e = true <->
  e <= 971 /\ Z.max (Z.log2 (Zpos m) + 1 + e - 53) (-1074) = e.
Proof.
  unfold bounded, canonical_mantissa, fexp, emin.
  rewrite andb_true_iff, Z.eqb_eq, Z.leb_le, digits2_pos_log2.
  replace (3 - 1024 - 53) with (-1074) by reflexivity.
  replace (Z.log2 (Zpos m) + 1 + e - 53) with (Z.log2 (Zpos m) + 1 + e - 53) by reflexivity.
  split; intros [H1 H2]; split; lia.
Qed.

Lemma round_ratio_exact (neg : bool) (p q : Z) (m : positive) (e : Z) :
  0 < q -> p * 2 ^ Z.max 0 (- e) = q * Zpos m * 2 ^ Z.max 0 e ->
  bounded 53 1024 m e = true ->
  round_ratio neg p q = S754_finite neg m e.
Proof.
  intros Hq Heq Hb. apply bounded_iff in Hb as [Hb1 Hb2].
  assert (P1 : 0 < 2 ^ Z.max 0 (- e)) by (apply Z.pow_pos_nonneg; lia).
  assert (P2 : 0 < 2 ^ Z.max 0 e) by (apply Z.pow_pos_nonneg; lia).
  assert (Hp : 0 < p) by nia.
  destruct (Z.log2_spec (Zpos m) eq_refl) as [Hm1 Hm2].
  assert (Hl := Z.log2_nonneg (Zpos m)). set (l := Z.log2 (Zpos m)) in *.
  assert (Pl : 0 < 2 ^ l) by (apply Z.pow_pos_nonneg; lia).
  assert (Hf : flog2 p q = l + e).
  { apply flog2_unique; [exact Hp | exact Hq | |].
    - apply (pow2_le_ratio_iff _ _ _ (Z.max 0 (- e))); [lia | lia |].
      rewrite Heq. replace (l + e + Z.max 0 (- e)) with (l + Z.max 0 e) by lia.
      rewrite Z.pow_add_r by lia. nia.
    - destruct (pow2_le_ratio (l + e + 1) p q) eqn:E; [| reflexivity].
      rewrite (pow2_le_ratio_iff _ _ _ (Z.max 0 (- e))) in E by lia.
      rewrite Heq in E. replace (l + e + 1 + Z.max 0 (- e)) with (Z.succ l + Z.max 0 e) in E by lia.
      rewrite Z.pow_add_r in E by lia. nia. }
  unfold round_ratio. rewrite Hf.
  replace (Z.max (l + e - 52) (-1074)) with e by lia.
  rewrite Heq.
  replace (q * Zpos m * 2 ^ Z.max 0 e) with (Zpos m * (q * 2 ^ Z.max 0 e)) by ring.
  rewrite Z.div_mul, Z.mod_mul by lia.
  assert (Hm53 : Zpos m < 2 ^ 53).
  { eapply Z.lt_le_trans; [exact Hm2 | apply Z.pow_le_mono_r; lia]. }
  replace (2 * 0 <? q * 2 ^ Z.max 0 e) with true by (symmetry; apply Z.ltb_lt; nia).
  replace (Zpos m =? 2 ^ 53) with false by (symmetry; apply Z.eqb_neq; lia).
  replace (Zpos m =? 0) with false by reflexivity.
  replace (971 <? e) with false by (symmetry; apply Z.ltb_ge; lia).
  reflexivity.
Qed.


Lemma round_ratio_valid (neg : bool) (p q : Z) (neg' : bool) (m : positive) (e : Z) :
  0 < p -> 0 < q -> round_ratio neg p q = S754_finite neg' m e -> neg' = neg /\ bounded 53 1024 m e = true.
Proof.
  intros Hp Hq H. destruct (flog2_spec p q Hp Hq) as [F1 F2].
  unfold round_ratio in H.
  set (f := flog2 p q) in *.
  set (e0 := Z.max (f - 52) (-1074)) in *.
  assert (He0 : e0 = Z.max (f - 52) (-1074)) by reflexivity.
  set (num := p * 2 ^ Z.max 0 (- e0)) in *.
  set (den := q * 2 ^ Z.max 0 e0) in *.
  assert (P1 : 0 < 2 ^ Z.max 0 (- e0)) by (apply Z.pow_pos_nonneg; lia).
  assert (P2 : 0 < 2 ^ Z.max 0 e0) by (apply Z.pow_pos_nonneg; lia).
  assert (Hden : 0 < den) by (unfold den; nia).
  (* n < 2 ^ 53 *)
  assert (Hup : num < 2 ^ 53 * den).
  { destruct (pow2_le_ratio (e0 + 53) p q) eqn:E.
    - exfalso. rewrite (pow2_le_ratio_mono (f + 1) (e0 + 53) p q) in F2 by (auto; lia). discriminate.
    - rewrite <- not_true_iff_false in E.
      rewrite (pow2_le_ratio_iff _ _ _ (Z.max 0 (- e0))) in E by lia.
      replace (e0 + 53 + Z.max 0 (- e0)) with (53 + Z.max 0 e0) in E by lia.
      rewrite Z.pow_add_r in E by lia. unfold num, den. nia. }
  assert (Hn : num / den < 2 ^ 53) by (apply Z.div_lt_upper_bound; lia).
  assert (Hn0 : 0 <= num / den) by (apply Z.div_pos; [unfold num; nia | lia]).
  (* in the normal range, n >= 2 ^ 52 *)
  assert (Hlo : f - 52 >= -1074 -> 2 ^ 52 <= num / den).
  { intros Hf. apply Z.div_le_lower_bound; [lia |].
    rewrite (pow2_le_ratio_iff _ _ _ (Z.max 0 (- e0))) in F1 by lia.
    replace (f + Z.max 0 (- e0)) with (52 + Z.max 0 e0) in F1 by lia.
    rewrite Z.pow_add_r in F1 by lia. unfold num, den. nia. }
  set (n := num / den) in *. set (r := num mod den) in *.
  assert (Hr : 0 <= r < den) by (apply Z.mod_pos_bound; lia).
  set (n' := if 2 * r <? den then n else if den <? 2 * r then n + 1 else if Z.even n then n else n + 1) in *.
  assert (Hn' : n <= n' <= n + 1) by (unfold n'; destruct (2 * r <? den), (den <? 2 * r), (Z.even n); lia).
  destruct (n' =? 2 ^ 53) eqn:E53.
  - apply Z.eqb_eq in E53.
    destruct (2 ^ 52 =? 0) eqn:Ez; [discriminate |].
    destruct (971 <? e0 + 1) eqn:Eb; [discriminate |].
    injection H as <- <- <-. split; [reflexivity |].
    apply bounded_iff. apply Z.ltb_ge in Eb. split; [lia |].
    change (Z.log2 4503599627370496) with 52. lia.
  - apply Z.eqb_neq in E53.
    destruct (n' =? 0) eqn:Ez; [discriminate |]. apply Z.eqb_neq in Ez.
    destruct (971 <? e0) eqn:Eb; [discriminate |]. apply Z.ltb_ge in Eb.
    injection H as <- <- <-. split; [reflexivity |].
    apply bounded_iff. rewrite Z2Pos.id by lia. split; [lia |].
    assert (Hl : Z.log2 n' <= 52).
    { apply Z.lt_succ_r. apply Z.log2_lt_pow2; lia. }
    destruct (Z.le_gt_cases (-1074) (f - 52)) as [Hf | Hf].
    + assert (Hl' : 52 <= Z.log2 n').
      { change 52 with (Z.log2 (2 ^ 52)). apply Z.log2_le_mono. specialize (Hlo ltac:(lia)). lia. }
      lia.
    + lia.
Qed.

(** What the parser can produce as a number: a finite double is in
    canonical form. *)
Definition num_ok (x : spec_float) : bool :=
  match x with S754_finite _ m e => bounded 53 1024 m e | _ => true end.

Lemma round_ratio_ok (neg : bool) (p q : Z) : 0 < p -> 0 < q -> num_ok (round_ratio neg p q) = true.
Proof.
  intros Hp Hq. destruct (round_ratio neg p q) as [| | | s m e] eqn:E; try reflexivity.
  exact (proj2 (round_ratio_valid neg p q s m e Hp Hq E)).
Qed.

Lemma decimal_to_double_ok (neg : bool) (M X : Z) : 0 <= M -> num_ok (decimal_to_double neg M X) = true.
Proof.
  intros HM. unfold decimal_to_double.
  destruct (M =? 0) eqn:E0; [reflexivity |]. apply Z.eqb_neq in E0.
  destruct (0 <=? X) eqn:EX.
  - apply Z.leb_le in EX. apply round_ratio_ok; [| lia].
    assert (0 < 10 ^ X) by (apply Z.pow_pos_nonneg; lia). nia.
  - apply round_ratio_ok; [lia |]. apply Z.pow_pos_nonneg; lia.
Qed.

(** The sign only reaches the constructors. *)
Definition with_sign (neg : bool) (x : spec_float) : spec_float :=
  match x with
  | S754_zero _ => S754_zero neg
  | S754_infinity _ => S754_infinity neg
  | S754_finite _ m e => S754_finite neg m e
  | S754_nan => S754_nan
  end.

Lemma round_ratio_sign (neg : bool) (p q : Z) : round_ratio neg p q = with_sign neg (round_ratio false p q).
Proof.
  unfold round_ratio. cbv zeta.
  destruct (if _ =? 2 ^ 53 then _ else _) as [m e'].
  destruct (m =? 0); [reflexivity |]. destruct (971 <? e'); reflexivity.
Qed.

Lemma decimal_to_double_sign (neg : bool) (M X : Z) :
  decimal_to_double neg M X = with_sign neg (decimal_to_double false M X).
Proof.
  unfold decimal_to_double. destruct (M =? 0); [reflexivity |].
  destruct (0 <=? X); apply round_ratio_sign.
Qed.

(** A decimal equal to a double in canonical form reads as that double. *)
Lemma decimal_to_double_exact (neg : bool) (M X : Z) (m : positive) (e : Z) :
  0 < M -> M * 10 ^ Z.max 0 X * 2 ^ Z.max 0 (- e) = Zpos m * 2 ^ Z.max 0 e * 10 ^ Z.max 0 (- X) ->
  bounded 53 1024 m e = true ->
  decimal_to_double neg M X = S754_finite neg m e.
Proof.
  intros HM Heq Hb. unfold decimal_to_double.
  replace (M =? 0) with false by (symmetry; apply Z.eqb_neq; lia).
  destruct (0 <=? X) eqn:EX.
  - apply Z.leb_le in EX. apply round_ratio_exact; [lia | | exact Hb].
    replace (Z.max 0 X) with X in Heq by lia. replace (Z.max 0 (- X)) with 0 in Heq by lia.
    rewrite Heq. ring.
  - apply Z.leb_gt in EX. apply round_ratio_exact; [apply Z.pow_pos_nonneg; lia | | exact Hb].
    replace (Z.max 0 X) with 0 in Heq by lia. replace (Z.max 0 (- X)) with (- X) in Heq by lia.
    rewrite Z.pow_0_r, Z.mul_1_r in Heq. rewrite Heq. ring.
Qed.

End DoubleLemmas.

Section Digits.
Local Open Scope Z_scope.

Lemma digit_char_nat (d : Z) : 0 <= d < 10 -> nat_of_ascii (digit_char d) = (48 + Z.to_nat d)%nat.
Proof. intros H. unfold digit_char. apply nat_ascii_embedding. lia. Qed.

Lemma digit_char_digit (d : Z) : 0 <= d < 10 -> is_digit (digit_char d) = true.
Proof.
  intros H. unfold is_digit. rewrite digit_char_nat by exact H.
  apply andb_true_iff; split; apply Nat.leb_le; lia.
Qed.

Lemma digit_char_value (d : Z) : 0 <= d < 10 -> Z.of_nat (nat_of_ascii (digit_char d)) - 48 = d.
Proof. intros H. rewrite digit_char_nat by exact H. lia. Qed.

Lemma digit_char_not_zero (d : Z) : 1 <= d < 10 -> Ascii.eqb (digit_char d) "0" = false.
Proof.
  intros H. apply Ascii.eqb_neq. intros E.
  assert (E' := f_equal nat_of_ascii E). rewrite digit_char_nat in E' by lia.
  change (nat_of_ascii "0") with 48%nat in E'. lia.
Qed.

Lemma length_dec_str (k : nat) (s : Z) : String.length (dec_str k s) = k.
Proof.
  revert s. induction k as [| k IH]; intros s; [reflexivity |].
  cbn [dec_str]. rewrite length_app_str, IH. unfold chr. cbn [String.length]. lia.
Qed.

Lemma all_digits_app (a b : string) : all_digits (a ++ b) = all_digits a && all_digits b.
Proof. induction a as [| c r IH]; simpl; [reflexivity |]. rewrite IH. apply andb_assoc. Qed.

Lemma all_digits_dec_str (k : nat) (s : Z) : all_digits (dec_str k s) = true.
Proof.
  revert s. induction k as [| k IH]; intros s; [reflexivity |].
  cbn [dec_str]. rewrite all_digits_app, IH. unfold chr. cbn [all_digits].
  rewrite digit_char_digit by (apply Z.mod_pos_bound; lia). reflexivity.
Qed.

Lemma all_digits_zeros (n : nat) : all_digits (zeros n) = true.
Proof. induction n as [| n IH]; [reflexivity | exact IH]. Qed.

Lemma digits_value_acc_app (acc : Z) (a b : string) :
  digits_value_acc acc (a ++ b) = digits_value_acc (digits_value_acc acc a) b.
Proof. revert acc. induction a as [| c r IH]; intros acc; [reflexivity | apply IH]. Qed.

Lemma digits_value_acc_dec_str (k : nat) (acc s : Z) :
  digits_value_acc acc (dec_str k s) = acc * 10 ^ Z.of_nat k + s mod 10 ^ Z.of_nat k.
Proof.
  revert acc s. induction k as [| k IH]; intros acc s.
  - cbn [dec_str digits_value_acc]. change (Z.of_nat 0) with 0. rewrite Z.pow_0_r, Z.mod_1_r. ring.
  - cbn [dec_str]. rewrite digits_value_acc_app, IH. unfold chr. cbn [digits_value_acc].
    rewrite digit_char_value by (apply Z.mod_pos_bound; lia).
    rewrite Nat2Z.inj_succ, Z.pow_succ_r by lia.
    replace (10 ^ Z.of_nat k * 10) with (10 * 10 ^ Z.of_nat k) by ring.
    rewrite Z.rem_mul_r by (try apply Z.pow_pos_nonneg; lia). ring.
Qed.

Lemma digits_value_acc_zeros (n : nat) (acc : Z) :
  digits_value_acc acc (zeros n) = acc * 10 ^ Z.of_nat n.
Proof.
  revert acc. induction n as [| n IH]; intros acc; [cbn [zeros digits_value_acc]; change (Z.of_nat 0) with 0; ring |].
  cbn [zeros digits_value_acc]. rewrite IH. change (Z.of_nat (nat_of_ascii "0")) with 48.
  rewrite Nat2Z.inj_succ, Z.pow_succ_r by lia. ring.
Qed.

Lemma digits_value_acc_nonneg (acc : Z) (s : string) :
  0 <= acc -> all_digits s = true -> 0 <= digits_value_acc acc s.
Proof.
  revert acc. induction s as [| c r IH]; intros acc Ha Hs; [exact Ha |].
  cbn [all_digits] in Hs. apply andb_true_iff in Hs as [Hc Hr].
  cbn [digits_value_acc]. apply IH; [| exact Hr].
  unfold is_digit in Hc. apply andb_true_iff in Hc as [Hc _]. apply Nat.leb_le in Hc. lia.
Qed.

(** The most significant digit comes first. *)
Lemma dec_str_cons (k : nat) (s : Z) :
  dec_str (S k) s = String (digit_char ((s / 10 ^ Z.of_nat k) mod 10)) (dec_str k s).
Proof.
  revert s. induction k as [| k IH]; intros s.
  - cbn [dec_str]. change (Z.of_nat 0) with 0. rewrite Z.pow_0_r, Z.div_1_r. reflexivity.
  - change (dec_str (S (S k)) s) with (dec_str (S k) (s / 10) ++ chr (digit_char (s mod 10))).
    rewrite IH. cbn [append]. f_equal.
    + rewrite Z.div_div by (try apply Z.pow_pos_nonneg; lia).
      rewrite Nat2Z.inj_succ, Z.pow_succ_r by lia. reflexivity.
Qed.

Lemma dec_str_head (k : nat) (s : Z) :
  (1 <= k)%nat -> 10 ^ (Z.of_nat k - 1) <= s < 10 ^ Z.of_nat k ->
  exists c t, dec_str k s = String c t /\ is_digit c = true /\ Ascii.eqb c "0" = false.
Proof.
  intros Hk Hs. destruct k as [| k]; [lia |].
  rewrite dec_str_cons. eexists _, _. split; [reflexivity |].
  replace (Z.of_nat (S k) - 1) with (Z.of_nat k) in Hs by lia.
  rewrite Nat2Z.inj_succ, Z.pow_succ_r in Hs by lia.
  assert (P : 0 < 10 ^ Z.of_nat k) by (apply Z.pow_pos_nonneg; lia).
  assert (Hq : 1 <= s / 10 ^ Z.of_nat k < 10).
  { split; [apply Z.div_le_lower_bound; lia | apply Z.div_lt_upper_bound; lia]. }
  rewrite Z.mod_small by lia.
  split; [apply digit_char_digit; lia | apply digit_char_not_zero; lia].
Qed.

Lemma dlen_fuel_spec (f : nat) (s : Z) :
  0 <= s -> Z.log2 s < Z.of_nat f ->
  (1 <= dlen_fuel f s)%nat /\ s < 10 ^ Z.of_nat (dlen_fuel f s)
  /\ (1 <= s -> 10 ^ (Z.of_nat (dlen_fuel f s) - 1) <= s).
Proof.
  revert s. induction f as [| f IH]; intros s Hs Hl.
  - pose proof (Z.log2_nonneg s). lia.
  - cbn [dlen_fuel]. destruct (s <? 10) eqn:E.
    + apply Z.ltb_lt in E. change (Z.of_nat 1) with 1. lia.
    + apply Z.ltb_ge in E.
      assert (Hq : 1 <= s / 10) by (apply Z.div_le_lower_bound; lia).
      assert (Hl' : Z.log2 (s / 10) < Z.of_nat f).
      { assert (H2 : Z.log2 (2 * (s / 10)) <= Z.log2 s)
          by (apply Z.log2_le_mono; pose proof (Z.mul_div_le s 10); lia).
        rewrite Z.log2_double in H2 by lia. lia. }
      destruct (IH (s / 10) ltac:(lia) Hl') as (H1 & H2 & H3).
      specialize (H3 Hq).
      set (d := dlen_fuel f (s / 10)) in *.
      rewrite Nat2Z.inj_succ. split; [lia |]. split.
      * rewrite Z.pow_succ_r by lia. pose proof (Z.mod_pos_bound s 10 ltac:(lia)).
        rewrite (Z.div_mod s 10) at 1 by lia. lia.
      * intros _. replace (Z.succ (Z.of_nat d) - 1) with (Z.of_nat d) by lia.
        replace (Z.of_nat d) with (Z.succ (Z.of_nat d - 1)) by lia.
        rewrite Z.pow_succ_r by lia. pose proof (Z.mul_div_le s 10). lia.
Qed.

Lemma dlen_spec (s : Z) :
  0 <= s -> (1 <= dlen s)%nat /\ s < 10 ^ Z.of_nat (dlen s) /\ (1 <= s -> 10 ^ (Z.of_nat (dlen s) - 1) <= s).
Proof.
  intros Hs. unfold dlen. apply dlen_fuel_spec; [exact Hs |].
  pose proof (Z.log2_nonneg s). lia.
Qed.

End Digits.

Section Shortest.
Local Open Scope Z_scope.

Lemma float_eqb_eq (x y : spec_float) : float_eqb x y = true -> x = y.
Proof.
  destruct x, y; cbn; try discriminate; intros H;
    repeat match goal with
           | H : _ && _ = true |- _ => apply andb_true_iff in H as [? ?]
           | H : Bool.eqb _ _ = true |- _ => apply eqb_prop in H
           | H : Pos.eqb _ _ = true |- _ => apply Pos.eqb_eq in H
           | H : Z.eqb _ _ = true |- _ => apply Z.eqb_eq in H
           end; subst; reflexivity.
Qed.

Lemma choose_fold_in {A : Type} (better : A -> A -> bool) (cs : list A) (acc : option A) (c : A) :
  fold_left (fun acc c => match acc with
                          | None => Some c
                          | Some c0 => if better c c0 then Some c else Some c0
                          end) cs acc = Some c -> acc = Some c \/ In c cs.
Proof.
  revert acc. induction cs as [| c1 cs IH]; intros acc H; [left; exact H |].
  cbn [fold_left] in H. apply IH in H as [H | H]; [| right; right; exact H].
  destruct acc as [c0 |]; [destruct (better c1 c0) |]; injection H as <-;
    first [right; left; reflexivity | left; reflexivity].
Qed.

Lemma choose_in (sd X nx k : Z) (cs : list (Z * Z)) (c : Z * Z) :
  choose sd X nx k cs = Some c -> In c cs.
Proof. unfold choose. intros H. apply choose_fold_in in H as [H | H]; [discriminate | exact H]. Qed.

Lemma shortest_from_spec (x : spec_float) (sd X nx : Z) (fuel : nat) (k s k' n : Z) :
  shortest_from x sd X nx fuel k = Some (s, k', n) ->
  k <= k' /\ 10 ^ (k' - 1) <= s < 10 ^ k' /\ decimal_to_double false s (n - k') = x.
Proof.
  revert k. induction fuel as [| fuel IH]; intros k H; [discriminate |].
  cbn [shortest_from] in H.
  destruct (choose sd X nx k (candidates x sd X nx k)) as [[s0 n0] |] eqn:E.
  - injection H as <- <- <-. apply choose_in in E. unfold candidates in E.
    apply filter_In in E as [_ E]. cbv beta iota in E.
    apply andb_true_iff in E as [E E3]. apply andb_true_iff in E as [E1 E2].
    apply Z.leb_le in E1. apply Z.ltb_lt in E2. apply float_eqb_eq in E3.
    split; [lia | split; [lia | exact E3]].
  - apply IH in H as (H1 & H2). split; [lia | exact H2].
Qed.

(** The decimal [S * 10 ^ X] of [exact_decimal] is the double's value. *)
Lemma exact_decimal_spec (m : positive) (e : Z) :
  let '(sd, X) := exact_decimal m e in
  0 < sd /\ sd * 10 ^ Z.max 0 X * 2 ^ Z.max 0 (- e) = Zpos m * 2 ^ Z.max 0 e * 10 ^ Z.max 0 (- X).
Proof.
  unfold exact_decimal. destruct (0 <=? e) eqn:E.
  - apply Z.leb_le in E. split.
    + assert (0 < 2 ^ e) by (apply Z.pow_pos_nonneg; lia). lia.
    + replace (Z.max 0 e) with e by lia. replace (Z.max 0 (- e)) with 0 by lia.
      change (Z.max 0 0) with 0. rewrite !Z.pow_0_r. ring.
  - apply Z.leb_gt in E. split.
    + assert (0 < 5 ^ (- e)) by (apply Z.pow_pos_nonneg; lia). lia.
    + replace (Z.max 0 e) with 0 by lia. replace (Z.max 0 (- e)) with (- e) by lia.
      rewrite !Z.pow_0_r.
      replace (10 ^ (- e)) with (5 ^ (- e) * 2 ^ (- e)) by (rewrite <- Z.pow_mul_l; reflexivity). ring.
Qed.

(** Step 5 of [Number::toString] finds digits [s] ([k] of them) and a
    position [n] whose decimal reads back as the double. *)
Lemma shortest_spec (m : positive) (e : Z) :
  bounded 53 1024 m e = true ->
  let '(s, k, n) := shortest m e in
  1 <= k /\ 10 ^ (k - 1) <= s < 10 ^ k /\ decimal_to_double false s (n - k) = S754_finite false m e.
Proof.
  intros Hb. unfold shortest.
  pose proof (exact_decimal_spec m e) as Hx. destruct (exact_decimal m e) as [sd X].
  destruct Hx as [Hsd Heq].
  destruct (shortest_from _ sd X _ _ 1) as [[[s k] n] |] eqn:E.
  - apply shortest_from_spec in E as (H1 & H2 & H3). split; [lia | split; assumption].
  - destruct (dlen_spec sd ltac:(lia)) as (D1 & D2 & D3).
    split; [lia | split; [split; [apply D3; lia | exact D2] |]].
    replace (Z.of_nat (dlen sd) + X - Z.of_nat (dlen sd)) with X by lia.
    apply decimal_to_double_exact; assumption.
Qed.

End Shortest.

(** A remainder that cannot extend a number. *)
Definition no_num_head (s : string) : bool :=
  match s with
  | String c _ => negb (is_digit c) && negb (Ascii.eqb c ".") && negb (Ascii.eqb c "e") && negb (Ascii.eqb c "E")
  | EmptyString => true
  end.

Section NumberText.
Local Open Scope Z_scope.

Lemma span_digits_app (a b : string) :
  all_digits a = true -> no_digit_head b = true -> span_digits (a ++ b) = (a, b).
Proof.
  intros Ha Hb. induction a as [| c r IH].
  - destruct b as [| c r]; [reflexivity |]. cbn in Hb |- *.
    destruct (is_digit c); [discriminate | reflexivity].
  - cbn [all_digits] in Ha. apply andb_true_iff in Ha as [Hc Hr].
    cbn [append span_digits]. rewrite Hc, (IH Hr). reflexivity.
Qed.

Lemma leading_zero_nz (c : ascii) (t : string) : Ascii.eqb c "0" = false -> leading_zero (String c t) = false.
Proof. destruct c as [[] [] [] [] [] [] [] []]; intros H; first [reflexivity | discriminate H]. Qed.

Lemma digit_not_minus (c : ascii) : is_digit c = true -> Ascii.eqb c "-" = false.
Proof. destruct c as [[] [] [] [] [] [] [] []]; intros H; first [reflexivity | discriminate H]. Qed.

Lemma pnumber_split (neg : bool) (di fr ex rest df : string) (E : Z) :
  all_digits di = true -> di <> "" -> leading_zero di = false ->
  no_digit_head (fr ++ ex ++ rest) = true ->
  lex_frac (fr ++ ex ++ rest) = Some (df, ex ++ rest) ->
  lex_exp (ex ++ rest) = Some (E, rest) ->
  pnumber ((if neg then "-" else "") ++ di ++ fr ++ ex ++ rest)
  = Some (decimal_to_double neg (digits_value (di ++ df)) (E - Z.of_nat (String.length df)), rest).
Proof.
  intros Hd Hne Hlz Hh Hf He. unfold pnumber.
  assert (Hs : lex_sign ((if neg then "-" else "") ++ di ++ fr ++ ex ++ rest) = (neg, di ++ fr ++ ex ++ rest)).
  { destruct neg; [reflexivity |]. destruct di as [| c t]; [congruence |].
    cbn [all_digits] in Hd. apply andb_true_iff in Hd as [Hc _].
    cbn. rewrite (digit_not_minus c Hc). reflexivity. }
  rewrite Hs. cbv beta iota. rewrite (span_digits_app di _ Hd Hh).
  replace (String.eqb di "") with false by (symmetry; apply String.eqb_neq; exact Hne).
  rewrite Hlz. cbn [orb]. rewrite Hf, He. reflexivity.
Qed.

Lemma lex_frac_none (r : string) :
  (match r with String c _ => Ascii.eqb c "." = false | EmptyString => True end) ->
  lex_frac r = Some ("", r).
Proof. destruct r as [| c t]; [reflexivity |]. intros H. cbn. rewrite H. reflexivity. Qed.

Lemma lex_frac_dot (d r : string) :
  all_digits d = true -> d <> "" -> no_digit_head r = true -> lex_frac (String "." (d ++ r)) = Some (d, r).
Proof.
  intros Hd Hne Hr. cbn [lex_frac]. change (Ascii.eqb "." ".") with true. cbv iota.
  rewrite (span_digits_app d r Hd Hr).
  replace (String.eqb d "") with false by (symmetry; apply String.eqb_neq; exact Hne). reflexivity.
Qed.

Lemma lex_exp_none (r : string) :
  (match r with String c _ => Ascii.eqb c "e" || Ascii.eqb c "E" = false | EmptyString => True end) ->
  lex_exp r = Some (0, r).
Proof. destruct r as [| c t]; [reflexivity |]. intros H. cbn [lex_exp]. rewrite H. reflexivity. Qed.

Lemma dec_str_nonempty (k : nat) (s : Z) : (1 <= k)%nat -> dec_str k s <> "".
Proof. intros Hk H. assert (H' := f_equal String.length H). rewrite length_dec_str in H'. cbn in H'. lia. Qed.

Lemma lex_exp_str (E : Z) (r : string) :
  no_digit_head r = true -> lex_exp (String "e" (exp_str E ++ r)) = Some (E, r).
Proof.
  intros Hr. destruct (dlen_spec (Z.abs E) ltac:(lia)) as (D1 & D2 & _).
  assert (Hv : digits_value (dec_str (dlen (Z.abs E)) (Z.abs E)) = Z.abs E).
  { unfold digits_value. rewrite digits_value_acc_dec_str, Z.mod_small by lia. ring. }
  assert (Hne : dec_str (dlen (Z.abs E)) (Z.abs E) <> "").
  { apply dec_str_nonempty, D1. }
  unfold exp_str. destruct (0 <=? E) eqn:HE.
  - cbn [lex_exp append]. change (Ascii.eqb "e" "e" || Ascii.eqb "e" "E") with true. cbv iota.
    change (Ascii.eqb "+" "+") with true. cbv iota.
    rewrite (span_digits_app _ r (all_digits_dec_str _ _) Hr).
    replace (String.eqb _ "") with false by (symmetry; apply String.eqb_neq; exact Hne).
    rewrite Hv. apply Z.leb_le in HE. f_equal. f_equal. lia.
  - cbn [lex_exp append]. change (Ascii.eqb "e" "e" || Ascii.eqb "e" "E") with true. cbv iota.
    change (Ascii.eqb "-" "+") with false. change (Ascii.eqb "-" "-") with true. cbv iota.
    rewrite (span_digits_app _ r (all_digits_dec_str _ _) Hr).
    replace (String.eqb _ "") with false by (symmetry; apply String.eqb_neq; exact Hne).
    rewrite Hv. apply Z.leb_gt in HE. f_equal. f_equal. lia.
Qed.

Lemma decimal_to_double_shift (neg : bool) (M j : Z) :
  0 <= j -> decimal_to_double neg (M * 10 ^ j) 0 = decimal_to_double neg M j.
Proof.
  intros Hj. assert (P : 0 < 10 ^ j) by (apply Z.pow_pos_nonneg; lia).
  unfold decimal_to_double.
  replace (M * 10 ^ j =? 0) with (M =? 0)
    by (destruct (Z.eqb_spec M 0), (Z.eqb_spec (M * 10 ^ j) 0); nia).
  destruct (M =? 0); [reflexivity |].
  replace (0 <=? j) with true by (symmetry; apply Z.leb_le; exact Hj).
  change (0 <=? 0) with true. cbv iota. rewrite Z.pow_0_r, Z.mul_1_r. reflexivity.
Qed.

Lemma no_num_head_digit (r : string) : no_num_head r = true -> no_digit_head r = true.
Proof.
  destruct r as [| c t]; [reflexivity |]. cbn.
  destruct (is_digit c); [discriminate | reflexivity].
Qed.

Lemma no_num_head_frac (r : string) :
  no_num_head r = true -> match r with String c _ => Ascii.eqb c "." = false | EmptyString => True end.
Proof.
  destruct r as [| c t]; [exact (fun _ => I) |]. cbn.
  destruct (Ascii.eqb c "."), (is_digit c); cbn; congruence.
Qed.

Lemma no_num_head_exp (r : string) :
  no_num_head r = true ->
  match r with String c _ => Ascii.eqb c "e" || Ascii.eqb c "E" = false | EmptyString => True end.
Proof.
  destruct r as [| c t]; [exact (fun _ => I) |]. cbn.
  destruct (Ascii.eqb c "e"), (Ascii.eqb c "E"), (Ascii.eqb c "."), (is_digit c); cbn; congruence.
Qed.

Lemma dec_str_leading (k : nat) (s : Z) (t : string) :
  (1 <= k)%nat -> 10 ^ (Z.of_nat k - 1) <= s < 10 ^ Z.of_nat k -> leading_zero (dec_str k s ++ t) = false.
Proof.
  intros Hk Hs. destruct (dec_str_head k s Hk Hs) as (c & u & E & _ & Hc).
  rewrite E. apply leading_zero_nz, Hc.
Qed.

Lemma length_zeros (n : nat) : String.length (zeros n) = n.
Proof. induction n as [| n IH]; [reflexivity | cbn [zeros String.length]; rewrite IH; reflexivity]. Qed.

(** Reading back steps 6 to 10. *)
Lemma pnumber_format (neg : bool) (s k n : Z) (rest : string) :
  1 <= k -> 10 ^ (k - 1) <= s < 10 ^ k -> no_num_head rest = true ->
  pnumber ((if neg then "-" else "") ++ format_dec s k n ++ rest)
  = Some (decimal_to_double neg s (n - k), rest).
Proof.
  intros Hk Hs Hr. pose proof (no_num_head_digit rest Hr) as Hrd.
  assert (Pk : 0 < 10 ^ (k - 1)) by (apply Z.pow_pos_nonneg; lia).
  unfold format_dec.
  destruct ((k <=? n) && (n <=? 21)) eqn:C6.
  { apply andb_true_iff in C6 as [C6 _]. apply Z.leb_le in C6.
    set (di := dec_str (Z.to_nat k) s ++ zeros (Z.to_nat (n - k))).
    change (di ++ rest) with (di ++ "" ++ "" ++ rest).
    rewrite (pnumber_split neg di "" "" rest "" 0).
    - f_equal. f_equal. unfold di, digits_value. rewrite append_empty_r_str, digits_value_acc_app.
      rewrite digits_value_acc_dec_str, digits_value_acc_zeros, !Z2Nat.id by lia.
      rewrite Z.mod_small by lia. rewrite Z.mul_0_l, Z.add_0_l. cbn [String.length Z.of_nat].
      rewrite Z.sub_0_r. apply decimal_to_double_shift. lia.
    - unfold di. rewrite all_digits_app, all_digits_dec_str, all_digits_zeros. reflexivity.
    - unfold di. intros H. assert (H' := f_equal String.length H).
      rewrite length_app_str, length_dec_str in H'. cbn in H'. lia.
    - apply dec_str_leading; [lia |]. rewrite Z2Nat.id by lia. exact Hs.
    - exact Hrd.
    - apply lex_frac_none, no_num_head_frac, Hr.
    - apply lex_exp_none, no_num_head_exp, Hr. }
  destruct ((0 <? n) && (n <=? 21)) eqn:C7.
  { apply andb_true_iff in C7 as [C7 C7']. apply Z.ltb_lt in C7. apply Z.leb_le in C7'.
    apply andb_false_iff in C6 as [C6 | C6]; [apply Z.leb_gt in C6 | apply Z.leb_gt in C6; lia].
    assert (Pd : 0 < 10 ^ (k - n)) by (apply Z.pow_pos_nonneg; lia).
    set (hi := s / 10 ^ (k - n)). set (lo := s mod 10 ^ (k - n)).
    assert (Hhi : 10 ^ (n - 1) <= hi < 10 ^ n).
    { unfold hi. split.
      - apply Z.div_le_lower_bound; [lia |]. rewrite <- Z.pow_add_r by lia.
        replace (k - n + (n - 1)) with (k - 1) by lia. lia.
      - apply Z.div_lt_upper_bound; [lia |]. rewrite <- Z.pow_add_r by lia.
        replace (k - n + n) with k by lia. lia. }
    assert (Hlo : 0 <= lo < 10 ^ (k - n)) by (apply Z.mod_pos_bound; lia).
    set (di := dec_str (Z.to_nat n) hi). set (df := dec_str (Z.to_nat (k - n)) lo).
    replace ((di ++ "." ++ df) ++ rest) with (di ++ String "." df ++ "" ++ rest)
      by (rewrite append_assoc_str; reflexivity).
    rewrite (pnumber_split neg di (String "." df) "" rest df 0).
    - f_equal. f_equal. unfold di, df, digits_value. rewrite digits_value_acc_app.
      rewrite !digits_value_acc_dec_str, length_dec_str, !Z2Nat.id by lia.
      rewrite (Z.mod_small hi) by lia. rewrite (Z.mod_small lo) by lia.
      replace (0 - (k - n)) with (n - k) by lia. f_equal.
      unfold hi, lo. rewrite (Z.div_mod s (10 ^ (k - n))) at 3 by lia. ring.
    - apply all_digits_dec_str.
    - apply dec_str_nonempty. lia.
    - rewrite <- (append_empty_r_str di). apply dec_str_leading; [lia |]. rewrite Z2Nat.id by lia. exact Hhi.
    - reflexivity.
    - cbn [append]. apply lex_frac_dot; [apply all_digits_dec_str | apply dec_str_nonempty; lia | exact Hrd].
    - apply lex_exp_none, no_num_head_exp, Hr. }
  destruct ((-6 <? n) && (n <=? 0)) eqn:C8.
  { apply andb_true_iff in C8 as [C8 C8']. apply Z.ltb_lt in C8. apply Z.leb_le in C8'.
    set (df := zeros (Z.to_nat (- n)) ++ dec_str (Z.to_nat k) s).
    replace (("0." ++ df) ++ rest) with ("0" ++ String "." df ++ "" ++ rest) by reflexivity.
    assert (Hdf : all_digits df = true)
      by (unfold df; rewrite all_digits_app, all_digits_zeros, all_digits_dec_str; reflexivity).
    rewrite (pnumber_split neg "0" (String "." df) "" rest df 0).
    - f_equal. f_equal. unfold df, digits_value. cbn [append digits_value_acc].
      change (Z.of_nat (nat_of_ascii "0")) with 48.
      rewrite digits_value_acc_app, digits_value_acc_zeros, digits_value_acc_dec_str.
      rewrite length_app_str, length_dec_str, Nat2Z.inj_add, !Z2Nat.id by lia.
      rewrite length_zeros, Z2Nat.id by lia.
      rewrite Z.mod_small by lia. replace (0 - (- n + k)) with (n - k) by lia. f_equal.
    - reflexivity.
    - discriminate.
    - reflexivity.
    - reflexivity.
    - cbn [append]. apply lex_frac_dot; [exact Hdf | | exact Hrd].
      unfold df. intros H. assert (H' := f_equal String.length H).
      rewrite length_app_str, length_dec_str in H'. cbn in H'. lia.
    - apply lex_exp_none, no_num_head_exp, Hr. }
  destruct (k =? 1) eqn:C9.
  { apply Z.eqb_eq in C9. subst k.
    replace ((dec_str 1 s ++ "e" ++ exp_str (n - 1)) ++ rest)
      with (dec_str 1 s ++ "" ++ String "e" (exp_str (n - 1)) ++ rest)
      by (rewrite !append_assoc_str; reflexivity).
    rewrite (pnumber_split neg (dec_str 1 s) "" (String "e" (exp_str (n - 1))) rest "" (n - 1)).
    - f_equal. f_equal. unfold digits_value. rewrite append_empty_r_str, digits_value_acc_dec_str.
      change (10 ^ Z.of_nat 1) with 10. rewrite Z.mod_small by (cbn in Hs; lia).
      cbn [String.length Z.of_nat]. f_equal; ring.
    - apply all_digits_dec_str.
    - apply dec_str_nonempty. lia.
    - rewrite <- (append_empty_r_str (dec_str 1 s)). apply dec_str_leading; [lia | exact Hs].
    - reflexivity.
    - apply lex_frac_none. reflexivity.
    - apply lex_exp_str, Hrd. }
  { apply Z.eqb_neq in C9.
    assert (Pd : 0 < 10 ^ (k - 1)) by (apply Z.pow_pos_nonneg; lia).
    set (hi := s / 10 ^ (k - 1)). set (lo := s mod 10 ^ (k - 1)).
    assert (Hhi : 1 <= hi < 10).
    { unfold hi. split; [apply Z.div_le_lower_bound; lia |].
      apply Z.div_lt_upper_bound; [lia |].
      replace k with (Z.succ (k - 1)) in Hs at 2 by lia. rewrite Z.pow_succ_r in Hs by lia. lia. }
    assert (Hlo : 0 <= lo < 10 ^ (k - 1)) by (apply Z.mod_pos_bound; lia).
    set (df := dec_str (Z.to_nat (k - 1)) lo).
    replace ((dec_str 1 hi ++ "." ++ df ++ "e" ++ exp_str (n - 1)) ++ rest)
      with (dec_str 1 hi ++ String "." df ++ String "e" (exp_str (n - 1)) ++ rest)
      by (rewrite !append_assoc_str; reflexivity).
    rewrite (pnumber_split neg (dec_str 1 hi) (String "." df) (String "e" (exp_str (n - 1))) rest df (n - 1)).
    - f_equal. f_equal. unfold df, digits_value. rewrite digits_value_acc_app, !digits_value_acc_dec_str.
      rewrite length_dec_str, Z2Nat.id by lia.
      change (10 ^ Z.of_nat 1) with 10. rewrite (Z.mod_small hi) by lia. rewrite (Z.mod_small lo) by lia.
      replace (n - 1 - (k - 1)) with (n - k) by lia. f_equal.
      unfold hi, lo. rewrite (Z.div_mod s (10 ^ (k - 1))) at 3 by lia. ring.
    - apply all_digits_dec_str.
    - apply dec_str_nonempty. lia.
    - rewrite <- (append_empty_r_str (dec_str 1 hi)). apply dec_str_leading; [lia |].
      change (10 ^ (Z.of_nat 1 - 1)) with 1. change (10 ^ Z.of_nat 1) with 10. exact Hhi.
    - reflexivity.
    - cbn [append]. apply lex_frac_dot; [apply all_digits_dec_str | apply dec_str_nonempty; lia | reflexivity].
    - apply lex_exp_str, Hrd. }
Qed.

End NumberText.

(** The bytes after [x] in a surrogate pair [ED a b ED c d] starting at [x]. *)
Fixpoint classes_ok (ps : list (ascii -> bool)) (u : string) : bool :=
  match ps, u with
  | [], _ => true
  | p :: ps', String a u' => p a && classes_ok ps' u'
  | _ :: _, EmptyString => false
  end.

Definition pair_at (x : ascii) (u : string) : bool :=
  is_ED x && classes_ok [lead_sur; cont_byte; is_ED; trail_sur; cont_byte] u.

Lemma wtf8_canon_cons (x : ascii) (u : string) :
  wtf8_canon (String x u)
  = if pair_at x u then
      match u with
      | String a (String b (String _ (String c (String d r)))) => pair_bytes a b c d ++ wtf8_canon r
      | _ => EmptyString
      end
    else String x (wtf8_canon u).
Proof.
  unfold pair_at.
  destruct u as [| a [| b [| y [| c [| d r]]]]]; cbn [classes_ok];
    rewrite ?andb_false_r; try reflexivity.
  cbn [wtf8_canon]. rewrite andb_true_r.
  destruct (is_ED x), (lead_sur a), (cont_byte b), (is_ED y), (trail_sur c), (cont_byte d); reflexivity.
Qed.

Lemma nat_of_byte (z : Z) : (0 <= z < 256)%Z -> nat_of_ascii (byte z) = Z.to_nat z.
Proof. intros H. unfold byte. apply nat_ascii_embedding. lia. Qed.

Lemma zbyte_range (c : ascii) : (0 <= zbyte c < 256)%Z.
Proof. unfold zbyte. pose proof (nat_ascii_bounded c). lia. Qed.

Lemma lead_sur_range (a : ascii) : lead_sur a = true -> (160 <= zbyte a <= 175)%Z.
Proof. unfold lead_sur, zbyte. rewrite andb_true_iff, !Nat.leb_le. lia. Qed.

Lemma trail_sur_range (a : ascii) : trail_sur a = true -> (176 <= zbyte a <= 191)%Z.
Proof. unfold trail_sur, zbyte. rewrite andb_true_iff, !Nat.leb_le. lia. Qed.

Lemma cont_byte_range (a : ascii) : cont_byte a = true -> (128 <= zbyte a <= 191)%Z.
Proof. unfold cont_byte, zbyte. rewrite andb_true_iff, !Nat.leb_le. lia. Qed.

(** A byte that starts a four-byte sequence is in none of the classes of a
    surrogate pair. *)
Definition high_byte (z : ascii) : Prop := (240 <= nat_of_ascii z)%nat.

Lemma high_byte_classes (z : ascii) :
  high_byte z -> is_ED z = false /\ lead_sur z = false /\ trail_sur z = false /\ cont_byte z = false.
Proof.
  unfold high_byte, is_ED, lead_sur, trail_sur, cont_byte. intros H.
  repeat split; [apply Nat.eqb_neq; lia | | |];
    apply andb_false_iff; right; apply Nat.leb_gt; lia.
Qed.

Lemma pair_bytes_shape (a b c d : ascii) :
  lead_sur a = true -> cont_byte b = true -> trail_sur c = true -> cont_byte d = true ->
  exists p1 p2 p3 p4, pair_bytes a b c d = String p1 (String p2 (String p3 (String p4 EmptyString)))
    /\ high_byte p1 /\ is_ED p2 = false /\ is_ED p3 = false /\ is_ED p4 = false.
Proof.
  intros Ha Hb Hc Hd.
  apply lead_sur_range in Ha. apply cont_byte_range in Hb.
  apply trail_sur_range in Hc. apply cont_byte_range in Hd.
  unfold pair_bytes, sur_unit.
  set (cp := (65536 + (53248 + (zbyte a - 128) * 64 + (zbyte b - 128) - 55296) * 1024
              + (53248 + (zbyte c - 128) * 64 + (zbyte d - 128) - 56320))%Z).
  assert (Hcp : (65536 <= cp <= 1114111)%Z) by (unfold cp; lia).
  eexists _, _, _, _. split; [reflexivity |].
  assert (Q : (0 <= cp / 262144 <= 4)%Z).
  { split; [apply Z.div_pos; lia |]. apply Z.lt_succ_r, Z.div_lt_upper_bound; lia. }
  assert (M1 := Z.mod_pos_bound (cp / 4096) 64 ltac:(lia)).
  assert (M2 := Z.mod_pos_bound (cp / 64) 64 ltac:(lia)).
  assert (M3 := Z.mod_pos_bound cp 64 ltac:(lia)).
  unfold high_byte, is_ED. rewrite !nat_of_byte by lia.
  repeat split; [lia | apply Nat.eqb_neq; lia ..].
Qed.

Lemma wtf8_canon_plain (x : ascii) (u : string) :
  is_ED x = false -> wtf8_canon (String x u) = String x (wtf8_canon u).
Proof. intros H. rewrite wtf8_canon_cons. unfold pair_at. rewrite H. reflexivity. Qed.

(** The first byte of a canonical form: the input's own, or the start of a
    four-byte sequence. *)
Lemma wtf8_canon_head (t : string) :
  (t = EmptyString /\ wtf8_canon t = EmptyString)
  \/ (exists x t', t = String x t' /\ wtf8_canon t = String x (wtf8_canon t'))
  \/ (exists c r, wtf8_canon t = String c r /\ high_byte c).
Proof.
  destruct t as [| x u]; [left; split; reflexivity |]. right.
  rewrite wtf8_canon_cons. destruct (pair_at x u) eqn:E; [right | left; eexists _, _; split; reflexivity].
  unfold pair_at in E.
  destruct u as [| a [| b [| y [| c [| d r]]]]]; cbn [classes_ok] in E;
    rewrite ?andb_false_r in E; try discriminate E.
  rewrite andb_true_r in E. apply andb_true_iff in E as [_ E].
  apply andb_true_iff in E as [Ha E]. apply andb_true_iff in E as [Hb E].
  apply andb_true_iff in E as [_ E]. apply andb_true_iff in E as [Hc Hd].
  destruct (pair_bytes_shape a b c d Ha Hb Hc Hd) as (p1 & p2 & p3 & p4 & -> & H1 & _).
  eexists _, _. split; [reflexivity | exact H1].
Qed.

Lemma classes_ok_canon (ps : list (ascii -> bool)) (t : string) :
  Forall (fun p => forall z, high_byte z -> p z = false) ps ->
  classes_ok ps t = false -> classes_ok ps (wtf8_canon t) = false.
Proof.
  intros HF. revert t. induction HF as [| p ps Hp HF IH]; intros t Ht; [discriminate Ht |].
  destruct (wtf8_canon_head t) as [[-> ->] | [(x & t' & -> & E) | (c & r & E & Hc)]].
  - reflexivity.
  - rewrite E. cbn [classes_ok] in Ht |- *. destruct (p x); [| reflexivity]. apply IH, Ht.
  - rewrite E. cbn [classes_ok]. rewrite (Hp c Hc). reflexivity.
Qed.

Lemma pair_at_canon (x : ascii) (t : string) : pair_at x t = false -> pair_at x (wtf8_canon t) = false.
Proof.
  unfold pair_at. destruct (is_ED x); [cbn [andb] | reflexivity].
  apply classes_ok_canon.
  repeat constructor; intros z Hz; apply high_byte_classes in Hz; tauto.
Qed.

(** [wtf8_canon] is idempotent: its result has no pair left to merge. *)
Lemma wtf8_canon_idem (s : string) : wtf8_canon (wtf8_canon s) = wtf8_canon s.
Proof.
  remember (String.length s) as len eqn:Hl. revert s Hl.
  induction len as [len IH] using (well_founded_induction lt_wf). intros s Hl.
  destruct s as [| x u]; [reflexivity |].
  rewrite (wtf8_canon_cons x u). destruct (pair_at x u) eqn:E.
  - unfold pair_at in E.
    destruct u as [| a [| b [| y [| c [| d r]]]]]; cbn [classes_ok] in E;
      rewrite ?andb_false_r in E; try discriminate E.
    rewrite andb_true_r in E. apply andb_true_iff in E as [_ E].
    apply andb_true_iff in E as [Ha E]. apply andb_true_iff in E as [Hb E].
    apply andb_true_iff in E as [_ E]. apply andb_true_iff in E as [Hc Hd].
    destruct (pair_bytes_shape a b c d Ha Hb Hc Hd) as (p1 & p2 & p3 & p4 & Ep & H1 & H2 & H3 & H4).
    rewrite Ep. cbn [append].
    rewrite !wtf8_canon_plain by first [assumption | apply (proj1 (high_byte_classes _ H1))].
    rewrite (IH (String.length r)); [reflexivity | | reflexivity]. subst len. cbn. lia.
  - rewrite wtf8_canon_cons, (pair_at_canon x u E).
    rewrite (IH (String.length u)); [reflexivity | | reflexivity]. subst len. cbn. lia.
Qed.

(** A lone surrogate [ED a b]: [quote_js_chars] escapes it. *)
Definition lone_sur (x : ascii) (t : string) : bool :=
  match t with
  | String a (String b _) => is_ED x && (lead_sur a || trail_sur a) && cont_byte b
  | _ => false
  end.

Lemma quote_js_chars_cons (x : ascii) (t : string) :
  quote_js_chars (String x t)
  = if lone_sur x t then
      match t with String a (String b r) => unit_escape (sur_unit a b) ++ quote_js_chars r | _ => EmptyString end
    else quote_char x ++ quote_js_chars t.
Proof. destruct t as [| a [| b r]]; reflexivity. Qed.

Lemma pstr_js_quote_char (c : ascii) (rest : string) :
  pstr_js (quote_char c ++ rest) = cons_fst (chr c) (pstr_js rest).
Proof. destruct c as [[] [] [] [] [] [] [] []]; reflexivity. Qed.

Lemma pstr_js_unit_escape (u : Z) (rest : string) :
  pstr_js (unit_escape u ++ rest)
  = match hex4 (hex_lower (Z.to_nat (u / 4096))) (hex_lower (Z.to_nat ((u / 256) mod 16)))
              (hex_lower (Z.to_nat ((u / 16) mod 16))) (hex_lower (Z.to_nat (u mod 16))) with
    | Some n => cons_fst (wtf8_of_unit n) (pstr_js rest)
    | None => None
    end.
Proof. reflexivity. Qed.

(** The escape of every surrogate code unit reads back as its bytes;
    checked on all of them. *)
Definition escape_reads_back (na nb : nat) : bool :=
  let a := ascii_of_nat na in
  let b := ascii_of_nat nb in
  let u := sur_unit a b in
  match hex4 (hex_lower (Z.to_nat (u / 4096))) (hex_lower (Z.to_nat ((u / 256) mod 16)))
             (hex_lower (Z.to_nat ((u / 16) mod 16))) (hex_lower (Z.to_nat (u mod 16))) with
  | Some n => String.eqb (wtf8_of_unit n) (String (ascii_of_nat 237) (String a (String b EmptyString)))
  | None => false
  end.

Lemma escape_reads_back_all :
  forallb (fun na => forallb (fun nb => escape_reads_back na nb) (seq 128 64)) (seq 160 32) = true.
Proof. vm_compute. reflexivity. Qed.

Lemma escape_sur (x a b : ascii) (rest : string) :
  is_ED x = true -> lead_sur a || trail_sur a = true -> cont_byte b = true ->
  pstr_js (unit_escape (sur_unit a b) ++ rest) = cons_fst (String x (String a (String b EmptyString))) (pstr_js rest).
Proof.
  intros Hx Ha Hb. rewrite pstr_js_unit_escape.
  assert (Hna : In (nat_of_ascii a) (seq 160 32)).
  { apply in_seq. unfold lead_sur, trail_sur in Ha.
    apply orb_true_iff in Ha as [Ha | Ha]; apply andb_true_iff in Ha as [H1 H2];
      apply Nat.leb_le in H1; apply Nat.leb_le in H2; lia. }
  assert (Hnb : In (nat_of_ascii b) (seq 128 64)).
  { apply in_seq. unfold cont_byte in Hb. apply andb_true_iff in Hb as [H1 H2];
      apply Nat.leb_le in H1; apply Nat.leb_le in H2; lia. }
  pose proof escape_reads_back_all as Hall.
  rewrite forallb_forall in Hall. specialize (Hall _ Hna). rewrite forallb_forall in Hall.
  specialize (Hall _ Hnb). unfold escape_reads_back in Hall.
  rewrite !ascii_nat_embedding in Hall.
  assert (Ex : x = ascii_of_nat 237).
  { unfold is_ED in Hx. apply Nat.eqb_eq in Hx. rewrite <- Hx. symmetry. apply ascii_nat_embedding. }
  subst x.
  destruct (hex4 _ _ _ _) as [n |]; [| discriminate Hall].
  apply String.eqb_eq in Hall. rewrite Hall. reflexivity.
Qed.

(** [JSON.parse] reads [QuoteJSONString]'s output back: the code units
    come back unchanged. *)
Lemma pstr_js_quote (s rest : string) :
  pstr_js (quote_js_chars s ++ String c_quote rest) = Some (s, rest).
Proof.
  remember (String.length s) as len eqn:Hl. revert s Hl.
  induction len as [len IH] using (well_founded_induction lt_wf). intros s Hl.
  destruct s as [| x t]; [reflexivity |].
  rewrite quote_js_chars_cons. destruct (lone_sur x t) eqn:E.
  - destruct t as [| a [| b r]]; try discriminate E.
    cbn [lone_sur] in E. apply andb_true_iff in E as [E Hb]. apply andb_true_iff in E as [Hx Ha].
    rewrite append_assoc_str, (escape_sur x a b _ Hx Ha Hb).
    rewrite (IH (String.length r)); [reflexivity | | reflexivity]. subst len. cbn. lia.
  - rewrite append_assoc_str, pstr_js_quote_char.
    rewrite (IH (String.length t)); [reflexivity | | reflexivity]. subst len. cbn. lia.
Qed.

Lemma pstring_quote (s rest : string) :
  pstring (quote_js_chars s ++ String c_quote rest) = Some (wtf8_canon s, rest).
Proof. unfold pstring. rewrite pstr_js_quote. reflexivity. Qed.

(* ----------------------------------------------------------------- *)
(** *** Key order *)

Definition is_index (k : string) : bool :=
  match array_index k with Some _ => true | None => false end.

(** Array-index keys first, in ascending order (from [lo] on), then the
    other keys. *)
Fixpoint idx_sorted (lo : Z) (l : list string) : bool :=
  match l with
  | [] => true
  | k :: l' =>
      match array_index k with
      | Some i => (lo <=? i)%Z && idx_sorted i l'
      | None => forallb (fun k' => negb (is_index k')) l'
      end
  end.

(** The key lists of the objects [JSON.parse] builds. *)
Definition ordered_keys (l : list string) : bool := nodup_keys l && idx_sorted 0 l.

Lemma nodup_keys_NoDup (l : list string) : nodup_keys l = true <-> NoDup l.
Proof.
  induction l as [| k l IH]; cbn [nodup_keys].
  - split; [constructor | reflexivity].
  - rewrite andb_true_iff, IH, negb_true_iff. split.
    + intros [H1 H2]. constructor; [| exact H2].
      intros Hin. assert (existsb (String.eqb k) l = true); [| congruence].
      apply existsb_exists. exists k. split; [exact Hin | apply String.eqb_refl].
    + intros H. inversion H as [| ? ? Hn Hd]; subst. split; [| exact Hd].
      destruct (existsb (String.eqb k) l) eqn:E; [| reflexivity].
      apply existsb_exists in E as (k' & Hk' & Ek). apply String.eqb_eq in Ek. subst k'. contradiction.
Qed.

Lemma array_index_nonneg (k : string) (i : Z) : array_index k = Some i -> (0 <= i)%Z.
Proof.
  unfold array_index. destruct k as [| c r]; [discriminate |].
  destruct (all_digits (String c r)) eqn:E; [| discriminate]. cbn [andb].
  destruct (_ && _); [| discriminate]. intros H. injection H as <-.
  apply digits_value_acc_nonneg; [lia | exact E].
Qed.

Lemma idx_sorted_prefix (l1 l2 : list string) (lo : Z) :
  idx_sorted lo (l1 ++ l2)%list = true -> idx_sorted lo l1 = true.
Proof.
  revert lo. induction l1 as [| k l1 IH]; intros lo H; [reflexivity |].
  cbn [app idx_sorted] in H |- *. destruct (array_index k) as [i |].
  - apply andb_true_iff in H as [H1 H2]. rewrite H1, (IH _ H2). reflexivity.
  - rewrite forallb_app in H. apply andb_true_iff in H as [H _]. exact H.
Qed.

Lemma nodup_keys_prefix (l1 l2 : list string) : nodup_keys (l1 ++ l2)%list = true -> nodup_keys l1 = true.
Proof.
  rewrite !nodup_keys_NoDup. intros H. induction l1 as [| k l1 IH]; [constructor |].
  inversion H as [| ? ? Hn Hd]; subst. constructor; [| exact (IH Hd)].
  intros Hin. apply Hn, in_or_app. left; exact Hin.
Qed.

Lemma ordered_keys_prefix (l1 l2 : list string) : ordered_keys (l1 ++ l2)%list = true -> ordered_keys l1 = true.
Proof.
  unfold ordered_keys. rewrite !andb_true_iff. intros [H1 H2].
  split; [exact (nodup_keys_prefix _ _ H1) | exact (idx_sorted_prefix _ _ _ H2)].
Qed.

(** Before an index key [k = i] of a sorted list, only indices up to [i]. *)
Lemma idx_sorted_last_index (l : list string) (k : string) (lo i : Z) :
  idx_sorted lo (l ++ [k])%list = true -> array_index k = Some i ->
  (lo <= i)%Z /\ Forall (fun k' => exists i', array_index k' = Some i' /\ (i' <= i)%Z) l.
Proof.
  revert lo. induction l as [| k1 l IH]; intros lo H Hk.
  - cbn in H. rewrite Hk in H. rewrite andb_true_r in H. apply Z.leb_le in H. split; [exact H | constructor].
  - cbn [app idx_sorted] in H. destruct (array_index k1) as [i1 |] eqn:E1.
    + apply andb_true_iff in H as [H1 H2]. apply Z.leb_le in H1.
      destruct (IH i1 H2 Hk) as [Hi Hl]. split; [lia |]. constructor; [| exact Hl].
      exists i1. split; [exact E1 | exact Hi].
    + rewrite forallb_app in H. apply andb_true_iff in H as [_ H]. cbn in H.
      unfold is_index in H. rewrite Hk in H. discriminate H.
Qed.

Lemma insert_index_end {A : Type} (acc : list (string * A)) (k : string) (i : Z) (v : A) :
  Forall (fun k' => exists i', array_index k' = Some i' /\ (i' <= i)%Z) (map fst acc) ->
  insert_index acc k i v = (acc ++ [(k, v)])%list.
Proof.
  induction acc as [| [k' v'] acc IH]; intros H; [reflexivity |].
  cbn [map fst] in H. inversion H as [| ? ? (i' & E & Hi) Hrest]; subst.
  cbn [insert_index]. rewrite E. replace (i <? i')%Z with false by (symmetry; apply Z.ltb_ge; lia).
  rewrite (IH Hrest). reflexivity.
Qed.

Lemma existsb_key_false {A : Type} (acc : list (string * A)) (k : string) :
  ~ In k (map fst acc) -> existsb (fun kv => String.eqb (fst kv) k) acc = false.
Proof.
  intros Hn. destruct (existsb _ acc) eqn:E; [| reflexivity]. exfalso.
  apply existsb_exists in E as ([k' v'] & Hin & Ek). apply String.eqb_eq in Ek. cbn in Ek. subst k'.
  apply Hn, (in_map fst _ _ Hin).
Qed.

(** On a list already in key order, [CreateDataProperty] of a new last
    key appends it. *)
Lemma create_data_property_append {A : Type} (acc : list (string * A)) (k : string) (v : A) :
  ordered_keys (map fst acc ++ [k])%list = true -> create_data_property acc k v = (acc ++ [(k, v)])%list.
Proof.
  unfold ordered_keys. intros H. apply andb_true_iff in H as [Hn Hs].
  apply nodup_keys_NoDup in Hn. apply NoDup_remove_2 in Hn. rewrite app_nil_r in Hn.
  unfold create_data_property. rewrite (existsb_key_false acc k Hn).
  destruct (array_index k) as [i |] eqn:Ek; [| reflexivity].
  apply insert_index_end. exact (proj2 (idx_sorted_last_index _ _ _ _ Hs Ek)).
Qed.

Lemma map_fst_obj_set_in {A : Type} (acc : list (string * A)) (k : string) (v : A) :
  existsb (fun kv => String.eqb (fst kv) k) acc = true -> map fst (obj_set acc k v) = map fst acc.
Proof.
  induction acc as [| [k' v'] acc IH]; [discriminate |]. cbn [existsb fst obj_set].
  intros H. destruct (String.eqb k k') eqn:E.
  - apply String.eqb_eq in E. subst. reflexivity.
  - rewrite String.eqb_sym, E in H. cbn [orb] in H. cbn [map fst]. rewrite (IH H). reflexivity.
Qed.

Fixpoint insert_key (l : list string) (k : string) (i : Z) : list string :=
  match l with
  | [] => [k]
  | k' :: l' =>
      match array_index k' with
      | Some i' => if (i <? i')%Z then k :: l else k' :: insert_key l' k i
      | None => k :: l
      end
  end.

Lemma map_fst_insert_index {A : Type} (acc : list (string * A)) (k : string) (i : Z) (v : A) :
  map fst (insert_index acc k i v) = insert_key (map fst acc) k i.
Proof.
  induction acc as [| [k' v'] acc IH]; [reflexivity |]. cbn [insert_index map fst insert_key].
  destruct (array_index k') as [i' |]; [| reflexivity].
  destruct (i <? i')%Z; [reflexivity |]. cbn [map fst]. rewrite IH. reflexivity.
Qed.

Lemma insert_key_perm (l : list string) (k : string) (i : Z) : Permutation (insert_key l k i) (k :: l).
Proof.
  induction l as [| k' l IH]; [reflexivity |]. cbn [insert_key].
  destruct (array_index k') as [i' |]; [| reflexivity].
  destruct (i <? i')%Z; [reflexivity |].
  eapply perm_trans; [apply perm_skip, IH | apply perm_swap].
Qed.

Lemma insert_key_sorted (l : list string) (k : string) (lo i : Z) :
  idx_sorted lo l = true -> array_index k = Some i -> (lo <= i)%Z -> idx_sorted lo (insert_key l k i) = true.
Proof.
  revert lo. induction l as [| k' l IH]; intros lo H Hk Hlo.
  - cbn. rewrite Hk. apply andb_true_iff. split; [apply Z.leb_le; exact Hlo | reflexivity].
  - cbn [insert_key]. cbn [idx_sorted] in H. destruct (array_index k') as [i' |] eqn:E.
    + apply andb_true_iff in H as [H1 H2]. destruct (i <? i')%Z eqn:Ei.
      * apply Z.ltb_lt in Ei. cbn [idx_sorted]. rewrite Hk, E.
        rewrite (proj2 (Z.leb_le _ _) Hlo), (proj2 (Z.leb_le i i') ltac:(lia)), H2. reflexivity.
      * apply Z.ltb_ge in Ei. cbn [idx_sorted]. rewrite E, H1. cbn [andb].
        apply IH; [exact H2 | exact Hk | lia].
    + cbn [idx_sorted]. rewrite Hk, E.
      rewrite (proj2 (Z.leb_le _ _) Hlo). cbn [andb]. exact H.
Qed.

Lemma append_key_sorted (l : list string) (k : string) (lo : Z) :
  idx_sorted lo l = true -> array_index k = None -> idx_sorted lo (l ++ [k])%list = true.
Proof.
  revert lo. induction l as [| k' l IH]; intros lo H Hk.
  - cbn. rewrite Hk. reflexivity.
  - cbn [app idx_sorted] in H |- *. destruct (array_index k') as [i' |].
    + apply andb_true_iff in H as [H1 H2]. rewrite H1. exact (IH _ H2 Hk).
    + rewrite forallb_app, H. cbn. unfold is_index. rewrite Hk. reflexivity.
Qed.

(** [CreateDataProperty] keeps an object in key order. *)
Lemma create_data_property_ordered {A : Type} (acc : list (string * A)) (k : string) (v : A) :
  ordered_keys (map fst acc) = true -> ordered_keys (map fst (create_data_property acc k v)) = true.
Proof.
  unfold ordered_keys, create_data_property. intros H. apply andb_true_iff in H as [Hn Hs].
  destruct (existsb (fun kv => String.eqb (fst kv) k) acc) eqn:Ex.
  - rewrite map_fst_obj_set_in by exact Ex. rewrite Hn, Hs. reflexivity.
  - assert (Hk : ~ In k (map fst acc)).
    { intros Hin. apply in_map_iff in Hin as ([k' v'] & Ek & Hin). cbn in Ek. subst k'.
      assert (existsb (fun kv => String.eqb (fst kv) k) acc = true); [| congruence].
      apply existsb_exists. exists (k, v'). split; [exact Hin | apply String.eqb_refl]. }
    apply nodup_keys_NoDup in Hn.
    destruct (array_index k) as [i |] eqn:Ek.
    + rewrite map_fst_insert_index. apply andb_true_iff. split.
      * apply nodup_keys_NoDup. eapply Permutation_NoDup; [symmetry; apply insert_key_perm |].
        constructor; assumption.
      * apply insert_key_sorted; [exact Hs | exact Ek | exact (array_index_nonneg k i Ek)].
    + rewrite map_app. apply andb_true_iff. split.
      * apply nodup_keys_NoDup. apply NoDup_app; [exact Hn | repeat constructor; intros [] |].
        intros x Hx [<- | []]. exact (Hk Hx).
      * cbn [map fst]. apply append_key_sorted; assumption.
Qed.

(** What [JSON.stringify] then [JSON.parse] make of a value: [-0]
    becomes [0], [NaN] and the infinities become [null]. *)
Fixpoint jsclean (v : jsval) : jsval :=
  match v with
  | VNum (S754_finite _ _ _) => v
  | VNum (S754_zero _) => VNum (S754_zero false)
  | VNum _ => VNull
  | VArr xs => VArr (map jsclean xs)
  | VObj ps => VObj (map (fun kv => (fst kv, jsclean (snd kv))) ps)
  | _ => v
  end.

(** A value [JSON.parse] can produce: numbers are doubles, strings are
    in canonical form, objects have their keys in property order. *)
Fixpoint wf_js (v : jsval) : bool :=
  match v with
  | VNum x => num_ok x
  | VStr s => String.eqb (wtf8_canon s) s
  | VArr xs => forallb wf_js xs
  | VObj ps =>
      ordered_keys (map fst ps) && forallb (fun kv => String.eqb (wtf8_canon (fst kv)) (fst kv)) ps
      && forallb (fun kv => wf_js (snd kv)) ps
  | _ => true
  end.

Fixpoint jsize_js (v : jsval) : nat :=
  match v with
  | VArr xs => S (fold_right (fun x acc => S (jsize_js x + acc)) 0%nat xs)
  | VObj ps => S (fold_right (fun kv acc => S (jsize_js (snd kv) + acc)) 0%nat ps)
  | _ => 1%nat
  end.

Definition jsval_ind' (P : jsval -> Prop)
  (Hnull : P VNull) (Hbool : forall b, P (VBool b)) (Hnum : forall x, P (VNum x))
  (Hstr : forall s, P (VStr s))
  (Harr : forall xs, Forall P xs -> P (VArr xs))
  (Hobj : forall ps, Forall (fun kv => P (snd kv)) ps -> P (VObj ps)) : forall v, P v :=
  fix go v :=
    match v with
    | VNull => Hnull
    | VBool b => Hbool b
    | VNum x => Hnum x
    | VStr s => Hstr s
    | VArr xs => Harr xs ((fix gol (l : list jsval) : Forall P l :=
                             match l with
                             | [] => Forall_nil _
                             | x :: l' => Forall_cons _ (go x) (gol l')
                             end) xs)
    | VObj ps => Hobj ps ((fix gop (l : list (string * jsval)) : Forall (fun kv => P (snd kv)) l :=
                             match l with
                             | [] => Forall_nil _
                             | kv :: l' => Forall_cons _ (go (snd kv)) (gop l')
                             end) ps)
    end.

(* ----------------------------------------------------------------- *)

Lemma pval_js_S (n : nat) (s : string) : pval_js (S n) s = pval_js (S n) (skip_ws s).
Proof. simpl. now rewrite skip_ws_idem. Qed.

Lemma pmembers_js_S (n : nat) (s : string) acc :
  pmembers_js (S n) s acc = pmembers_js (S n) (skip_ws s) acc.
Proof. simpl. now rewrite skip_ws_idem. Qed.

Lemma pelems_js_S (n : nat) (s : string) acc :
  pelems_js (S n) s acc
  = match pval_js n s with
    | None => None
    | Some (v, r) =>
        match skip_ws r with
        | String c r' =>
            if Ascii.eqb c "," then pelems_js n r' (acc ++ [v])%list
            else if Ascii.eqb c "]" then Some ((acc ++ [v])%list, r')
            else None
        | EmptyString => None
        end
    end.
Proof. reflexivity. Qed.

Lemma pval_js_ws (n : nat) (w s : string) : all_ws w = true -> pval_js n (w ++ s) = pval_js n s.
Proof.
  intros Hw. destruct n as [| n]; [reflexivity |].
  rewrite pval_js_S, (pval_js_S n s), skip_ws_all_ws by exact Hw. reflexivity.
Qed.

Lemma pelems_js_ws (n : nat) (w s : string) acc :
  all_ws w = true -> pelems_js n (w ++ s) acc = pelems_js n s acc.
Proof.
  intros Hw. destruct n as [| n]; [reflexivity |].
  rewrite !pelems_js_S, pval_js_ws by exact Hw. reflexivity.
Qed.

Lemma pmembers_js_ws (n : nat) (w s : string) acc :
  all_ws w = true -> pmembers_js n (w ++ s) acc = pmembers_js n s acc.
Proof.
  intros Hw. destruct n as [| n]; [reflexivity |].
  rewrite pmembers_js_S, (pmembers_js_S n s), skip_ws_all_ws by exact Hw. reflexivity.
Qed.

Lemma pval_js_skip (n : nat) (s : string) : pval_js n (skip_ws s) = pval_js n s.
Proof. destruct n as [| n]; [reflexivity |]. now rewrite (pval_js_S n s). Qed.

Lemma pelems_js_skip (n : nat) (s : string) acc : pelems_js n (skip_ws s) acc = pelems_js n s acc.
Proof. destruct n as [| n]; [reflexivity |]. now rewrite !pelems_js_S, pval_js_skip. Qed.

Lemma pmembers_js_skip (n : nat) (s : string) acc :
  pmembers_js n (skip_ws s) acc = pmembers_js n s acc.
Proof. destruct n as [| n]; [reflexivity |]. now rewrite (pmembers_js_S n s), pmembers_js_S, skip_ws_idem. Qed.

Lemma pval_js_arr (n : nat) (r : string) :
  (forall r', skip_ws r <> String "]" r') ->
  pval_js (S n) (String "[" r)
  = match pelems_js n (skip_ws r) [] with Some (xs, r') => Some (VArr xs, r') | None => None end.
Proof.
  intros H. simpl pval_js. destruct (skip_ws r) as [| c r1]; [reflexivity |].
  destruct c as [[] [] [] [] [] [] [] []]; try reflexivity. exfalso. eapply H. reflexivity.
Qed.

Lemma pval_js_obj (n : nat) (r : string) :
  (forall r', skip_ws r <> String "}" r') ->
  pval_js (S n) (String "{" r)
  = match pmembers_js n (skip_ws r) [] with Some (ps, r') => Some (VObj ps, r') | None => None end.
Proof.
  intros H. simpl pval_js. destruct (skip_ws r) as [| c r1]; [reflexivity |].
  destruct c as [[] [] [] [] [] [] [] []]; try reflexivity. exfalso. eapply H. reflexivity.
Qed.

Lemma pval_js_not_close (k : nat) (s : string) (v : jsval) (r : string) :
  pval_js (S k) s = Some (v, r) -> forall r', skip_ws s <> String "]" r'.
Proof. intros H r' E. rewrite pval_js_S, E in H. discriminate H. Qed.

Lemma pval_js_quote (n : nat) (r : string) :
  pval_js (S n) (String c_quote r) = match pstring r with Some (t, r') => Some (VStr t, r') | None => None end.
Proof. reflexivity. Qed.

Lemma pmembers_js_quote (n : nat) (r : string) acc :
  pmembers_js (S n) (String c_quote r) acc
  = match pstring r with
    | None => None
    | Some (k, r1) =>
        match skip_ws r1 with
        | String ":" r2 =>
            match pval_js n r2 with
            | None => None
            | Some (v, r3) =>
                match skip_ws r3 with
                | String c' r4 =>
                    if Ascii.eqb c' "," then pmembers_js n r4 (create_data_property acc k v)
                    else if Ascii.eqb c' "}" then Some (create_data_property acc k v, r4)
                    else None
                | EmptyString => None
                end
            end
        | _ => None
        end
    end.
Proof. reflexivity. Qed.

(** A number literal starts with [-] or a digit. *)
Lemma pnumber_head (c : ascii) (r : string) (x : spec_float) (r' : string) :
  pnumber (String c r) = Some (x, r') -> c = "-"%char \/ is_digit c = true.
Proof.
  unfold pnumber, lex_sign. destruct (Ascii.eqb c "-") eqn:Ec.
  - intros _. left. apply Ascii.eqb_eq, Ec.
  - cbn [span_digits]. destruct (is_digit c) eqn:Hd; [intros _; right; reflexivity |].
    cbn. discriminate.
Qed.

Lemma pnumber_nonempty (x : spec_float) (r : string) : pnumber "" <> Some (x, r).
Proof. discriminate. Qed.

Lemma pval_js_pnumber (n : nat) (c : ascii) (r : string) :
  c = "-"%char \/ is_digit c = true ->
  pval_js (S n) (String c r)
  = match pnumber (String c r) with Some (x, r') => Some (VNum x, r') | None => None end.
Proof.
  intros [-> | H]; [reflexivity |].
  destruct c as [[] [] [] [] [] [] [] []]; first [discriminate H | reflexivity].
Qed.

Lemma pval_js_number (n : nat) (t : string) (x : spec_float) (rest : string) :
  pnumber t = Some (x, rest) -> pval_js (S n) t = Some (VNum x, rest).
Proof.
  destruct t as [| c r]; [discriminate |]. intros H.
  rewrite pval_js_pnumber by exact (pnumber_head _ _ _ _ H). rewrite H. reflexivity.
Qed.

(** [JSON.parse] reads back the number [JSON.stringify] writes. *)
Lemma pnumber_json_number (neg : bool) (m : positive) (e : Z) (rest : string) :
  bounded 53 1024 m e = true -> no_num_head rest = true ->
  pnumber (json_number (S754_finite neg m e) ++ rest) = Some (S754_finite neg m e, rest).
Proof.
  intros Hb Hr. unfold json_number, number_to_string.
  pose proof (shortest_spec m e Hb) as Hs.
  destruct (shortest m e) as [[s k] n]. destruct Hs as (Hk & Hs & Hd).
  rewrite append_assoc_str, pnumber_format by assumption.
  rewrite decimal_to_double_sign, Hd. reflexivity.
Qed.

Lemma pnumber_zero (rest : string) :
  no_num_head rest = true -> pnumber ("0" ++ rest) = Some (S754_zero false, rest).
Proof.
  intros Hr.
  assert (H := pnumber_split false "0" "" "" rest "" 0 eq_refl ltac:(discriminate) eq_refl
                 (no_num_head_digit _ Hr) (lex_frac_none _ (no_num_head_frac _ Hr))
                 (lex_exp_none _ (no_num_head_exp _ Hr))).
  exact H.
Qed.

Lemma no_num_head_ws (w : string) (c : ascii) (t : string) :
  all_ws w = true -> no_num_head (String c "") = true -> no_num_head (w ++ String c t) = true.
Proof.
  destruct w as [| x w]; cbn [append]; intros Hw Hc; [exact Hc |].
  cbn in Hw. apply andb_true_iff in Hw as [Hx _].
  destruct x as [[] [] [] [] [] [] [] []]; first [discriminate Hx | reflexivity].
Qed.

Lemma quote_js_app (k x : string) :
  quote_js k ++ x = String c_quote (quote_js_chars k ++ String c_quote x).
Proof. unfold quote_js. cbn [append]. now rewrite append_assoc_str. Qed.

Lemma ser_js_arr_shape (gap ind : string) (x : jsval) (xs : list jsval) :
  all_ws gap = true -> all_ws ind = true ->
  exists w1 w2 w3, all_ws w1 = true /\ all_ws w2 = true /\ all_ws w3 = true
    /\ ser_js gap ind (VArr (x :: xs))
       = "[" ++ w1 ++ join ("," ++ w2) (map (ser_js gap (ind ++ gap)) (x :: xs)) ++ w3 ++ "]".
Proof.
  intros Hg Hi. destruct gap as [| g gs].
  - exists "", "", "". repeat split.
  - assert (Hig : all_ws (ind ++ String g gs) = true) by (apply all_ws_app; auto).
    exists (String c_nl (ind ++ String g gs)), (String c_nl (ind ++ String g gs)), (String c_nl ind).
    repeat split; first [exact Hig | exact Hi].
Qed.

Lemma ser_js_obj_shape (gap ind : string) (kv : string * jsval) (ps : list (string * jsval)) :
  all_ws gap = true -> all_ws ind = true ->
  exists w1 w2 w3 wc, all_ws w1 = true /\ all_ws w2 = true /\ all_ws w3 = true /\ all_ws wc = true
    /\ ser_js gap ind (VObj (kv :: ps))
       = "{" ++ w1 ++ join ("," ++ w2)
                  (map (fun kv => quote_js (fst kv) ++ ":" ++ wc ++ ser_js gap (ind ++ gap) (snd kv)) (kv :: ps))
         ++ w3 ++ "}".
Proof.
  intros Hg Hi. destruct gap as [| g gs].
  - exists "", "", "", "". repeat split.
  - assert (Hig : all_ws (ind ++ String g gs) = true) by (apply all_ws_app; auto).
    exists (String c_nl (ind ++ String g gs)), (String c_nl (ind ++ String g gs)), (String c_nl ind), " ".
    repeat split; first [exact Hig | exact Hi].
Qed.

(** What the round trip proves for one value. *)
Definition rt_js (v : jsval) : Prop :=
  forall gap ind n rest, all_ws gap = true -> all_ws ind = true -> wf_js v = true ->
    (jsize_js v <= n)%nat -> no_num_head rest = true ->
    pval_js n (ser_js gap ind v ++ rest) = Some (jsclean v, rest).

Lemma pelems_js_step_comma (n : nat) (s : string) (v : jsval) (r0 r1 : string) acc :
  pval_js n s = Some (v, r0) -> skip_ws r0 = String "," r1 ->
  pelems_js (S n) s acc = pelems_js n r1 (acc ++ [v])%list.
Proof. intros H1 H2. rewrite pelems_js_S, H1, H2. reflexivity. Qed.

Lemma pelems_js_step_close (n : nat) (s : string) (v : jsval) (r0 r1 : string) acc :
  pval_js n s = Some (v, r0) -> skip_ws r0 = String "]" r1 ->
  pelems_js (S n) s acc = Some ((acc ++ [v])%list, r1).
Proof. intros H1 H2. rewrite pelems_js_S, H1, H2. reflexivity. Qed.

Lemma pmembers_js_step_comma (n : nat) (r : string) (k : string) (v : jsval) (r1 r2 r3 r4 : string) acc :
  pstring r = Some (k, r1) -> skip_ws r1 = String ":" r2 -> pval_js n r2 = Some (v, r3) ->
  skip_ws r3 = String "," r4 ->
  pmembers_js (S n) (String c_quote r) acc = pmembers_js n r4 (create_data_property acc k v).
Proof. intros H1 H2 H3 H4. rewrite pmembers_js_quote, H1, H2, H3, H4. reflexivity. Qed.

Lemma pmembers_js_step_close (n : nat) (r : string) (k : string) (v : jsval) (r1 r2 r3 r4 : string) acc :
  pstring r = Some (k, r1) -> skip_ws r1 = String ":" r2 -> pval_js n r2 = Some (v, r3) ->
  skip_ws r3 = String "}" r4 ->
  pmembers_js (S n) (String c_quote r) acc = Some (create_data_property acc k v, r4).
Proof. intros H1 H2 H3 H4. rewrite pmembers_js_quote, H1, H2, H3, H4. reflexivity. Qed.

Lemma pelems_js_ser (gap ind w2 w3 : string) (xs : list jsval) :
  all_ws gap = true -> all_ws ind = true -> all_ws w2 = true -> all_ws w3 = true ->
  Forall rt_js xs -> xs <> [] -> forallb wf_js xs = true ->
  forall n acc rest, (fold_right (fun x acc => S (jsize_js x + acc)) 0%nat xs <= n)%nat ->
    no_num_head rest = true ->
    pelems_js n (join ("," ++ w2) (map (ser_js gap ind) xs) ++ w3 ++ "]" ++ rest) acc
    = Some ((acc ++ map jsclean xs)%list, rest).
Proof.
  intros Hg Hi H2 H3 HF. induction HF as [| x xs Hx HF IH]; intros Hne Hwf n acc rest Hn Hr;
    [congruence |].
  cbn [forallb] in Hwf. apply andb_true_iff in Hwf as [Hwx Hwxs].
  destruct n as [| n]; [cbn [fold_right] in Hn; lia |]. cbn [fold_right] in Hn.
  destruct xs as [| y ys].
  - cbn [map join].
    erewrite pelems_js_step_close;
      [reflexivity
      | apply (Hx gap ind n (w3 ++ "]" ++ rest));
        first [assumption | lia | apply no_num_head_ws; [assumption | reflexivity]]
      | rewrite skip_ws_all_ws by exact H3; reflexivity].
  - change (join ("," ++ w2) (map (ser_js gap ind) (x :: y :: ys)))
      with (ser_js gap ind x ++ ("," ++ w2) ++ join ("," ++ w2) (map (ser_js gap ind) (y :: ys))).
    rewrite !append_assoc_str.
    erewrite pelems_js_step_comma;
      [| apply (Hx gap ind n); first [assumption | lia | reflexivity] | reflexivity].
    rewrite pelems_js_ws by exact H2.
    rewrite IH by first [assumption | congruence | cbn [fold_right] in Hn |- *; lia].
    rewrite <- app_assoc. reflexivity.
Qed.

Lemma map_fst_clean (ps : list (string * jsval)) :
  map fst (map (fun kv => (fst kv, jsclean (snd kv))) ps) = map fst ps.
Proof. rewrite map_map. reflexivity. Qed.

Lemma pmembers_js_ser (gap ind wc w2 w3 : string) (ps : list (string * jsval)) :
  all_ws gap = true -> all_ws ind = true -> all_ws wc = true -> all_ws w2 = true -> all_ws w3 = true ->
  Forall (fun kv => rt_js (snd kv)) ps -> ps <> [] ->
  forallb (fun kv => String.eqb (wtf8_canon (fst kv)) (fst kv)) ps = true ->
  forallb (fun kv => wf_js (snd kv)) ps = true ->
  forall n acc rest, ordered_keys (map fst acc ++ map fst ps)%list = true ->
    (fold_right (fun kv acc => S (jsize_js (snd kv) + acc)) 0%nat ps <= n)%nat ->
    no_num_head rest = true ->
    pmembers_js n (join ("," ++ w2) (map (fun kv => quote_js (fst kv) ++ ":" ++ wc ++ ser_js gap ind (snd kv)) ps)
                ++ w3 ++ "}" ++ rest) acc
    = Some ((acc ++ map (fun kv => (fst kv, jsclean (snd kv))) ps)%list, rest).
Proof.
  intros Hg Hi Hc H2 H3 HF. induction HF as [| [k v] ps Hx HF IH];
    intros Hne Hcan Hwf n acc rest Hord Hn Hr; [congruence |].
  cbn [forallb snd fst] in Hwf, Hcan. apply andb_true_iff in Hwf as [Hwx Hwps].
  apply andb_true_iff in Hcan as [Hck Hcps]. apply String.eqb_eq in Hck.
  cbn [snd] in Hx.
  destruct n as [| n]; [cbn [fold_right] in Hn; lia |]. cbn [fold_right snd] in Hn.
  assert (Hnew : create_data_property acc k (jsclean v) = (acc ++ [(k, jsclean v)])%list).
  { apply create_data_property_append. cbn [map fst] in Hord.
    apply (ordered_keys_prefix _ (map fst ps)). rewrite <- app_assoc. exact Hord. }
  destruct ps as [| kv2 ps].
  - cbn [map join fst snd]. rewrite !append_assoc_str, quote_js_app.
    erewrite pmembers_js_step_close;
      [rewrite Hnew; reflexivity
      | rewrite pstring_quote, Hck; reflexivity
      | reflexivity
      | rewrite pval_js_ws by exact Hc; apply (Hx gap ind n (w3 ++ "}" ++ rest));
        first [assumption | lia | apply no_num_head_ws; [assumption | reflexivity]]
      | rewrite skip_ws_all_ws by exact H3; reflexivity].
  - set (f := fun kv : string * jsval => quote_js (fst kv) ++ ":" ++ wc ++ ser_js gap ind (snd kv)).
    change (join ("," ++ w2) (map f ((k, v) :: kv2 :: ps)))
      with (f (k, v) ++ ("," ++ w2) ++ join ("," ++ w2) (map f (kv2 :: ps))).
    unfold f at 1. cbn [fst snd].
    rewrite !append_assoc_str, quote_js_app.
    erewrite pmembers_js_step_comma;
      [| rewrite pstring_quote, Hck; reflexivity
       | reflexivity
       | rewrite pval_js_ws by exact Hc; apply (Hx gap ind n); first [assumption | lia | reflexivity]
       | reflexivity].
    rewrite pmembers_js_ws by exact H2. rewrite Hnew.
    rewrite IH by first [assumption | congruence
                        | rewrite map_app, <- app_assoc; exact Hord
                        | cbn [fold_right] in Hn |- *; lia].
    rewrite <- app_assoc. reflexivity.
Qed.

Lemma join_head_js (w2 p : string) (ps : list string) (tail : string) :
  no_num_head tail = true ->
  exists t, join ("," ++ w2) (p :: ps) ++ tail = p ++ t /\ no_num_head t = true.
Proof.
  intros Ht. destruct ps as [| q ps].
  - exists tail. split; [reflexivity | exact Ht].
  - exists (("," ++ w2) ++ join ("," ++ w2) (q :: ps) ++ tail). split; [| reflexivity].
    change (join ("," ++ w2) (p :: q :: ps)) with (p ++ ("," ++ w2) ++ join ("," ++ w2) (q :: ps)).
    now rewrite !append_assoc_str.
Qed.

Lemma ser_js_roundtrip (v : jsval) : rt_js v.
Proof.
  induction v using jsval_ind'; intros gap ind n rest Hg Hi Hw Hn Hr;
    (destruct n as [| n]; [cbn [jsize_js] in Hn; lia |]).
  - transitivity (option_map (fun r' => (VNull, r')) (strip_prefix "ull" ("ull" ++ rest)));
      [reflexivity | now rewrite strip_prefix_app].
  - destruct b.
    + transitivity (option_map (fun r' => (VBool true, r')) (strip_prefix "rue" ("rue" ++ rest)));
        [reflexivity | now rewrite strip_prefix_app].
    + transitivity (option_map (fun r' => (VBool false, r')) (strip_prefix "alse" ("alse" ++ rest)));
        [reflexivity | now rewrite strip_prefix_app].
  - cbn [wf_js num_ok] in Hw. destruct x as [neg | neg | | neg m e].
    + apply pval_js_number, pnumber_zero, Hr.
    + transitivity (option_map (fun r' => (VNull, r')) (strip_prefix "ull" ("ull" ++ rest)));
        [reflexivity | now rewrite strip_prefix_app].
    + transitivity (option_map (fun r' => (VNull, r')) (strip_prefix "ull" ("ull" ++ rest)));
        [reflexivity | now rewrite strip_prefix_app].
    + apply pval_js_number, pnumber_json_number; assumption.
  - cbn [wf_js] in Hw. apply String.eqb_eq in Hw.
    change (ser_js gap ind (VStr s) ++ rest) with (quote_js s ++ rest).
    rewrite quote_js_app, pval_js_quote, pstring_quote, Hw. reflexivity.
  - destruct xs as [| x xs]; [reflexivity |].
    destruct (ser_js_arr_shape gap ind x xs Hg Hi) as (w1 & w2 & w3 & H1 & H2 & H3 & E).
    assert (Hgi : all_ws (ind ++ gap) = true) by (apply all_ws_app; assumption).
    cbn [wf_js] in Hw. cbn [jsize_js fold_right] in Hn.
    rewrite E, !append_assoc_str. change ("[" ++ ?X) with (String "[" X).
    rewrite pval_js_arr.
    + rewrite pelems_js_skip, pelems_js_ws by exact H1.
      rewrite (pelems_js_ser gap (ind ++ gap) w2 w3 (x :: xs))
        by first [assumption | congruence | cbn [fold_right]; lia].
      reflexivity.
    + rewrite skip_ws_all_ws by exact H1.
      destruct (join_head_js w2 (ser_js gap (ind ++ gap) x) (map (ser_js gap (ind ++ gap)) xs) (w3 ++ "]" ++ rest))
        as (t & Et & Ht); [apply no_num_head_ws; [exact H3 | reflexivity] |].
      cbn [map]. rewrite Et.
      inversion H as [| ? ? Hx _]; subst.
      cbn [forallb] in Hw. apply andb_true_iff in Hw as [Hwx _].
      destruct n as [| k]; [lia |].
      eapply (pval_js_not_close k). apply (Hx gap (ind ++ gap)); first [assumption | lia].
  - destruct ps as [| kv ps]; [reflexivity |].
    destruct (ser_js_obj_shape gap ind kv ps Hg Hi) as (w1 & w2 & w3 & wc & H1 & H2 & H3 & Hc & E).
    assert (Hgi : all_ws (ind ++ gap) = true) by (apply all_ws_app; assumption).
    cbn [wf_js] in Hw. apply andb_true_iff in Hw as [Hw Hwps]. apply andb_true_iff in Hw as [Hord Hcan].
    cbn [jsize_js fold_right] in Hn.
    rewrite E, !append_assoc_str. change ("{" ++ ?X) with (String "{" X).
    rewrite pval_js_obj.
    + rewrite pmembers_js_skip, pmembers_js_ws by exact H1.
      rewrite (pmembers_js_ser gap (ind ++ gap) wc w2 w3 (kv :: ps))
        by first [assumption | congruence | cbn [fold_right]; lia].
      reflexivity.
    + rewrite skip_ws_all_ws by exact H1.
      destruct (join_head_js w2 (quote_js (fst kv) ++ ":" ++ wc ++ ser_js gap (ind ++ gap) (snd kv))
                  (map (fun kv => quote_js (fst kv) ++ ":" ++ wc ++ ser_js gap (ind ++ gap) (snd kv)) ps)
                  (w3 ++ "}" ++ rest))
        as (t & Et & _); [apply no_num_head_ws; [exact H3 | reflexivity] |].
      cbn [map]. rewrite Et, append_assoc_str, quote_js_app.
      intros r' E'. discriminate E'.
Qed.


Lemma json_number_nonempty (x : spec_float) : num_ok x = true -> (1 <= String.length (json_number x))%nat.
Proof.
  destruct x as [neg | neg | | neg m e]; cbn [num_ok]; intros Hb; [cbn; lia | cbn; lia | cbn; lia |].
  assert (H := pnumber_json_number neg m e "" Hb eq_refl). rewrite append_empty_r_str in H.
  destruct (json_number (S754_finite neg m e)); [discriminate H | cbn; lia].
Qed.

Lemma jsize_ser_js (v : jsval) :
  forall gap ind, all_ws gap = true -> all_ws ind = true -> wf_js v = true ->
    (jsize_js v <= String.length (ser_js gap ind v))%nat.
Proof.
  induction v using jsval_ind'; intros gap ind Hg Hi Hw.
  - cbn. lia.
  - destruct b; cbn; lia.
  - cbn [ser_js jsize_js]. apply json_number_nonempty, Hw.
  - cbn [ser_js jsize_js]. unfold quote_js. cbn. lia.
  - destruct xs as [| x xs]; [cbn; lia |].
    destruct (ser_js_arr_shape gap ind x xs Hg Hi) as (w1 & w2 & w3 & H1 & H2 & H3 & E).
    rewrite E, !length_app_str. cbn [jsize_js]. cbn [wf_js] in Hw.
    assert (Hb : (fold_right (fun x acc => S (jsize_js x + acc)) 0%nat (x :: xs)
                  <= S (String.length (join ("," ++ w2) (map (ser_js gap (ind ++ gap)) (x :: xs)))))%nat).
    { apply join_len_bound; [cbn; lia | congruence |].
      assert (Hgi : all_ws (ind ++ gap) = true) by (apply all_ws_app; assumption).
      clear E. induction H as [| y ys Hy _ IHys]; constructor;
        cbn [forallb] in Hw; apply andb_true_iff in Hw as [Hy1 Hy2];
        [apply Hy; assumption | exact (IHys Hy2)]. }
    cbn [String.length] in *. lia.
  - destruct ps as [| kv ps]; [cbn; lia |].
    destruct (ser_js_obj_shape gap ind kv ps Hg Hi) as (w1 & w2 & w3 & wc & H1 & H2 & H3 & Hc & E).
    rewrite E, !length_app_str. cbn [jsize_js]. cbn [wf_js] in Hw. apply andb_true_iff in Hw as [_ Hw].
    assert (Hb : (fold_right (fun kv acc => S (jsize_js (snd kv) + acc)) 0%nat (kv :: ps)
                  <= S (String.length (join ("," ++ w2)
                        (map (fun kv => quote_js (fst kv) ++ ":" ++ wc ++ ser_js gap (ind ++ gap) (snd kv))
                             (kv :: ps)))))%nat).
    { apply (join_len_bound _ _ (fun kv => jsize_js (snd kv))); [cbn; lia | congruence |].
      assert (Hgi : all_ws (ind ++ gap) = true) by (apply all_ws_app; assumption).
      clear E. induction H as [| y ys Hy _ IHys]; constructor;
        cbn [forallb] in Hw; apply andb_true_iff in Hw as [Hy1 Hy2]; [| exact (IHys Hy2)].
      rewrite !length_app_str. specialize (Hy gap (ind ++ gap) Hg Hgi Hy1). lia. }
    cbn [String.length] in *. lia.
Qed.

(** [JSON.parse(JSON.stringify(v, null, 2))] is [v] with [-0] written
    as [0] and [NaN] and the infinities as [null]. *)
Lemma parse_js_stringify (v : jsval) : wf_js v = true -> json_parse (stringify_js v) = Some (jsclean v).
Proof.
  intros Hw. unfold json_parse, stringify_js.
  pose proof (jsize_ser_js v "  " "" eq_refl eq_refl Hw) as Hl.
  assert (H := ser_js_roundtrip v "  " "" (S (String.length (ser_js "  " "" v))) "" eq_refl eq_refl Hw
                 ltac:(lia) eq_refl).
  rewrite append_empty_r_str in H. rewrite H. reflexivity.
Qed.

(** A value with no number that [JSON.stringify] does not write as
    itself: no [NaN], no infinity, no [-0]. *)
Fixpoint js_plain (v : jsval) : bool :=
  match v with
  | VNum (S754_finite _ _ _) => true
  | VNum (S754_zero neg) => negb neg
  | VNum _ => false
  | VArr xs => forallb js_plain xs
  | VObj ps => forallb (fun kv => js_plain (snd kv)) ps
  | _ => true
  end.

Lemma jsclean_plain (v : jsval) : js_plain v = true -> jsclean v = v.
Proof.
  induction v using jsval_ind'; intros Hp; try reflexivity.
  - destruct x as [[] | | |]; cbn in Hp |- *; first [reflexivity | discriminate Hp].
  - cbn [jsclean]. f_equal. cbn [js_plain] in Hp.
    induction H as [| x xs Hx _ IH]; [reflexivity |].
    cbn [forallb] in Hp. apply andb_true_iff in Hp as [H1 H2].
    cbn [map]. rewrite (Hx H1), (IH H2). reflexivity.
  - cbn [jsclean]. f_equal. cbn [js_plain] in Hp.
    induction H as [| [k x] ps Hx _ IH]; [reflexivity |].
    cbn [forallb snd] in Hp. apply andb_true_iff in Hp as [H1 H2].
    cbn [map fst snd] in Hx |- *. rewrite (Hx H1), (IH H2). reflexivity.
Qed.

(* ----------------------------------------------------------------- *)
(** *** What [JSON.parse] produces *)

Lemma span_digits_all (s d r : string) : span_digits s = (d, r) -> all_digits d = true.
Proof.
  revert d r. induction s as [| c s IH]; intros d r H; cbn [span_digits] in H.
  - injection H as <- _. reflexivity.
  - destruct (is_digit c) eqn:Hc.
    + destruct (span_digits s) as [d' r'] eqn:E. injection H as <- _.
      cbn [all_digits]. rewrite Hc. exact (IH _ _ eq_refl).
    + injection H as <- _. reflexivity.
Qed.

Lemma lex_frac_all (s d r : string) : lex_frac s = Some (d, r) -> all_digits d = true.
Proof.
  unfold lex_frac. destruct s as [| c s]; [intros H; injection H as <- _; reflexivity |].
  destruct (Ascii.eqb c "."); [| intros H; injection H as <- _; reflexivity].
  destruct (span_digits s) as [d' r'] eqn:E. destruct (String.eqb d' ""); [discriminate |].
  intros H. injection H as <- _. exact (span_digits_all _ _ _ E).
Qed.

Lemma pnumber_ok (s : string) (x : spec_float) (r : string) : pnumber s = Some (x, r) -> num_ok x = true.
Proof.
  unfold pnumber. destruct (lex_sign s) as [neg s1].
  destruct (span_digits s1) as [di s2] eqn:Ed.
  destruct (String.eqb di "" || leading_zero di); [discriminate |].
  destruct (lex_frac s2) as [[df s3] |] eqn:Ef; [| discriminate].
  destruct (lex_exp s3) as [[ex s4] |]; [| discriminate].
  intros H. injection H as <- _. apply decimal_to_double_ok.
  apply digits_value_acc_nonneg; [lia |].
  rewrite all_digits_app, (span_digits_all _ _ _ Ed), (lex_frac_all _ _ _ Ef). reflexivity.
Qed.

Lemma pstring_canon (s t r : string) : pstring s = Some (t, r) -> String.eqb (wtf8_canon t) t = true.
Proof.
  unfold pstring. destruct (pstr_js s) as [[t0 r0] |]; [| discriminate].
  intros H. injection H as <- _. apply String.eqb_eq, wtf8_canon_idem.
Qed.

Lemma obj_set_in {A : Type} (acc : list (string * A)) (k : string) (v : A) (kv : string * A) :
  In kv (obj_set acc k v) -> kv = (k, v) \/ In kv acc.
Proof.
  induction acc as [| [k' v'] acc IH]; cbn [obj_set].
  - intros [<- | []]. left; reflexivity.
  - destruct (String.eqb k k').
    + intros [<- | Hin]; [left; reflexivity | right; right; exact Hin].
    + intros [<- | Hin]; [right; left; reflexivity |].
      destruct (IH Hin) as [E | E]; [left; exact E | right; right; exact E].
Qed.

Lemma insert_index_in {A : Type} (acc : list (string * A)) (k : string) (i : Z) (v : A) (kv : string * A) :
  In kv (insert_index acc k i v) -> kv = (k, v) \/ In kv acc.
Proof.
  induction acc as [| [k' v'] acc IH]; cbn [insert_index].
  - intros [<- | []]. left; reflexivity.
  - destruct (array_index k') as [i' |]; [destruct (i <? i')%Z |].
    + intros [<- | Hin]; [left; reflexivity | right; exact Hin].
    + intros [<- | Hin]; [right; left; reflexivity |].
      destruct (IH Hin) as [E | E]; [left; exact E | right; right; exact E].
    + intros [<- | Hin]; [left; reflexivity | right; exact Hin].
Qed.

Lemma create_data_property_in {A : Type} (acc : list (string * A)) (k : string) (v : A) (kv : string * A) :
  In kv (create_data_property acc k v) -> kv = (k, v) \/ In kv acc.
Proof.
  unfold create_data_property. destruct (existsb _ acc); [apply obj_set_in |].
  destruct (array_index k) as [i |]; [apply insert_index_in |].
  intros Hin. apply in_app_or in Hin as [Hin | [<- | []]]; [right; exact Hin | left; reflexivity].
Qed.

Lemma forallb_create_data_property {A : Type} (P : string * A -> bool) (acc : list (string * A))
    (k : string) (v : A) :
  forallb P acc = true -> P (k, v) = true -> forallb P (create_data_property acc k v) = true.
Proof.
  intros Hacc Hkv. apply forallb_forall. intros kv Hin.
  destruct (create_data_property_in acc k v kv Hin) as [-> | Hin']; [exact Hkv |].
  exact (proj1 (forallb_forall _ _) Hacc kv Hin').
Qed.

(** The members of an object [JSON.parse] can build. *)
Definition wf_members (ps : list (string * jsval)) : bool :=
  ordered_keys (map fst ps) && forallb (fun kv => String.eqb (wtf8_canon (fst kv)) (fst kv)) ps
  && forallb (fun kv => wf_js (snd kv)) ps.

Lemma wf_members_cdp (acc : list (string * jsval)) (k : string) (v : jsval) :
  wf_members acc = true -> String.eqb (wtf8_canon k) k = true -> wf_js v = true ->
  wf_members (create_data_property acc k v) = true.
Proof.
  unfold wf_members. intros H Hk Hv. apply andb_true_iff in H as [H H3]. apply andb_true_iff in H as [H1 H2].
  rewrite (create_data_property_ordered _ _ _ H1).
  rewrite (forallb_create_data_property (fun kv => String.eqb (wtf8_canon (fst kv)) (fst kv)) _ _ _ H2 Hk).
  rewrite (forallb_create_data_property (fun kv => wf_js (snd kv)) _ _ _ H3 Hv).
  reflexivity.
Qed.

Lemma json_parse_wf_fuel (n : nat) :
  (forall s v r, pval_js n s = Some (v, r) -> wf_js v = true)
  /\ (forall s acc xs r, pelems_js n s acc = Some (xs, r) -> forallb wf_js acc = true ->
        forallb wf_js xs = true)
  /\ (forall s acc ps r, pmembers_js n s acc = Some (ps, r) -> wf_members acc = true ->
        wf_members ps = true).
Proof.
  induction n as [| n [IHv [IHe IHm]]]; [repeat split; intros; discriminate |].
  split; [| split].
  - intros s v r H. cbn [pval_js] in H. destruct (skip_ws s) as [| c r0]; [discriminate |].
    destruct (Ascii.eqb c "n");
      [destruct (strip_prefix _ r0); cbn in H; [injection H as <- _; reflexivity | discriminate] |].
    destruct (Ascii.eqb c "t");
      [destruct (strip_prefix _ r0); cbn in H; [injection H as <- _; reflexivity | discriminate] |].
    destruct (Ascii.eqb c "f");
      [destruct (strip_prefix _ r0); cbn in H; [injection H as <- _; reflexivity | discriminate] |].
    destruct (Ascii.eqb c c_quote).
    { destruct (pstring r0) as [[t r'] |] eqn:E; [| discriminate].
      injection H as <- _. exact (pstring_canon _ _ _ E). }
    destruct (Ascii.eqb c "[").
    { destruct (skip_ws r0) as [| c1 r1];
        [| destruct c1 as [[] [] [] [] [] [] [] []]]; cbv beta iota in H;
        first [ injection H as <- _; reflexivity
              | destruct (pelems_js n _ []) as [[xs r']|] eqn:E;
                [injection H as <- _; exact (IHe _ _ _ _ E eq_refl) | discriminate H] ]. }
    destruct (Ascii.eqb c "{").
    { destruct (skip_ws r0) as [| c1 r1];
        [| destruct c1 as [[] [] [] [] [] [] [] []]]; cbv beta iota in H;
        first [ injection H as <- _; reflexivity
              | destruct (pmembers_js n _ []) as [[ps r']|] eqn:E;
                [injection H as <- _; exact (IHm _ _ _ _ E eq_refl) | discriminate H] ]. }
    destruct (Ascii.eqb c "-" || is_digit c); [| discriminate].
    destruct (pnumber (String c r0)) as [[x r'] |] eqn:E; [| discriminate].
    injection H as <- _. exact (pnumber_ok _ _ _ E).
  - intros s acc xs r H Hacc. rewrite pelems_js_S in H.
    destruct (pval_js n s) as [[v r0]|] eqn:E1; [| discriminate].
    assert (Hacc' : forallb wf_js (acc ++ [v])%list = true)
      by (rewrite forallb_app; cbn; now rewrite Hacc, (IHv _ _ _ E1)).
    destruct (skip_ws r0) as [| c r']; [discriminate |].
    destruct (Ascii.eqb c ","); [exact (IHe _ _ _ _ H Hacc') |].
    destruct (Ascii.eqb c "]"); [injection H as <- _; exact Hacc' | discriminate].
  - intros s acc ps r H Hacc. cbn [pmembers_js] in H.
    destruct (skip_ws s) as [| c r0]; [discriminate |].
    destruct (Ascii.eqb c c_quote); [| discriminate].
    destruct (pstring r0) as [[k r1]|] eqn:Ek; [| discriminate].
    destruct (skip_ws r1) as [| c1 r2]; [discriminate |].
    destruct c1 as [[] [] [] [] [] [] [] []]; cbv beta iota in H; try discriminate H.
    destruct (pval_js n r2) as [[v r3]|] eqn:E1; [| discriminate].
    assert (Hacc' := wf_members_cdp acc k v Hacc (pstring_canon _ _ _ Ek) (IHv _ _ _ E1)).
    destruct (skip_ws r3) as [| c' r4]; [discriminate |].
    destruct (Ascii.eqb c' ","); [exact (IHm _ _ _ _ H Hacc') |].
    destruct (Ascii.eqb c' "}"); [injection H as <- _; exact Hacc' | discriminate].
Qed.

(** Every value [JSON.parse] returns is well formed. *)
Lemma json_parse_wf (text : string) (v : jsval) : json_parse text = Some v -> wf_js v = true.
Proof.
  unfold json_parse. destruct (pval_js _ text) as [[v' r]|] eqn:E; [| discriminate].
  destruct (skip_ws r); [| discriminate]. intros H; injection H as <-.
  exact (proj1 (json_parse_wf_fuel _) _ _ _ E).
Qed.


(* ================================================================= *)
(** ** Claims *)

(** C1: every invocation of every tool, whatever its (schema-accepted)
    arguments and whatever the network does, returns exactly one envelope
    and throws nothing: a success envelope when [api] returns, an error
    envelope when anything in it throws (transport failure, non-2xx
    status, a body [res.json()] rejects); either carries one text item. *)
Theorem handle_returns_one_envelope :
  forall (net : network) (cfg : config) (call : tool_call),
    exists env,
      handle net cfg call = Ok env
      /\ length (content env) = 1%nat
      /\ env = match api net cfg (tool_path call) (tool_options call) with
               | Ok data => toolResult data
               | Throw err => toolError err
               end.
Proof.
  intros net cfg call. unfold handle, try_catch, bind, ret.
  destruct (api net cfg (tool_path call) (tool_options call)) as [data | err].
  - exists (toolResult data). repeat split.
  - exists (toolError err). repeat split.
Qed.

(** C2: when the endpoint answers any tool's request with a non-2xx
    status [S] and body [B], the invocation yields an error envelope whose
    text is [Error: API S: B], so it contains both [S] and [B]. *)
Theorem non_2xx_error_envelope :
  forall (net : network) (cfg : config) (call : tool_call) (S : Z) (B : string),
    net (tool_request cfg call) = Response S B ->
    res_ok S = false ->
    exists env,
      handle net cfg call = Ok env
      /\ isError env = Some true
      /\ envelope_texts env = ["Error: API " ++ num_to_string S ++ ": " ++ B]
      /\ contains (ci_text (hd {| ci_type := ""; ci_text := "" |} (content env))) (num_to_string S)
      /\ contains (ci_text (hd {| ci_type := ""; ci_text := "" |} (content env))) B.
Proof.
  intros net cfg call S B Hnet Hok.
  unfold handle, try_catch, bind, ret, api. unfold tool_request in Hnet. rewrite Hnet.
  simpl. rewrite Hok.
  eexists. split; [reflexivity |]. simpl. repeat split.
  - exists "Error: API ", (": " ++ B). reflexivity.
  - exists ("Error: API " ++ num_to_string S ++ ": "), "".
    rewrite !append_assoc_str. simpl. now rewrite append_empty_r_str.
Qed.

Lemma non_2xx_error_envelope_witness :
  let net := fun _ : request => Response 404 "not found" in
  let cfg := config_of_env None None None in
  net (tool_request cfg (get_assignment "abraham-lincoln")) = Response 404 "not found"
  /\ res_ok 404 = false
  /\ exists env,
      handle net cfg (get_assignment "abraham-lincoln") = Ok env
      /\ isError env = Some true
      /\ envelope_texts env = ["Error: API " ++ num_to_string 404 ++ ": " ++ "not found"]
      /\ contains (ci_text (hd {| ci_type := ""; ci_text := "" |} (content env))) (num_to_string 404)
      /\ contains (ci_text (hd {| ci_type := ""; ci_text := "" |} (content env))) "not found".
Proof.
  intros net cfg. split; [reflexivity |]. split; [reflexivity |].
  apply (non_2xx_error_envelope net cfg (get_assignment "abraham-lincoln") 404 "not found");
    reflexivity.
Defined.

(** C3 (corrected): when the endpoint answers any tool's request with a
    2xx status and a body whose text [T] parses ([JSON.parse]) to the
    value [B], the invocation yields a success envelope (no [isError])
    with one text item, [JSON.stringify(B, null, 2)].  Parsing that text
    gives [B] back up to [jsclean]: a number that is [NaN] or infinite
    (such as the literal [1e400]) comes back as [null], and [-0] as [0];
    a [B] without such numbers ([js_plain]) comes back unchanged. *)
Theorem success_envelope_roundtrip :
  forall (net : network) (cfg : config) (call : tool_call) (S : Z) (T : string) (B : jsval),
    net (tool_request cfg call) = Response S T ->
    res_ok S = true ->
    json_parse T = Some B ->
    exists env,
      handle net cfg call = Ok env
      /\ isError env = None
      /\ envelope_texts env = [stringify_js B]
      /\ json_parse (stringify_js B) = Some (jsclean B)
      /\ (js_plain B = true -> json_parse (stringify_js B) = Some B).
Proof.
  intros net cfg call S T B Hnet Hok Hp.
  unfold handle, try_catch, bind, ret, api. unfold tool_request in Hnet. rewrite Hnet.
  cbn [api_response]. rewrite Hok, Hp.
  assert (Hrt := parse_js_stringify B (json_parse_wf T B Hp)).
  eexists. split; [reflexivity |]. split; [reflexivity |]. split; [reflexivity |].
  split; [exact Hrt |]. intros Hpl. rewrite Hrt, (jsclean_plain B Hpl). reflexivity.
Qed.

Lemma success_envelope_roundtrip_witness :
  let q := chr c_quote in
  let T := "{" ++ q ++ "b" ++ q ++ ": 1.5, " ++ q ++ "2" ++ q ++ ": [" ++ q ++ String c_bslash "ud83d" ++ q
           ++ ", -0.25e1], " ++ q ++ "1" ++ q ++ ": 1e21}" in
  let B := VObj [("1", VNum (S754_finite false 7629394531250000 17));
                 ("2", VArr [VStr (String "237" (String "160" (String "189" "")));
                             VNum (S754_finite true 5629499534213120 (-51))]);
                 ("b", VNum (S754_finite false 6755399441055744 (-52)))] in
  let net := fun _ : request => Response 200 T in
  let cfg := config_of_env None None None in
  net (tool_request cfg (leaderboard (Some 5))) = Response 200 T
  /\ res_ok 200 = true
  /\ json_parse T = Some B
  /\ exists env,
      handle net cfg (leaderboard (Some 5)) = Ok env
      /\ isError env = None
      /\ envelope_texts env = [stringify_js B]
      /\ json_parse (stringify_js B) = Some (jsclean B)
      /\ (js_plain B = true -> json_parse (stringify_js B) = Some B).
Proof.
  intros q T B net cfg. split; [reflexivity |]. split; [reflexivity |]. split; [vm_compute; reflexivity |].
  apply (success_envelope_roundtrip net cfg (leaderboard (Some 5)) 200 T B);
    [reflexivity | reflexivity | vm_compute; reflexivity].
Defined.

(** C3, counterexample: a 2xx body [1e400] parses to [Infinity], which
    the envelope's text writes as [null]; that text parses to [null], not
    to the value the body parsed to. *)
Lemma success_payload_infinity_null :
  let net := fun _ : request => Response 200 "1e400" in
  let cfg := config_of_env None None None in
  json_parse "1e400" = Some (VNum (S754_infinity false))
  /\ handle net cfg (leaderboard None) = Ok (toolResult (VNum (S754_infinity false)))
  /\ envelope_texts (toolResult (VNum (S754_infinity false))) = ["null"]
  /\ json_parse "null" = Some VNull
  /\ VNull <> VNum (S754_infinity false).
Proof.
  intros net cfg. split; [vm_compute; reflexivity |].
  split; [vm_compute; reflexivity |]. split; [reflexivity |]. split; [reflexivity | discriminate].
Qed.

(** C6: [submit_contribution] with [scene_id = 0] sends no [scene_id]:
    the body object has no such key and the request body is the one of
    the same call with [scene_id] left out ([if (scene_id)] is a
    truthiness test). *)
Theorem scene_id_zero_omitted :
  forall (cfg : config) (slug type content : string) (source_url liberty_note : option string),
    ~ In "scene_id" (map fst (contribution_body type content source_url (Some 0) liberty_note))
    /\ req_body (tool_request cfg (submit_contribution slug type content source_url (Some 0) liberty_note))
       = req_body (tool_request cfg (submit_contribution slug type content source_url None liberty_note)).
Proof.
  intros cfg slug type content su ln. split.
  - unfold contribution_body. simpl.
    destruct su as [u |]; [destruct (truthy u) |]; destruct ln as [l |]; try destruct (truthy l);
      simpl; intuition discriminate.
  - reflexivity.
Qed.

(** C7: with only [slug], [type] and [content], the JSON body is exactly
    [{"type": type, "content": content}]; each optional field is in the
    body exactly when it was given a truthy value (non-empty string,
    non-zero number). *)
Theorem contribution_body_fields :
  forall (cfg : config) (slug type content : string),
    contribution_body type content None None None = [("type", JStr type); ("content", JStr content)]
    /\ req_body (tool_request cfg (submit_contribution slug type content None None None))
       = Some (stringify (JObj [("type", JStr type); ("content", JStr content)]))
    /\ forall source_url scene_id liberty_note,
        let keys := map fst (contribution_body type content source_url scene_id liberty_note) in
        (In "source_url" keys <-> str_given source_url = true)
        /\ (In "scene_id" keys <-> num_given scene_id = true)
        /\ (In "liberty_note" keys <-> str_given liberty_note = true)
        /\ lookup "type" (contribution_body type content source_url scene_id liberty_note) = Some (JStr type)
        /\ lookup "content" (contribution_body type content source_url scene_id liberty_note)
           = Some (JStr content).
Proof.
  intros cfg slug type content. split; [reflexivity |]. split; [reflexivity |].
  intros su sid ln. unfold contribution_body, str_given, num_given.
  destruct su as [u |]; [destruct (truthy u) |]; destruct sid as [n |];
    try destruct (n =? 0)%Z; destruct ln as [l |]; try destruct (truthy l);
    simpl; intuition discriminate.
Qed.

(** C8 (as stated): the registry does not declare nine tools. *)
Lemma registry_not_nine : length registry <> 9%nat.
Proof. vm_compute. discriminate. Qed.

(** The name of a tool and, for each of its parameters in order, the
    parameter's name, zod type and whether it is [.optional()]. *)
Definition tool_shape (t : tool_desc) : string * list (string * param_type * bool) :=
  (t_name t, map (fun p => (p_name p, p_type p, p_optional p)) (t_params t)).

(** The query string a path ends with: none, or [?] followed by the query. *)
Definition query_suffix (qs : string) : Prop := qs = "" \/ exists q, qs = "?" ++ q.

(** C8 (amended): the registry declares exactly eight tools, with distinct
    names, each with a non-empty description and a typed parameter
    schema; their names, parameters, parameter types (strings, numbers,
    the enums [priority] in {high, medium, low} and [status] in {pending,
    approved, rejected, integrated, needs-revision}) and optionality are
    the eight rows of the spec's table, every tool a caller can invoke is
    one of them, and each tool sends the method and path of its row (the
    query tools' paths followed by nothing or by a [?] query). *)
Theorem registry_eight_tools :
  length registry = 8%nat
  /\ NoDup (map t_name registry)
  /\ Forall (fun t => truthy (t_description t) = true) registry
  /\ map tool_shape registry =
     [("get_assignment", [("slug", PString, false)]);
      ("submit_contribution", [("slug", PString, false); ("type", PString, false);
                               ("content", PString, false); ("source_url", PString, true);
                               ("scene_id", PNumber, true); ("liberty_note", PString, true)]);
      ("review_person", [("slug", PString, false)]);
      ("browse_people", [("q", PString, true); ("tag", PString, true);
                         ("page", PNumber, true); ("limit", PNumber, true)]);
      ("find_needs", [("priority", PEnum ["high"; "medium"; "low"], true);
                      ("tag", PString, true); ("limit", PNumber, true)]);
      ("my_contributions", [("status", PEnum ["pending"; "approved"; "rejected"; "integrated";
                                              "needs-revision"], true);
                            ("type", PString, true)]);
      ("leaderboard", [("limit", PNumber, true)]);
      ("check_confidence", [("slug", PString, false)])]
  /\ (forall call, In (tool_name call) (map t_name registry))
  /\ (forall cfg slug,
        req_method (tool_request cfg (get_assignment slug)) = "GET"
        /\ tool_path (get_assignment slug) = "/assignment/" ++ slug)
  /\ (forall cfg slug type content su sid ln,
        req_method (tool_request cfg (submit_contribution slug type content su sid ln)) = "POST"
        /\ tool_path (submit_contribution slug type content su sid ln) = "/contribute/" ++ slug)
  /\ (forall cfg slug,
        req_method (tool_request cfg (review_person slug)) = "GET"
        /\ tool_path (review_person slug) = "/review/" ++ slug)
  /\ (forall cfg q tag page limit,
        req_method (tool_request cfg (browse_people q tag page limit)) = "GET"
        /\ exists qs, tool_path (browse_people q tag page limit) = "/people" ++ qs /\ query_suffix qs)
  /\ (forall cfg pr tag limit,
        req_method (tool_request cfg (find_needs pr tag limit)) = "GET"
        /\ exists qs, tool_path (find_needs pr tag limit) = "/needs" ++ qs /\ query_suffix qs)
  /\ (forall cfg st ty,
        req_method (tool_request cfg (my_contributions st ty)) = "GET"
        /\ exists qs, tool_path (my_contributions st ty) = "/contributions" ++ qs /\ query_suffix qs)
  /\ (forall cfg limit,
        req_method (tool_request cfg (leaderboard limit)) = "GET"
        /\ exists qs, tool_path (leaderboard limit) = "/leaderboard" ++ qs /\ query_suffix qs)
  /\ (forall cfg slug,
        req_method (tool_request cfg (check_confidence slug)) = "GET"
        /\ tool_path (check_confidence slug) = "/confidence/" ++ slug).
Proof.
  assert (Hwq : forall base ps, exists qs, with_query base ps = base ++ qs /\ query_suffix qs).
  { intros base ps. unfold with_query, query_suffix.
    destruct (truthy (sp_to_string ps)).
    - eexists. split; [reflexivity |]. right. eexists. reflexivity.
    - eexists. split; [reflexivity |]. left. reflexivity. }
  split; [reflexivity |].
  split.
  { vm_compute.
    repeat (constructor; [simpl; intuition discriminate |]). constructor. }
  split.
  { repeat constructor. }
  split; [reflexivity |].
  split.
  { intros call. destruct call; simpl; tauto. }
  repeat split; try reflexivity; intros; try apply Hwq.
  simpl. destruct limit as [n |]; [destruct (n =? 0)%Z |].
  - exists "". split; [reflexivity | left; reflexivity].
  - eexists. split; [reflexivity | right; eexists; reflexivity].
  - exists "". split; [reflexivity | left; reflexivity].
Qed.

(** C9: the headers [fetch] gets.  The defaults always carry
    [X-Agent-Name: AGENT_NAME], carry [X-Model] exactly when a model name
    is configured and [Authorization: Bearer <token>] exactly when a token
    is; the caller's headers are spread last, so on a key they share the
    caller's (last) value wins and the default is kept otherwise.  The
    handlers pass no headers, so every request of every tool carries
    [X-Agent-Name: AGENT_NAME]. *)
Theorem request_headers :
  forall (cfg : config),
    lookup "X-Agent-Name" (default_headers cfg) = Some (AGENT_NAME cfg)
    /\ lookup "X-Model" (default_headers cfg)
       = (if truthy (MODEL_NAME cfg) then Some (MODEL_NAME cfg) else None)
    /\ lookup "Authorization" (default_headers cfg)
       = (if truthy (USER_TOKEN cfg) then Some ("Bearer " ++ USER_TOKEN cfg) else None)
    /\ (forall path options k,
          lookup k (req_headers (api_request cfg path options))
          = match lookup k (rev (caller_headers options)) with
            | Some v => Some v
            | None => lookup k (default_headers cfg)
            end)
    /\ (forall call,
          req_headers (tool_request cfg call) = default_headers cfg
          /\ lookup "X-Agent-Name" (req_headers (tool_request cfg call)) = Some (AGENT_NAME cfg)).
Proof.
  intros cfg.
  assert (Hagent : lookup "X-Agent-Name" (default_headers cfg) = Some (AGENT_NAME cfg)).
  { unfold default_headers.
    destruct (truthy (MODEL_NAME cfg)), (truthy (USER_TOKEN cfg));
      rewrite ?lookup_obj_set; reflexivity. }
  split; [exact Hagent |].
  split.
  { unfold default_headers.
    destruct (truthy (MODEL_NAME cfg)), (truthy (USER_TOKEN cfg));
      rewrite ?lookup_obj_set; reflexivity. }
  split.
  { unfold default_headers.
    destruct (truthy (MODEL_NAME cfg)), (truthy (USER_TOKEN cfg));
      rewrite ?lookup_obj_set; reflexivity. }
  split.
  { intros path options k. simpl. rewrite lookup_spread. reflexivity. }
  intros call.
  assert (Hh : req_headers (tool_request cfg call) = default_headers cfg)
    by (destruct call; reflexivity).
  split; [exact Hh | now rewrite Hh].
Qed.

(** C4 (as stated): with a bearer token configured, a slug passed
    unescaped into the path can still put an [agent=] query parameter in
    the URL [fetch] gets. *)
Lemma token_url_agent_param_from_slug :
  let cfg := {| AGENT_NAME := "mcp-agent"; MODEL_NAME := ""; USER_TOKEN := "jwt" |} in
  truthy (USER_TOKEN cfg) = true
  /\ req_url (tool_request cfg (get_assignment "x?agent=y"))
     = "https://api.biopics.ai/assignment/x?agent=y"
  /\ has_query_param (req_url (tool_request cfg (get_assignment "x?agent=y"))) "agent" = true.
Proof. vm_compute. repeat split. Qed.

(** C4 (amended): with a bearer token the client appends nothing (the URL
    is the base followed by the path unchanged), so the query tools' URLs
    carry no [agent] parameter; with no token it appends
    [agent=<AGENT_NAME>] after [&] when the path already has a [?] and
    after [?] otherwise. *)
Theorem api_url_agent_suffix :
  forall (cfg : config) (path : string),
    (truthy (USER_TOKEN cfg) = true -> api_url cfg path = API_BASE ++ path)
    /\ (truthy (USER_TOKEN cfg) = false ->
        api_url cfg path
        = API_BASE ++ path ++ (if has_char "?" path then "&" else "?") ++ "agent=" ++ AGENT_NAME cfg)
    /\ (forall call, truthy (USER_TOKEN cfg) = true -> is_query_tool call = true ->
          has_query_param (req_url (tool_request cfg call)) "agent" = false).
Proof.
  assert (Htok : forall cfg path, truthy (USER_TOKEN cfg) = true -> api_url cfg path = API_BASE ++ path).
  { intros cfg path H. unfold api_url. rewrite H. cbv iota. now rewrite append_empty_r_str. }
  intros cfg path. split; [| split].
  - apply Htok.
  - intros H. unfold api_url. rewrite H. simpl. destruct (has_char "?" path); reflexivity.
  - intros call H Hq.
    change (req_url (tool_request cfg call)) with (api_url cfg (tool_path call)).
    rewrite (Htok _ _ H). unfold has_query_param. rewrite query_keys_prefix by reflexivity.
    destruct call; try discriminate Hq.
    + rewrite browse_keys. unfold str_given, num_given.
      destruct q as [x |]; [destruct (truthy x) |]; destruct tag as [t |]; try destruct (truthy t);
        destruct page as [n |]; try destruct (n =? 0)%Z; destruct limit as [m |];
        try destruct (m =? 0)%Z; reflexivity.
    + rewrite needs_keys. unfold str_given, num_given.
      destruct priority0; destruct tag as [t |]; try destruct (truthy t);
        destruct limit as [m |]; try destruct (m =? 0)%Z; reflexivity.
    + rewrite contributions_keys. unfold str_given.
      destruct status; destruct type as [t |]; try destruct (truthy t); reflexivity.
    + rewrite leaderboard_keys. unfold num_given.
      destruct limit as [m |]; try destruct (m =? 0)%Z; reflexivity.
Qed.

Lemma api_url_agent_suffix_witness :
  let cfg := {| AGENT_NAME := "mcp-agent"; MODEL_NAME := ""; USER_TOKEN := "jwt" |} in
  truthy (USER_TOKEN cfg) = true
  /\ api_url cfg "/people?tag=Music" = API_BASE ++ "/people?tag=Music"
  /\ has_query_param (req_url (tool_request cfg (browse_people None (Some "Music") None None))) "agent"
     = false.
Proof.
  intros cfg. split; [reflexivity |]. split.
  - apply (proj1 (api_url_agent_suffix cfg "/people?tag=Music")). reflexivity.
  - apply (proj2 (proj2 (api_url_agent_suffix cfg "/people?tag=Music"))); reflexivity.
Defined.

(** C5 (as stated): [page: 0] is supplied but no [page] key is sent
    (the inclusion test is [if (page)]). *)
Lemma browse_page_zero_not_sent :
  tool_path (browse_people None None (Some 0) None) = "/people"
  /\ has_query_param (tool_path (browse_people None None (Some 0) None)) "page" = false.
Proof. split; reflexivity. Qed.

(** C5 (amended): the path of each query tool carries a query key exactly
    when the argument was given a truthy value (non-empty string, non-zero
    number, any enum value); an omitted argument is never sent.  With no
    optional argument [browse_people] builds [/people], with [tag: "Music"]
    it builds [/people?tag=Music]. *)
Theorem query_keys_iff_given :
  (forall q tag page limit,
      query_keys (tool_path (browse_people q tag page limit))
      = (opt_key "q" (str_given q) ++ opt_key "tag" (str_given tag)
         ++ opt_key "page" (num_given page) ++ opt_key "limit" (num_given limit))%list)
  /\ (forall pr tag limit,
      query_keys (tool_path (find_needs pr tag limit))
      = (opt_key "priority" (if pr then true else false) ++ opt_key "tag" (str_given tag)
         ++ opt_key "limit" (num_given limit))%list)
  /\ (forall st ty,
      query_keys (tool_path (my_contributions st ty))
      = (opt_key "status" (if st then true else false) ++ opt_key "type" (str_given ty))%list)
  /\ (forall limit,
      query_keys (tool_path (leaderboard limit)) = opt_key "limit" (num_given limit))
  /\ tool_path (browse_people None None None None) = "/people"
  /\ tool_path (browse_people None (Some "Music") None None) = "/people?tag=Music".
Proof.
  split; [exact browse_keys |]. split; [exact needs_keys |].
  split; [exact contributions_keys |]. split; [exact leaderboard_keys |].
  split; reflexivity.
Qed.

(** C10 (as stated): a slug with two [?] gives a URL with two. *)
Lemma slug_url_two_question_marks :
  let cfg := config_of_env None None None in
  truthy (USER_TOKEN cfg) = false
  /\ req_url (tool_request cfg (get_assignment "a?b?c"))
     = "https://api.biopics.ai/assignment/a?b?c&agent=mcp-agent"
  /\ count_char "?" (req_url (tool_request cfg (get_assignment "a?b?c"))) = 2%nat.
Proof. vm_compute. repeat split. Qed.

(** C10 (amended): with no token, the client puts the agent parameter
    after [&] when the path already has a [?] and after [?] otherwise (the
    URL is the base, the path, that separator and [agent=<AGENT_NAME>]), so
    the URL has the path's [?]s, one more when the path has none, and
    those of the agent name.  The query tools' paths have at most one
    [?], so with an agent name free of [?] their URLs have exactly one. *)
Theorem url_question_marks :
  (forall (cfg : config) (path : string),
      truthy (USER_TOKEN cfg) = false ->
      api_url cfg path
      = API_BASE ++ path ++ (if has_char "?" path then "&" else "?") ++ "agent=" ++ AGENT_NAME cfg
      /\ count_char "?" (api_url cfg path)
         = (count_char "?" path + (if has_char "?" path then 0 else 1) + count_char "?" (AGENT_NAME cfg))%nat)
  /\ (forall (cfg : config) (call : tool_call),
      is_query_tool call = true ->
      truthy (USER_TOKEN cfg) = false ->
      has_char "?" (AGENT_NAME cfg) = false ->
      count_char "?" (req_url (tool_request cfg call)) = 1%nat).
Proof.
  assert (Hcount : forall (cfg : config) (path : string),
      truthy (USER_TOKEN cfg) = false ->
      count_char "?" (api_url cfg path)
      = (count_char "?" path + (if has_char "?" path then 0 else 1) + count_char "?" (AGENT_NAME cfg))%nat).
  { intros cfg path H. unfold api_url. rewrite H. simpl.
    rewrite count_char_app. destruct (has_char "?" path); simpl; lia. }
  split.
  { intros cfg path H. split; [| exact (Hcount cfg path H)].
    unfold api_url. rewrite H. simpl. destruct (has_char "?" path); reflexivity. }
  intros cfg call Hq Ht Ha.
  change (req_url (tool_request cfg call)) with (api_url cfg (tool_path call)).
  rewrite Hcount by exact Ht.
  rewrite (count_char_zero _ _ Ha).
  destruct (query_tool_path call Hq) as (base & ps & Hb & ->).
  rewrite count_with_query by exact Hb.
  destruct (has_char "?" (with_query base ps)) eqn:Eh.
  - pose proof (count_char_pos _ _ Eh) as Hp. rewrite count_with_query in Hp by exact Hb.
    destruct (length ps =? 0)%nat; simpl in *; lia.
  - pose proof (count_char_zero _ _ Eh) as Hz. rewrite count_with_query in Hz by exact Hb.
    rewrite Hz. reflexivity.
Qed.

Lemma url_question_marks_witness :
  let cfg := config_of_env None None None in
  is_query_tool (leaderboard (Some 5)) = true
  /\ truthy (USER_TOKEN cfg) = false
  /\ has_char "?" (AGENT_NAME cfg) = false
  /\ count_char "?" (req_url (tool_request cfg (leaderboard (Some 5)))) = 1%nat.
Proof.
  intros cfg. split; [reflexivity |]. split; [reflexivity |]. split; [reflexivity |].
  apply (proj2 url_question_marks); reflexivity.
Defined.

(* ================================================================= *)
(** ** Further properties of the client and the handlers *)

(** [JSON.parse(JSON.stringify(v))] gives [v] back. *)
Lemma parse_stringify (v : json) : wf_json v = true -> parse (stringify v) = Some v.
Proof.
  intros Hw. unfold parse, stringify.
  pose proof (jsize_ser v "" "" eq_refl eq_refl) as Hl.
  assert (H := ser_roundtrip v "" "" (S (String.length (ser "" "" v))) "" eq_refl eq_refl Hw
                 ltac:(lia) eq_refl).
  rewrite append_empty_r_str in H. rewrite H. reflexivity.
Qed.

(** A text of whitespace only is not JSON. *)
Lemma json_parse_all_ws (t : string) : all_ws t = true -> json_parse t = None.
Proof.
  intros Ht. unfold json_parse. rewrite pval_js_S.
  rewrite <- (append_empty_r_str t) at 2. rewrite skip_ws_all_ws by exact Ht. reflexivity.
Qed.

Lemma with_query_no_hash (base : string) (ps : search_params) :
  has_char "#" base = false -> has_char "#" (with_query base ps) = false.
Proof.
  intros Hb. unfold with_query. rewrite has_char_app, Hb.
  destruct (truthy (sp_to_string ps)); [| reflexivity].
  change ("?" ++ sp_to_string ps) with (String "?" (sp_to_string ps)). simpl.
  apply has_char_join; [reflexivity |]. apply sp_parts_safe. right; left; reflexivity.
Qed.

Lemma default_headers_content_type (cfg : config) :
  lookup "Content-Type" (default_headers cfg) = Some "application/json".
Proof.
  unfold default_headers.
  destruct (truthy (MODEL_NAME cfg)), (truthy (USER_TOKEN cfg)); rewrite ?lookup_obj_set; reflexivity.
Qed.

Lemma default_headers_authorization (cfg : config) :
  lookup "Authorization" (default_headers cfg)
  = if truthy (USER_TOKEN cfg) then Some ("Bearer " ++ USER_TOKEN cfg) else None.
Proof.
  unfold default_headers.
  destruct (truthy (MODEL_NAME cfg)), (truthy (USER_TOKEN cfg)); rewrite ?lookup_obj_set; reflexivity.
Qed.

Lemma tool_request_headers (cfg : config) (call : tool_call) :
  req_headers (tool_request cfg call) = default_headers cfg.
Proof. destruct call; reflexivity. Qed.

Lemma contribution_body_wf (type content : string) (su : option string) (sid : option Z)
    (ln : option string) :
  wf_json (JObj (contribution_body type content su sid ln)) = true.
Proof.
  unfold contribution_body.
  destruct su as [u |]; [destruct (truthy u) |]; destruct sid as [n |];
    try destruct (n =? 0)%Z; destruct ln as [l |]; try destruct (truthy l); reflexivity.
Qed.

(** When [fetch] rejects (a transport failure with message [m]), every
    tool returns an error envelope whose text is [Error: m]. *)
Theorem network_error_envelope :
  forall (net : network) (cfg : config) (call : tool_call) (m : string),
    net (tool_request cfg call) = NetworkError m ->
    exists env,
      handle net cfg call = Ok env
      /\ isError env = Some true
      /\ envelope_texts env = ["Error: " ++ m].
Proof.
  intros net cfg call m Hnet.
  unfold handle, try_catch, bind, ret, api. unfold tool_request in Hnet. rewrite Hnet.
  eexists. split; [reflexivity |]. split; reflexivity.
Qed.

Lemma network_error_envelope_witness :
  let net := fun _ : request => NetworkError "fetch failed" in
  let cfg := config_of_env None None None in
  net (tool_request cfg (review_person "fridakahlo")) = NetworkError "fetch failed"
  /\ exists env,
      handle net cfg (review_person "fridakahlo") = Ok env
      /\ isError env = Some true
      /\ envelope_texts env = ["Error: " ++ "fetch failed"].
Proof.
  intros net cfg. split; [reflexivity |].
  apply (network_error_envelope net cfg (review_person "fridakahlo") "fetch failed"). reflexivity.
Defined.

(** A 2xx reply whose body is empty or only whitespace (a [204 No
    Content], say) is not a success: [res.json()] throws, and the tool
    returns an error envelope [Error: <message of the SyntaxError>]. *)
Theorem empty_2xx_body_error_envelope :
  forall (net : network) (cfg : config) (call : tool_call) (S : Z) (T : string),
    net (tool_request cfg call) = Response S T ->
    res_ok S = true ->
    all_ws T = true ->
    exists env m,
      handle net cfg call = Ok env
      /\ isError env = Some true
      /\ json_syntax_error T = ErrorObj "SyntaxError" m
      /\ envelope_texts env = ["Error: " ++ m].
Proof.
  intros net cfg call S T Hnet Hok Hws.
  unfold handle, try_catch, bind, ret, api. unfold tool_request in Hnet. rewrite Hnet.
  cbn [api_response]. rewrite Hok, (json_parse_all_ws T Hws).
  eexists. eexists. split; [reflexivity |]. split; [reflexivity |]. split; reflexivity.
Qed.

Lemma empty_2xx_body_error_envelope_witness :
  let net := fun _ : request => Response 204 "" in
  let cfg := config_of_env None None None in
  net (tool_request cfg (leaderboard None)) = Response 204 ""
  /\ res_ok 204 = true
  /\ all_ws "" = true
  /\ exists env m,
      handle net cfg (leaderboard None) = Ok env
      /\ isError env = Some true
      /\ json_syntax_error "" = ErrorObj "SyntaxError" m
      /\ envelope_texts env = ["Error: " ++ m].
Proof.
  intros net cfg. split; [reflexivity |]. split; [reflexivity |]. split; [reflexivity |].
  apply (empty_2xx_body_error_envelope net cfg (leaderboard None) 204 ""); reflexivity.
Defined.

(** [process.env.X || default]: a variable set to the empty string counts
    as unset, so the agent name falls back to [mcp-agent] and is never
    empty, and an empty model name or token is the same as none. *)
Theorem config_env_fallbacks :
  forall (agent model token : option string),
    truthy (AGENT_NAME (config_of_env agent model token)) = true
    /\ config_of_env (Some "") model token = config_of_env None model token
    /\ config_of_env agent (Some "") token = config_of_env agent None token
    /\ config_of_env agent model (Some "") = config_of_env agent model None
    /\ AGENT_NAME (config_of_env None model token) = "mcp-agent".
Proof.
  intros agent model token. repeat split.
  unfold config_of_env, env_or. cbn [AGENT_NAME].
  destruct agent as [a |]; [| reflexivity].
  destruct (truthy a) eqn:E; [exact E | reflexivity].
Qed.

(** Every request of every tool identifies its caller in exactly one of
    two ways: with a token, an [Authorization: Bearer <token>] header and
    the URL [API_BASE ++ path] untouched; without one, no [Authorization]
    header and the URL [API_BASE ++ path ++ sep ++ "agent=" ++ name],
    [sep] being [&] or [?], with a non-empty agent name. *)
Theorem request_identifies_caller :
  forall (agent model token : option string) (call : tool_call),
    let cfg := config_of_env agent model token in
    let r := tool_request cfg call in
    (truthy (USER_TOKEN cfg) = true
     /\ lookup "Authorization" (req_headers r) = Some ("Bearer " ++ USER_TOKEN cfg)
     /\ req_url r = API_BASE ++ tool_path call)
    \/ (truthy (USER_TOKEN cfg) = false
        /\ lookup "Authorization" (req_headers r) = None
        /\ truthy (AGENT_NAME cfg) = true
        /\ exists sep, (sep = "&" \/ sep = "?")
                       /\ req_url r = API_BASE ++ tool_path call ++ sep ++ "agent=" ++ AGENT_NAME cfg).
Proof.
  intros agent model token call cfg r.
  assert (Ha : truthy (AGENT_NAME cfg) = true).
  { unfold cfg, config_of_env, env_or. cbn [AGENT_NAME].
    destruct agent as [a |]; [| reflexivity].
    destruct (truthy a) eqn:E; [exact E | reflexivity]. }
  unfold r. rewrite tool_request_headers, default_headers_authorization.
  change (req_url (tool_request cfg call)) with (api_url cfg (tool_path call)).
  unfold api_url. destruct (truthy (USER_TOKEN cfg)) eqn:Et.
  - left. repeat split. now rewrite append_empty_r_str.
  - right. repeat split; [exact Ha |].
    exists (if has_char "?" (tool_path call) then "&" else "?").
    split; [destruct (has_char "?" (tool_path call)); auto | reflexivity].
Qed.

Lemma request_identifies_caller_examples :
  req_url (tool_request (config_of_env None None None) (get_assignment "elonmusk"))
  = "https://api.biopics.ai/assignment/elonmusk?agent=mcp-agent"
  /\ req_url (tool_request (config_of_env None None (Some "jwt")) (get_assignment "elonmusk"))
     = "https://api.biopics.ai/assignment/elonmusk".
Proof. split; reflexivity. Qed.

(** The method, body and content type of each tool's request:
    [submit_contribution] sends a [POST] whose body is
    [JSON.stringify(body)]; every other tool sends a [GET] (fetch's
    default) without a body; every request says
    [Content-Type: application/json]. *)
Theorem request_method_and_body :
  forall (cfg : config) (call : tool_call),
    lookup "Content-Type" (req_headers (tool_request cfg call)) = Some "application/json"
    /\ match call with
       | submit_contribution _ type content su sid ln =>
           req_method (tool_request cfg call) = "POST"
           /\ req_body (tool_request cfg call)
              = Some (stringify (JObj (contribution_body type content su sid ln)))
       | _ => req_method (tool_request cfg call) = "GET" /\ req_body (tool_request cfg call) = None
       end.
Proof.
  intros cfg call. split.
  - rewrite tool_request_headers. apply default_headers_content_type.
  - destruct call; split; reflexivity.
Qed.



(** The keys of the [submit_contribution] body, in the order
    [JSON.stringify] writes them: [type], [content], then [source_url],
    [scene_id] and [liberty_note] for those given a truthy value; no key
    is repeated. *)
Theorem contribution_body_key_order :
  forall (type content : string) (su : option string) (sid : option Z) (ln : option string),
    map fst (contribution_body type content su sid ln)
    = (["type"; "content"] ++ opt_key "source_url" (str_given su)
       ++ opt_key "scene_id" (num_given sid) ++ opt_key "liberty_note" (str_given ln))%list
    /\ NoDup (map fst (contribution_body type content su sid ln)).
Proof.
  intros type content su sid ln.
  unfold contribution_body, str_given, num_given.
  destruct su as [u |]; [destruct (truthy u) |]; destruct sid as [n |];
    try destruct (n =? 0)%Z; destruct ln as [l |]; try destruct (truthy l);
    (split; [reflexivity | repeat (constructor; [simpl; intuition discriminate |]); constructor]).
Qed.

(** The URL of a query tool never has a [#]: every caller value goes
    through [URLSearchParams] (which writes [#] as [%23]) or [String(n)],
    so no value can cut the query off as a fragment (an agent name free
    of [#] assumed). *)
Theorem query_url_no_fragment :
  forall (cfg : config) (call : tool_call),
    is_query_tool call = true ->
    has_char "#" (AGENT_NAME cfg) = false ->
    has_char "#" (req_url (tool_request cfg call)) = false.
Proof.
  intros cfg call Hq Ha.
  assert (Hp : has_char "#" (tool_path call) = false).
  { destruct call; try discriminate Hq.
    - apply with_query_no_hash. reflexivity.
    - apply with_query_no_hash. reflexivity.
    - apply with_query_no_hash. reflexivity.
    - cbn [tool_path]. rewrite has_char_app.
      destruct limit as [n |]; [| reflexivity]. destruct (n =? 0)%Z; [reflexivity |].
      change ("?limit=" ++ num_to_string n) with (String "?" (String "l" (String "i" (String "m"
        (String "i" (String "t" (String "=" (num_to_string n)))))))).
      simpl. apply (query_safe_has _ (num_to_string_safe n)). }
  change (req_url (tool_request cfg call)) with (api_url cfg (tool_path call)).
  unfold api_url. rewrite !has_char_app, Hp.
  destruct (truthy (USER_TOKEN cfg)); [reflexivity |].
  destruct (has_char "?" (tool_path call)); simpl; rewrite ?has_char_app, Ha; reflexivity.
Qed.

Lemma query_url_no_fragment_witness :
  let cfg := config_of_env None None None in
  is_query_tool (browse_people (Some "#1 hits") None None None) = true
  /\ has_char "#" (AGENT_NAME cfg) = false
  /\ has_char "#" (req_url (tool_request cfg (browse_people (Some "#1 hits") None None None))) = false.
Proof.
  intros cfg. split; [reflexivity |]. split; [reflexivity |].
  apply query_url_no_fragment; reflexivity.
Defined.
